(** * The HTTP client of [src/lib/services/http.ts], embedded in Rocq

    The development follows the source file top to bottom: the values the
    client handles, the platform it runs on (storage, location, notices,
    [fetch], [XMLHttpRequest], the DOM), the [HttpClient] class with its three
    interceptor registries, the [request] pipeline, the verb bindings,
    [upload] and [download], and [userApi.getUsers] of
    [src/lib/services/api.ts].

    Conventions of the embedding:
    - a JavaScript string is the byte sequence of its UTF-8 encoding (Rocq's
      [string]); strings with lone surrogates are outside the model;
    - a JavaScript number is an integer [Z] of magnitude at most 2^53, the
      range in which every integer is exact and [String] prints all its
      digits; fractional, non-finite and larger numbers are outside the
      model;
    - [String(v)] follows the default conversion: an object that carries a
      [toString] or [valueOf] of its own is outside the model;
    - an [async] function is identified with its awaited outcome: a
      computation either returns a value or throws one, and [await] is
      sequential composition;
    - objects are immutable values: an interceptor that wants to change a
      descriptor returns the changed one. *)

From Stdlib Require Import ZArith Ascii String List Lia.
From stdpp Require Import gmap strings list fin_maps pretty.

Open Scope string_scope.
Open Scope Z_scope.

(** ** JavaScript values *)

#[warnings="-register-all"]
Inductive value : Type :=
| VUndefined
| VNull
| VBool (b : bool)
| VNum (n : Z)
| VStr (s : string)
| VArr (items : list value)
| VObj (fields : list (string * value))
| VFile (name : string)
| VFormData (entries : list (string * value)).

(** [ToBoolean]: the falsy values are [undefined], [null], [false], [0] and
    the empty string. *)
Definition truthy (v : value) : bool :=
  match v with
  | VUndefined | VNull => false
  | VBool b => b
  | VNum n => negb (n =? 0)
  | VStr s => negb (String.eqb s "")
  | VArr _ | VObj _ | VFile _ | VFormData _ => true
  end.

(** [a || b] *)
Definition js_or (a b : value) : value := if truthy a then a else b.

Definition is_nullish (v : value) : bool :=
  match v with VUndefined | VNull => true | _ => false end.

Fixpoint assoc (k : string) (l : list (string * value)) : option value :=
  match l with
  | [] => None
  | (k', v) :: r => if String.eqb k k' then Some v else assoc k r
  end.

(** [v.k], reading a data property.  [None] is the [TypeError] raised when
    [v] is [undefined] or [null].  Only the names the client reads ([code],
    [message], [status]) are looked up; none of them exists on a primitive,
    an array, a [File] or a [FormData]. *)
Definition get_prop (v : value) (k : string) : option value :=
  match v with
  | VUndefined | VNull => None
  | VObj fields => Some (default VUndefined (assoc k fields))
  | _ => Some VUndefined
  end.

(** [String(v)], also the conversion of a template literal. *)
Fixpoint to_js_string (v : value) : string :=
  match v with
  | VUndefined => "undefined"
  | VNull => "null"
  | VBool true => "true"
  | VBool false => "false"
  | VNum n => pretty n
  | VStr s => s
  | VArr items =>
      (fix join (l : list value) : string :=
         match l with
         | [] => ""
         | x :: r =>
             (if is_nullish x then "" else to_js_string x) ++
             match r with [] => "" | _ => "," ++ join r end
         end) items
  | VObj _ => "[object Object]"
  | VFile _ => "[object File]"
  | VFormData _ => "[object FormData]"
  end.

(** [new Error(msg)] *)
Definition mkError (msg : string) : value :=
  VObj [("name", VStr "Error"); ("message", VStr msg)].

(** The [TypeError] of a property read on [undefined] or [null]; the wording
    of the message is the engine's. *)
Definition mkTypeError (v : value) (k : string) : value :=
  VObj [("name", VStr "TypeError");
        ("message", VStr ("Cannot read properties of " ++ to_js_string v ++
                          " (reading '" ++ k ++ "')"))].

(** A text handed to [JSON.parse], described by what parsing it yields: the
    parsed value, or the [SyntaxError] message of the engine. *)
Inductive json_text : Type :=
| ParsesTo (v : value)
| Malformed (engine_msg : string).

Definition mkSyntaxError (engine_msg : string) : value :=
  VObj [("name", VStr "SyntaxError"); ("message", VStr engine_msg)].

(** ** Strings: [startsWith], [includes] *)

Fixpoint startsWith (s p : string) : bool :=
  match p, s with
  | EmptyString, _ => true
  | String a p', String b s' => Ascii.eqb a b && startsWith s' p'
  | String _ _, EmptyString => false
  end.

Fixpoint includes (s p : string) : bool :=
  startsWith s p ||
  match s with
  | EmptyString => false
  | String _ s' => includes s' p
  end.

(** ** [URLSearchParams]: the application/x-www-form-urlencoded format *)

Definition is_alnum (c : ascii) : bool :=
  let n := nat_of_ascii c in
  ((48 <=? n) && (n <=? 57) || (65 <=? n) && (n <=? 90) ||
   (97 <=? n) && (n <=? 122))%nat.

(** Bytes the serializer leaves as they are: ASCII alphanumerics and
    [*], [-], [.], [_]. *)
Definition urlencoded_safe (c : ascii) : bool :=
  is_alnum c || Ascii.eqb c "*" || Ascii.eqb c "-" || Ascii.eqb c "."
  || Ascii.eqb c "_".

Definition hex_digit (n : nat) : ascii :=
  if (n <? 10)%nat then ascii_of_nat (48 + n) else ascii_of_nat (55 + n).

Definition hex_value (c : ascii) : option nat :=
  let n := nat_of_ascii c in
  if ((48 <=? n) && (n <=? 57))%nat then Some (n - 48)%nat
  else if ((65 <=? n) && (n <=? 70))%nat then Some (n - 55)%nat
  else if ((97 <=? n) && (n <=? 102))%nat then Some (n - 87)%nat
  else None.

Fixpoint urlencode (s : string) : string :=
  match s with
  | EmptyString => EmptyString
  | String c r =>
      if urlencoded_safe c then String c (urlencode r)
      else if Ascii.eqb c " " then String "+" (urlencode r)
      else
        let n := nat_of_ascii c in
        String "%" (String (hex_digit (n / 16)) (String (hex_digit (n mod 16))
                                                  (urlencode r)))
  end.

(** [URLSearchParams.prototype.toString] on the list of pairs. *)
Fixpoint usp_toString (l : list (string * string)) : string :=
  match l with
  | [] => ""
  | (k, v) :: r =>
      urlencode k ++ "=" ++ urlencode v ++
      match r with [] => "" | _ => "&" ++ usp_toString r end
  end.

(** [URLSearchParams.prototype.append] and [set]. *)
Definition usp_append (l : list (string * string)) (k v : string) :=
  (l ++ [(k, v)])%list.

Fixpoint usp_replace (l : list (string * string)) (k v : string) (found : bool)
  : list (string * string) :=
  match l with
  | [] => if found then [] else [(k, v)]
  | (k', v') :: r =>
      if String.eqb k k'
      then (if found then usp_replace r k v true
            else (k, v) :: usp_replace r k v true)
      else (k', v') :: usp_replace r k v found
  end.

Definition usp_set (l : list (string * string)) (k v : string) :=
  usp_replace l k v false.

(** The parser of the same format, as [new URLSearchParams(text)] runs it:
    split on [&], drop empty pieces, split each piece at its first [=],
    turn [+] into a space, percent-decode. *)
Fixpoint split_on (sep : ascii) (s : string) : list string :=
  match s with
  | EmptyString => [EmptyString]
  | String c r =>
      if Ascii.eqb c sep then EmptyString :: split_on sep r
      else match split_on sep r with
           | [] => [String c EmptyString]
           | h :: t => String c h :: t
           end
  end.

Fixpoint split_first (sep : ascii) (s : string) : string * string :=
  match s with
  | EmptyString => (EmptyString, EmptyString)
  | String c r =>
      if Ascii.eqb c sep then (EmptyString, r)
      else let '(a, b) := split_first sep r in (String c a, b)
  end.

Fixpoint plus_to_space (s : string) : string :=
  match s with
  | EmptyString => EmptyString
  | String c r =>
      String (if Ascii.eqb c "+" then " "%char else c) (plus_to_space r)
  end.

Fixpoint percent_decode (s : string) : string :=
  match s with
  | EmptyString => EmptyString
  | String c r =>
      match r with
      | String h (String l r') =>
          match Ascii.eqb c "%", hex_value h, hex_value l with
          | true, Some a, Some b =>
              String (ascii_of_nat (16 * a + b)) (percent_decode r')
          | _, _, _ => String c (percent_decode r)
          end
      | _ => String c (percent_decode r)
      end
  end.

Definition urldecode (s : string) : string :=
  percent_decode (plus_to_space s).

Definition usp_parse (text : string) : list (string * string) :=
  map (fun piece =>
         let '(k, v) := split_first "=" piece in (urldecode k, urldecode v))
      (List.filter (fun piece => negb (String.eqb piece ""))
                   (split_on "&" text)).

(** ** Constants ([src/lib/services/api.ts], second part) *)

(** [process.env.NEXT_PUBLIC_API_BASE_URL || "/api"] *)
Definition API_BASE_URL (env : option string) : string :=
  match env with
  | Some s => if String.eqb s "" then "/api" else s
  | None => "/api"
  end.

Module STORAGE_KEYS.
Definition TOKEN : string := "auth_token".
End STORAGE_KEYS.

Module ERROR_MESSAGES.
Definition SERVER_ERROR : string := "服务器内部错误，请稍后重试".
Definition UNAUTHORIZED : string := "未授权访问，请重新登录".
Definition FORBIDDEN : string := "权限不足，无法访问该资源".
Definition UNKNOWN_ERROR : string := "未知错误，请联系管理员".
End ERROR_MESSAGES.

(** ** The data model of [http.ts] *)

Inductive Method : Type := GET | POST | PUT | DELETE | PATCH.

(** [interface RequestConfig]; an absent optional field is [None], an absent
    [data] is [VUndefined]. *)
Record RequestConfig : Type := {
  url : string;
  method : option Method;
  params : option (list (string * value));
  data : value;
  headers : option (gmap string string);
  timeout : option Z
}.

(** [Partial<RequestConfig>], the [config] argument of the verb bindings. *)
Record PartialConfig : Type := {
  p_url : option string;
  p_method : option Method;
  p_params : option (list (string * value));
  p_data : option value;
  p_headers : option (gmap string string);
  p_timeout : option Z
}.

(** A transport response: its status and its body, the latter described by
    what [response.json()] makes of it. *)
Record Response : Type := { status : Z; body : json_text }.

(** [response.ok] *)
Definition ok (r : Response) : bool := (200 <=? status r) && (status r <=? 299).

(** What flows through the response interceptors ([response: any]). *)
Inductive Any : Type :=
| AResponse (r : Response)
| AValue (v : value).

(** The [body] of a [RequestInit]. *)
Inductive Body : Type :=
| BodyFormData (entries : list (string * value))
| BodyJSON (v : value).   (* JSON.stringify(v) *)

(** [RequestInit]; [signal] is the delay handed to [AbortSignal.timeout]. *)
Record FetchOptions : Type := {
  fo_method : option Method;
  fo_headers : gmap string string;
  fo_signal : option Z;
  fo_body : option Body
}.

Inductive Outcome (A : Type) : Type :=
| Ok (a : A)
| Throw (e : value).
Arguments Ok {A} a.
Arguments Throw {A} e.

(** ** The platform *)

(** What the client, its interceptors and the platform share. *)
Record World : Type := {
  localStorage : gmap string json_text;
  pathname : option string;    (* [None]: [typeof window === "undefined"] *)
  navigations : list string;   (* assignments to [window.location.href] *)
  notices : list value         (* arguments of [message.error] *)
}.

Definition set_localStorage (ls : gmap string json_text) (w : World) : World :=
  {| localStorage := ls; pathname := pathname w;
     navigations := navigations w; notices := notices w |}.

Definition navigate (href : string) (w : World) : World :=
  {| localStorage := localStorage w; pathname := pathname w;
     navigations := (navigations w ++ [href])%list; notices := notices w |}.

(** [message.error(v)] *)
Definition message_error (v : value) (w : World) : World :=
  {| localStorage := localStorage w; pathname := pathname w;
     navigations := navigations w; notices := (notices w ++ [v])%list |}.

(** [storageUtils.get(key)] of [src/lib/utils/index.ts], called without a
    default: an absent or empty item and an item [JSON.parse] rejects all
    give [null]. *)
Definition storageUtils_get (key : string) (w : World) : value :=
  match localStorage w !! key with
  | Some (ParsesTo v) => v
  | Some (Malformed _) | None => VNull
  end.

(** [storageUtils.remove(key)] *)
Definition storageUtils_remove (key : string) (w : World) : World :=
  set_localStorage (delete key (localStorage w)) w.

(** The [<a>] element [download] builds. *)
Record Link : Type := { href : string; download_attr : string }.

(** The calls the client cannot see into.  Each may change the world and may
    throw. *)
Record Platform : Type := {
  fetch : string -> FetchOptions -> World -> Outcome Response * World;
  response_blob : Response -> World -> Outcome value * World;
  createObjectURL : value -> World -> Outcome string * World;
  createElement : World -> Outcome unit * World;
  appendChild : Link -> World -> Outcome unit * World;
  click : Link -> World -> Outcome unit * World;
  removeChild : Link -> World -> Outcome unit * World
}.

(** ** Observed calls *)

Inductive Event : Type :=
| EvRequestInterceptor (idx : nat) (input : RequestConfig)
                       (result : Outcome RequestConfig)
| EvResponseInterceptor (idx : nat) (input : Any) (result : Outcome Any)
| EvErrorInterceptor (idx : nat) (error : value) (result : Outcome value)
| EvFetch (target : string) (opts : FetchOptions)
| EvCreateObjectURL (u : string)
| EvRevokeObjectURL (u : string).

(** The world together with the calls observed so far, oldest first.  An
    interceptor and the platform act on the world only. *)
Record Sys : Type := { world : World; trace : list Event }.

Definition M (A : Type) : Type := Sys -> Outcome A * Sys.

Definition ret {A} (a : A) : M A := fun s => (Ok a, s).

Definition throw {A} (e : value) : M A := fun s => (Throw e, s).

Definition bind {A B} (m : M A) (k : A -> M B) : M B :=
  fun s =>
    match m s with
    | (Ok a, s') => k a s'
    | (Throw e, s') => (Throw e, s')
    end.

(** [try { m } catch (e) { h e }] *)
Definition try_catch {A} (m : M A) (h : value -> M A) : M A :=
  fun s =>
    match m s with
    | (Ok a, s') => (Ok a, s')
    | (Throw e, s') => h e s'
    end.

Definition emit (ev : Event) : M unit :=
  fun s => (Ok tt, {| world := world s; trace := (trace s ++ [ev])%list |}).

Definition get_world : M World := fun s => (Ok (world s), s).

Definition lift {A} (f : World -> Outcome A * World) : M A :=
  fun s => let '(r, w) := f (world s) in (r, {| world := w; trace := trace s |}).

(** A call of [f] that is observed: [ev] describes the call and its result. *)
Definition observed {A} (f : World -> Outcome A * World)
           (ev : Outcome A -> Event) : M A :=
  fun s =>
    let '(r, w) := f (world s) in
    (r, {| world := w; trace := (trace s ++ [ev r])%list |}).

Declare Scope js_scope.
Delimit Scope js_scope with js.
Notation "x <- m ;; k" := (bind m (fun x => k))
  (at level 100, m at next level, right associativity) : js_scope.
Notation "m ;;; k" := (bind m (fun _ => k))
  (at level 100, right associativity) : js_scope.
Open Scope js_scope.

(** ** [class HttpClient] *)

Definition RequestInterceptor : Type :=
  RequestConfig -> World -> Outcome RequestConfig * World.
Definition ResponseInterceptor : Type := Any -> World -> Outcome Any * World.
Definition ErrorInterceptor : Type := value -> World -> Outcome value * World.

Record HttpClient : Type := {
  baseURL : string;
  this_timeout : Z;
  requestInterceptors : list RequestInterceptor;
  responseInterceptors : list ResponseInterceptor;
  errorInterceptors : list ErrorInterceptor
}.

Definition addRequestInterceptor (i : RequestInterceptor) (c : HttpClient) :=
  {| baseURL := baseURL c; this_timeout := this_timeout c;
     requestInterceptors := (requestInterceptors c ++ [i])%list;
     responseInterceptors := responseInterceptors c;
     errorInterceptors := errorInterceptors c |}.

Definition addResponseInterceptor (i : ResponseInterceptor) (c : HttpClient) :=
  {| baseURL := baseURL c; this_timeout := this_timeout c;
     requestInterceptors := requestInterceptors c;
     responseInterceptors := (responseInterceptors c ++ [i])%list;
     errorInterceptors := errorInterceptors c |}.

Definition addErrorInterceptor (i : ErrorInterceptor) (c : HttpClient) :=
  {| baseURL := baseURL c; this_timeout := this_timeout c;
     requestInterceptors := requestInterceptors c;
     responseInterceptors := responseInterceptors c;
     errorInterceptors := (errorInterceptors c ++ [i])%list |}.

(** [buildURL]: the parameters are [Object.entries(params)], in that order. *)
Definition keeps_param (kv : string * value) : bool :=
  match kv.2 with
  | VNull | VUndefined => false
  | VStr s => negb (String.eqb s "")
  | _ => true
  end.

Definition searchParams_of (ps : list (string * value)) : list (string * string) :=
  fold_left (fun sp kv => if keeps_param kv
                          then usp_append sp kv.1 (to_js_string kv.2) else sp)
            ps [].

Definition fullURL (c : HttpClient) (u : string) : string :=
  if startsWith u "http" then u else baseURL c ++ u.

Definition buildURL (c : HttpClient) (u : string)
           (ps : option (list (string * value))) : string :=
  match ps with
  | Some ps =>
      let queryString := usp_toString (searchParams_of ps) in
      if negb (String.eqb queryString "")
      then fullURL c u ++ "?" ++ queryString
      else fullURL c u
  | None => fullURL c u
  end.

(** [setupDefaultInterceptors], the request interceptor: add the
    [Authorization] header when a token is stored. *)
Definition defaultRequestInterceptor : RequestInterceptor :=
  fun config w =>
    let token := storageUtils_get STORAGE_KEYS.TOKEN w in
    if truthy token
    then (Ok {| url := url config; method := method config;
                params := params config; data := data config;
                headers := Some (<["Authorization" :=
                                     "Bearer " ++ to_js_string token]>
                                   (default ∅ (headers config)));
                timeout := timeout config |}, w)
    else (Ok config, w).

(** The response interceptor: parse the body, reject a status outside
    200..299. *)
Definition defaultResponseInterceptor : ResponseInterceptor :=
  fun response w =>
    match response with
    | AResponse r =>
        match body r with
        | Malformed msg => (Throw (mkSyntaxError msg), w)
        | ParsesTo d =>
            if negb (ok r)
            then match get_prop d "message" with
                 | None => (Throw (mkTypeError d "message"), w)
                 | Some m =>
                     (Throw (mkError
                               (to_js_string
                                  (js_or m (VStr ERROR_MESSAGES.SERVER_ERROR)))),
                      w)
                 end
            else (Ok (AValue d), w)
        end
    | AValue v => (Ok (AValue v), w)
    end.

(** [error.status === n] *)
Definition status_is (st : value) (n : Z) : bool :=
  match st with VNum k => k =? n | _ => false end.

(** The error interceptor: notify, on 401 also drop the token and go to the
    login view; it always rethrows. *)
Definition defaultErrorInterceptor : ErrorInterceptor :=
  fun error w =>
    match get_prop error "status" with
    | None => (Throw (mkTypeError error "status"), w)
    | Some st =>
        if status_is st 401 then
          let w1 := storageUtils_remove STORAGE_KEYS.TOKEN w in
          let w2 := match pathname w1 with
                    | Some p => if negb (includes p "/login")
                                then navigate "/login" w1 else w1
                    | None => w1
                    end in
          (Throw error,
           message_error (VStr ERROR_MESSAGES.UNAUTHORIZED) w2)
        else if status_is st 403 then
          (Throw error, message_error (VStr ERROR_MESSAGES.FORBIDDEN) w)
        else
          (Throw error,
           message_error
             (js_or (default VUndefined (get_prop error "message"))
                    (VStr ERROR_MESSAGES.UNKNOWN_ERROR)) w)
    end.

(** [constructor(baseURL, timeout)]: the defaults are registered first. *)
Definition new_HttpClient (base : string) (t : Z) : HttpClient :=
  addErrorInterceptor defaultErrorInterceptor
    (addResponseInterceptor defaultResponseInterceptor
       (addRequestInterceptor defaultRequestInterceptor
          {| baseURL := base; this_timeout := t; requestInterceptors := [];
             responseInterceptors := []; errorInterceptors := [] |})).

(** [export const http = new HttpClient()] *)
Definition http (env : option string) : HttpClient :=
  new_HttpClient (API_BASE_URL env) 10000.

(** [applyRequestInterceptors]: the loop, from the interceptor at position
    [i] on. *)
Fixpoint applyRequestInterceptors_from (i : nat) (l : list RequestInterceptor)
         (finalConfig : RequestConfig) : M RequestConfig :=
  match l with
  | [] => ret finalConfig
  | interceptor :: rest =>
      c <- observed (interceptor finalConfig)
                    (EvRequestInterceptor i finalConfig) ;;
      applyRequestInterceptors_from (S i) rest c
  end.

Definition applyRequestInterceptors (c : HttpClient) (config : RequestConfig)
  : M RequestConfig :=
  applyRequestInterceptors_from 0 (requestInterceptors c) config.

Fixpoint applyResponseInterceptors_from (i : nat) (l : list ResponseInterceptor)
         (finalResponse : Any) : M Any :=
  match l with
  | [] => ret finalResponse
  | interceptor :: rest =>
      r <- observed (interceptor finalResponse)
                    (EvResponseInterceptor i finalResponse) ;;
      applyResponseInterceptors_from (S i) rest r
  end.

Definition applyResponseInterceptors (c : HttpClient) (response : Any) : M Any :=
  applyResponseInterceptors_from 0 (responseInterceptors c) response.

(** [applyErrorInterceptors]: every interceptor is called inside its own
    [try], whose [catch] is empty. *)
Fixpoint applyErrorInterceptors_from (i : nat) (l : list ErrorInterceptor)
         (error : value) : M unit :=
  match l with
  | [] => ret tt
  | interceptor :: rest =>
      try_catch
        (observed (interceptor error) (EvErrorInterceptor i error) ;;; ret tt)
        (fun _ => ret tt) ;;;
      applyErrorInterceptors_from (S i) rest error
  end.

Definition applyErrorInterceptors (c : HttpClient) (error : value) : M unit :=
  applyErrorInterceptors_from 0 (errorInterceptors c) error.

(** [request], lines 196-217: the options handed to [fetch]. *)
Definition default_headers : gmap string string :=
  {[ "Content-Type" := "application/json" ]}.

Definition sends_body (m : Method) : bool :=
  match m with POST | PUT | PATCH => true | GET | DELETE => false end.

(** [finalConfig.timeout || this.timeout] *)
Definition timeout_of (c : HttpClient) (finalConfig : RequestConfig) : Z :=
  match timeout finalConfig with
  | Some t => if t =? 0 then this_timeout c else t
  | None => this_timeout c
  end.

(** [AbortSignal.timeout(ms)]: its argument is an [unsigned long long] with
    enforced range, so a delay below 0 or above 2^53 - 1 raises a
    [TypeError]. *)
Definition AbortSignal_timeout (ms : Z) : Outcome Z :=
  if (0 <=? ms) && (ms <=? 9007199254740991) then Ok ms
  else Throw (VObj [("name", VStr "TypeError");
                    ("message",
                     VStr "Failed to execute 'timeout' on 'AbortSignal': Value is outside the 'unsigned long long' value range.")]).

Definition fetchOptions_of (finalConfig : RequestConfig) (signal : Z)
  : FetchOptions :=
  let hs := default ∅ (headers finalConfig) ∪ default_headers in
  let m := default GET (method finalConfig) in
  if truthy (data finalConfig) && sends_body m then
    match data finalConfig with
    | VFormData entries =>
        {| fo_method := Some m; fo_headers := delete "Content-Type" hs;
           fo_signal := Some signal; fo_body := Some (BodyFormData entries) |}
    | d =>
        {| fo_method := Some m; fo_headers := hs;
           fo_signal := Some signal; fo_body := Some (BodyJSON d) |}
    end
  else
    {| fo_method := Some m; fo_headers := hs;
       fo_signal := Some signal; fo_body := None |}.

(** The [ApiError] built in the [catch] of [request].  Reading [error.code]
    of an [undefined] or [null] failure raises a [TypeError]. *)
Definition apiError_of (error : value) : Outcome value :=
  match get_prop error "code" with
  | None => Throw (mkTypeError error "code")
  | Some code =>
      match get_prop error "message" with
      | None => Throw (mkTypeError error "message")
      | Some msg =>
          Ok (VObj [("code", js_or code (VStr "UNKNOWN_ERROR"));
                    ("message",
                     js_or msg (VStr ERROR_MESSAGES.UNKNOWN_ERROR));
                    ("details", error)])
      end
  end.

Definition of_outcome {A} (o : Outcome A) : M A :=
  match o with Ok a => ret a | Throw e => throw e end.

(** [private async request(config)]: the body of its [try] ... *)
Definition request_try (P : Platform) (c : HttpClient) (config : RequestConfig)
  : M Any :=
  finalConfig <- applyRequestInterceptors c config ;;
  signal <- of_outcome (AbortSignal_timeout (timeout_of c finalConfig)) ;;
  let fetchOptions := fetchOptions_of finalConfig signal in
  let target := buildURL c (url finalConfig) (params finalConfig) in
  emit (EvFetch target fetchOptions) ;;;
  response <- lift (fetch P target fetchOptions) ;;
  applyResponseInterceptors c (AResponse response).

(** ... and of its [catch]. *)
Definition request_catch (c : HttpClient) (error : value) : M Any :=
  apiError <- of_outcome (apiError_of error) ;;
  applyErrorInterceptors c apiError ;;;
  throw apiError.

Definition request (P : Platform) (c : HttpClient) (config : RequestConfig)
  : M Any :=
  try_catch (request_try P c config) (request_catch c).

(** The spread [...config] over the fields a verb binding fixes. *)
Definition spread (base : RequestConfig) (config : option PartialConfig)
  : RequestConfig :=
  match config with
  | None => base
  | Some p =>
      {| url := default (url base) (p_url p);
         method := match p_method p with Some m => Some m | None => method base end;
         params := match p_params p with Some x => Some x | None => params base end;
         data := default (data base) (p_data p);
         headers := match p_headers p with Some h => Some h | None => headers base end;
         timeout := match p_timeout p with Some t => Some t | None => timeout base end |}
  end.

Definition descriptor (u : string) (m : Method)
           (ps : option (list (string * value))) (d : value) : RequestConfig :=
  {| url := u; method := Some m; params := ps; data := d;
     headers := None; timeout := None |}.

Definition get P c u ps config :=
  request P c (spread (descriptor u GET ps VUndefined) config).
Definition post P c u d config :=
  request P c (spread (descriptor u POST None d) config).
Definition put P c u d config :=
  request P c (spread (descriptor u PUT None d) config).
Definition patch P c u d config :=
  request P c (spread (descriptor u PATCH None d) config).
Definition delete_ P c u config :=
  request P c (spread (descriptor u DELETE None VUndefined) config).

(** ** [upload]: the [XMLHttpRequest] the code drives *)

Inductive ReadyState : Type := UNSENT | OPENED.

Record XHR : Type := {
  readyState : ReadyState;
  xhr_target : option (string * string);       (* method and URL of [open] *)
  requestHeaders : list (string * string);
  sent : option value                          (* the argument of [send] *)
}.

Definition new_XMLHttpRequest : XHR :=
  {| readyState := UNSENT; xhr_target := None; requestHeaders := [];
     sent := None |}.

Definition InvalidStateError (what : string) : value :=
  VObj [("name", VStr "InvalidStateError"); ("code", VNum 11);
        ("message", VStr what)].

(** [xhr.setRequestHeader(name, v)]: the XMLHttpRequest standard makes it
    throw an [InvalidStateError] unless the request has been opened and not
    yet sent. *)
Definition setRequestHeader (name v : string) (x : XHR) : Outcome XHR :=
  match readyState x, sent x with
  | OPENED, None =>
      Ok {| readyState := OPENED; xhr_target := xhr_target x;
            requestHeaders := (requestHeaders x ++ [(name, v)])%list;
            sent := None |}
  | _, _ =>
      Throw (InvalidStateError
               "Failed to execute 'setRequestHeader' on 'XMLHttpRequest': The object's state must be OPENED.")
  end.

(** [xhr.open(method, url)]: moves to [OPENED] and empties the request
    headers. *)
Definition xhr_open (m target : string) (x : XHR) : XHR :=
  {| readyState := OPENED; xhr_target := Some (m, target);
     requestHeaders := []; sent := None |}.

(** [xhr.send(body)] *)
Definition xhr_send (b : value) (x : XHR) : Outcome XHR :=
  match readyState x, sent x with
  | OPENED, None =>
      Ok {| readyState := OPENED; xhr_target := xhr_target x;
            requestHeaders := requestHeaders x; sent := Some b |}
  | _, _ =>
      Throw (InvalidStateError
               "Failed to execute 'send' on 'XMLHttpRequest': The object's state must be OPENED.")
  end.

(** How a sent request ends: a [load] event with the status and the response
    text, an [error] event, or an event the code has no listener for
    ([abort], [timeout]). *)
Inductive XhrEnd : Type :=
| OnLoad (st : Z) (responseText : json_text)
| OnError
| Unheard.

(** The state of the promise [upload] returns. *)
Inductive Settlement : Type :=
| Resolved (v : value)
| Rejected (e : value)
| Pending.

(** The [load] listener. *)
Definition on_load (st : Z) (responseText : json_text) : Settlement :=
  if (200 <=? st) && (st <? 300) then
    match responseText with
    | ParsesTo response => Resolved response
    | Malformed _ => Rejected (mkError "Invalid JSON response")
    end
  else Rejected (mkError ("Upload failed with status " ++ pretty st)).

(** The promise executor of [upload], up to and including [send].  The
    progress listener only reports to the caller's callback and is left
    out. *)
Definition upload_start (c : HttpClient) (u : string) (file : value)
           (w : World) : Outcome XHR :=
  let formData := VFormData [("file", file)] in
  let xhr := new_XMLHttpRequest in
  let token := storageUtils_get STORAGE_KEYS.TOKEN w in
  match (if truthy token
         then setRequestHeader "Authorization"
                               ("Bearer " ++ to_js_string token) xhr
         else Ok xhr) with
  | Throw e => Throw e
  | Ok xhr1 => xhr_send formData (xhr_open "POST" (buildURL c u None) xhr1)
  end.

(** [upload(url, file)]: the request the transport was given, if any, and
    how the promise settles when the transport ends with [ending]. *)
Definition upload (c : HttpClient) (u : string) (file : value)
           (ending : XHR -> XhrEnd) (w : World) : option XHR * Settlement :=
  match upload_start c u file w with
  | Throw e => (None, Rejected e)
  | Ok xhr =>
      (Some xhr,
       match ending xhr with
       | OnLoad st text => on_load st text
       | OnError => Rejected (mkError "Upload failed")
       | Unheard => Pending
       end)
  end.

(** ** [download] *)

Definition download (P : Platform) (c : HttpClient) (u : string)
           (filename : option string) : M unit :=
  try_catch
    (w <- get_world ;;
     let opts :=
       {| fo_method := None;
          fo_headers :=
            {[ "Authorization" :=
                 "Bearer " ++ to_js_string (storageUtils_get STORAGE_KEYS.TOKEN w) ]};
          fo_signal := None; fo_body := None |} in
     emit (EvFetch (buildURL c u None) opts) ;;;
     response <- lift (fetch P (buildURL c u None) opts) ;;
     (if negb (ok response) then throw (mkError "Download failed") else ret tt) ;;;
     blob <- lift (response_blob P response) ;;
     downloadUrl <- lift (createObjectURL P blob) ;;
     emit (EvCreateObjectURL downloadUrl) ;;;
     lift (createElement P) ;;;
     let link := {| href := downloadUrl;
                    download_attr :=
                      match filename with
                      | Some f => if String.eqb f "" then "download" else f
                      | None => "download"
                      end |} in
     lift (appendChild P link) ;;;
     lift (click P link) ;;;
     lift (removeChild P link) ;;;
     emit (EvRevokeObjectURL downloadUrl))
    (fun error =>
       lift (fun w => (Ok tt, message_error (VStr "文件下载失败") w)) ;;;
       throw error).

(** ** [userApi.getUsers] ([src/lib/services/api.ts]) *)

(** [PaginationParams & { search?: string }] *)
Record UsersQuery : Type := {
  current : Z;
  pageSize : Z;
  search : option string
}.

Definition getUsers_url (ps : option UsersQuery) : string :=
  let q0 : list (string * string) := [] in
  let q1 := match ps with
            | Some p => if truthy (VNum (current p))
                        then usp_set q0 "current" (pretty (current p)) else q0
            | None => q0
            end in
  let q2 := match ps with
            | Some p => if truthy (VNum (pageSize p))
                        then usp_set q1 "pageSize" (pretty (pageSize p)) else q1
            | None => q1
            end in
  let q3 := match ps with
            | Some p => match search p with
                        | Some s => if truthy (VStr s)
                                    then usp_set q2 "search" s else q2
                        | None => q2
                        end
            | None => q2
            end in
  let queryString := usp_toString q3 in
  if negb (String.eqb queryString "") then "/users?" ++ queryString
  else "/users".

Definition getUsers (P : Platform) (env : option string)
           (ps : option UsersQuery) : M Any :=
  get P (http env) (getUsers_url ps) None None.

(** * Auxiliary notions for the statements *)

(** [x] occurs in [s]. *)
Fixpoint occurs (x : ascii) (s : string) : bool :=
  match s with
  | EmptyString => false
  | String c r => Ascii.eqb c x || occurs x r
  end.

(** One [name=value] piece of a serialized query. *)
Definition piece_of (kv : string * string) : string :=
  urlencode kv.1 ++ "=" ++ urlencode kv.2.

(** The pairs [buildURL] appends: the kept parameters, in order, each with
    its value converted by [String]. *)
Definition kept_params (ps : list (string * value)) : list (string * string) :=
  map (fun kv => (kv.1, to_js_string kv.2)) (List.filter keeps_param ps).

(** The events a computation started in [s] and ended in [s'] has added. *)
Definition events_since (s s' : Sys) : list Event :=
  drop (length (trace s)) (trace s').

(** A call of a request interceptor, as observed. *)
Record RequestCall : Type := {
  call_idx : nat;
  call_input : RequestConfig;
  call_result : Outcome RequestConfig
}.

Definition ev_of_call (x : RequestCall) : Event :=
  EvRequestInterceptor (call_idx x) (call_input x) (call_result x).

Fixpoint request_calls (tr : list Event) : list RequestCall :=
  match tr with
  | [] => []
  | EvRequestInterceptor i input result :: t =>
      {| call_idx := i; call_input := input; call_result := result |}
        :: request_calls t
  | _ :: t => request_calls t
  end.

(** A call of an error interceptor, as observed. *)
Record ErrorCall : Type := {
  ecall_idx : nat;
  ecall_error : value;
  ecall_result : Outcome value
}.

Definition ev_of_ecall (x : ErrorCall) : Event :=
  EvErrorInterceptor (ecall_idx x) (ecall_error x) (ecall_result x).

Fixpoint error_calls (tr : list Event) : list ErrorCall :=
  match tr with
  | [] => []
  | EvErrorInterceptor i e result :: t =>
      {| ecall_idx := i; ecall_error := e; ecall_result := result |}
        :: error_calls t
  | _ :: t => error_calls t
  end.

(** The calls of [fetch] in a trace. *)
Fixpoint fetch_calls (tr : list Event) : list (string * FetchOptions) :=
  match tr with
  | [] => []
  | EvFetch target opts :: t => (target, opts) :: fetch_calls t
  | _ :: t => fetch_calls t
  end.

(** The calls of [fetch] a run of [request] makes, given what the request
    interceptors ended with: one, when they all returned and the delay is
    one [AbortSignal.timeout] accepts. *)
Definition fetches_of (c : HttpClient) (r : Outcome RequestConfig)
  : list (string * FetchOptions) :=
  match r with
  | Ok fc =>
      match AbortSignal_timeout (timeout_of c fc) with
      | Ok signal =>
          [(buildURL c (url fc) (params fc), fetchOptions_of fc signal)]
      | Throw _ => []
      end
  | Throw _ => []
  end.

(** How often the request interceptor at position [k] was called. *)
Definition invocations (k : nat) (tr : list Event) : nat :=
  length (List.filter (fun x => Nat.eqb (call_idx x) k) (request_calls tr)).

(** What a run of the request-interceptor loop over [l], started at position
    [i] with [config] and ended with [r], leaves in the trace: the calls are
    numbered from [i] on without gap or repetition, the first receives
    [config], each next one receives what the previous one returned, each
    result is what the registered interceptor gave, and the loop stops early
    only at a call that threw. *)
Record chain_run (i : nat) (l : list RequestInterceptor)
       (config : RequestConfig) (r : Outcome RequestConfig)
       (calls : list RequestCall) : Prop := {
  run_idx : map call_idx calls = seq i (length calls);
  run_bound : (length calls <= length l)%nat;
  run_first : forall x, calls !! 0%nat = Some x -> call_input x = config;
  run_link : forall k x y, calls !! k = Some x -> calls !! S k = Some y ->
                           call_result x = Ok (call_input y);
  run_real : forall k x, calls !! k = Some x ->
                         exists f w, l !! k = Some f /\ (f (call_input x) w).1 = call_result x;
  run_result : r = match last calls with
                   | Some x => call_result x
                   | None => Ok config
                   end;
  run_all : forall c', r = Ok c' -> length calls = length l;
  run_stop : forall e, r = Throw e -> (0 < length calls)%nat
}.

(** The same for the error interceptors, all called with [error]. *)
Record error_run (i : nat) (l : list ErrorInterceptor) (error : value)
       (calls : list ErrorCall) : Prop := {
  erun_idx : map ecall_idx calls = seq i (length l);
  erun_error : Forall (fun x => ecall_error x = error) calls;
  erun_real : forall k x, calls !! k = Some x ->
                          exists f w, l !! k = Some f /\ (f error w).1 = ecall_result x
}.

Definition is_response_event (ev : Event) : bool :=
  match ev with EvResponseInterceptor _ _ _ => true | _ => false end.

(** * Sample worlds, platforms and clients *)

(** A browser tab on [/dashboard], nothing stored. *)
Definition signed_out : World :=
  {| localStorage := ∅; pathname := Some "/dashboard";
     navigations := []; notices := [] |}.

(** The same tab with [token] stored under [auth_token]. *)
Definition signed_in (token : string) : World :=
  {| localStorage := {[ STORAGE_KEYS.TOKEN := ParsesTo (VStr token) ]};
     pathname := Some "/dashboard"; navigations := []; notices := [] |}.

Definition start (w : World) : Sys := {| world := w; trace := [] |}.

(** A platform whose [fetch] always ends with [reply] and whose
    [document.body] is present or not. *)
Definition platform_of (reply : Outcome Response) (has_body : bool) : Platform :=
  {| fetch := fun _ _ w => (reply, w);
     response_blob := fun _ w => (Ok (VFile "blob"), w);
     createObjectURL := fun _ w => (Ok "blob:1", w);
     createElement := fun w => (Ok tt, w);
     appendChild := fun _ w =>
       if has_body then (Ok tt, w)
       else (Throw (mkTypeError VNull "appendChild"), w);
     click := fun _ w => (Ok tt, w);
     removeChild := fun _ w => (Ok tt, w) |}.

Definition envelope (d : value) : value :=
  VObj [("data", d); ("success", VBool true)].

(** A platform that answers every request with [200] and an empty list. *)
Definition healthy : Platform :=
  platform_of (Ok {| status := 200; body := ParsesTo (envelope (VArr [])) |}) true.

(** A request interceptor that gives up, and one that marks the request. *)
Definition refusing : RequestInterceptor :=
  fun _ w => (Throw (mkError "offline"), w).

Definition marking : RequestInterceptor :=
  fun config w =>
    (Ok {| url := url config; method := method config;
           params := params config; data := data config;
           headers := Some (<["X-Trace" := "1"]> (default ∅ (headers config)));
           timeout := timeout config |}, w).

(** A request interceptor that rejects without a reason: [Promise.reject()]. *)
Definition rejecting_bare : RequestInterceptor :=
  fun _ w => (Throw VUndefined, w).

(** The default client with [refusing] and then [marking] registered. *)
Definition guarded_client : HttpClient :=
  addRequestInterceptor marking
    (addRequestInterceptor refusing (new_HttpClient "/api" 10000)).

Definition list_users : RequestConfig := descriptor "/users" GET None VUndefined.

Definition default_client : HttpClient := new_HttpClient "/api" 10000.

(** An avatar upload sent through [post]. *)
Definition avatar_form : value := VFormData [("file", VFile "avatar.png")].
Definition post_avatar : RequestConfig :=
  descriptor "/avatar" POST None avatar_form.

(** A [GET] descriptor that carries a payload all the same. *)
Definition get_with_payload : RequestConfig :=
  descriptor "/users" GET None (VObj [("role", VStr "admin")]).

(** What the default interceptor makes of the two descriptors when the
    token [abc] is stored. *)
Definition post_avatar_final : RequestConfig :=
  {| url := "/avatar"; method := Some POST; params := None;
     data := avatar_form;
     headers := Some {[ "Authorization" := "Bearer abc" ]};
     timeout := None |}.

Definition get_with_payload_final : RequestConfig :=
  {| url := "/users"; method := Some GET; params := None;
     data := VObj [("role", VStr "admin")];
     headers := Some {[ "Authorization" := "Bearer abc" ]};
     timeout := None |}.

(** The default client with [rejecting_bare] registered. *)
Definition bare_client : HttpClient :=
  addRequestInterceptor rejecting_bare default_client.

(** A server that answers [401] with a message of its own. *)
Definition session_expired : Response :=
  {| status := 401;
     body := ParsesTo (VObj [("success", VBool false);
                             ("message", VStr "token expired")]) |}.

(** A server that answers [409] to a sign-up with a known address. *)
Definition email_taken : Response :=
  {| status := 409;
     body := ParsesTo (VObj [("success", VBool false);
                             ("message", VStr "邮箱已存在")]) |}.

(** A gateway that answers [502] with an HTML page, and a [204] without a
    body; neither body is JSON. *)
Definition bad_gateway : Response :=
  {| status := 502;
     body := Malformed "Unexpected token < in JSON at position 0" |}.

Definition no_content : Response :=
  {| status := 204; body := Malformed "Unexpected end of JSON input" |}.

(** The object URLs a trace creates and revokes. *)
Fixpoint created_urls (tr : list Event) : list string :=
  match tr with
  | [] => []
  | EvCreateObjectURL u :: t => u :: created_urls t
  | _ :: t => created_urls t
  end.

Fixpoint revoked_urls (tr : list Event) : list string :=
  match tr with
  | [] => []
  | EvRevokeObjectURL u :: t => u :: revoked_urls t
  | _ :: t => revoked_urls t
  end.

(** A server that delivers the export, seen from a page with and without
    [document.body]. *)
Definition export_ready : Response :=
  {| status := 200; body := Malformed "Unexpected token i in JSON at position 0" |}.

Definition with_body : Platform := platform_of (Ok export_ready) true.
Definition without_body : Platform := platform_of (Ok export_ready) false.

(** The request [upload] hands to the transport when no header was set. *)
Definition upload_request (c : HttpClient) (u : string) (file : value) : XHR :=
  {| readyState := OPENED; xhr_target := Some ("POST", fullURL c u);
     requestHeaders := []; sent := Some (VFormData [("file", file)]) |}.

(** The default client with [marking] registered. *)
Definition marking_client : HttpClient :=
  addRequestInterceptor marking default_client.

(** The headers C7 states, word for word: the default merged with the
    overrides, the overrides last, and for a [FormData] payload the default
    [Content-Type] entry left out. *)
Definition stated_headers (fc : RequestConfig) : gmap string string :=
  match data fc with
  | VFormData _ => default ∅ (headers fc) ∪ delete "Content-Type" default_headers
  | _ => default ∅ (headers fc) ∪ default_headers
  end.

(** [{ headers: { "Content-Type": "multipart/form-data" } }], the overrides
    of a caller who names the content type of a form upload. *)
Definition typed_form : PartialConfig :=
  {| p_url := None; p_method := None; p_params := None; p_data := None;
     p_headers := Some {[ "Content-Type" := "multipart/form-data" ]};
     p_timeout := None |}.

Definition post_avatar_typed : RequestConfig :=
  spread post_avatar (Some typed_form).

(** * The rest of the client, its callers and the helpers it shares *)

(** The descriptor the default request interceptor returns in world [w]. *)
Definition authorized (w : World) (config : RequestConfig) : RequestConfig :=
  match (defaultRequestInterceptor config w).1 with
  | Ok c => c
  | Throw _ => config
  end.

(** The body [request] attaches for payload [d] under a method that takes
    one. *)
Definition body_of (d : value) : option Body :=
  if truthy d then
    match d with
    | VFormData entries => Some (BodyFormData entries)
    | _ => Some (BodyJSON d)
    end
  else None.

(** The [Authorization] header of a world: present when a token is stored. *)
Definition auth_headers (w : World) : gmap string string :=
  let token := storageUtils_get STORAGE_KEYS.TOKEN w in
  if truthy token then {[ "Authorization" := "Bearer " ++ to_js_string token ]}
  else ∅.

(** A delay [AbortSignal.timeout] accepts. *)
Definition delay_ok (t : Z) : Prop := 0 <= t <= 9007199254740991.

(** The headers [request] sends from world [w] for a descriptor without
    headers of its own, given the body it attaches. *)
Definition headers_for (w : World) (b : option Body) : gmap string string :=
  match b with
  | Some (BodyFormData _) =>
      delete "Content-Type" (auth_headers w ∪ default_headers)
  | _ => auth_headers w ∪ default_headers
  end.

(** A page on which [abc] is stored as token, ready to list users. *)
Definition ready : Sys := start (signed_in "abc").

(** A gateway that is down, seen from the page [ready]. *)
Definition gateway_down : Platform := platform_of (Ok bad_gateway) true.

(** A listing of users that must not take longer than -1 ms. *)
Definition hurried : RequestConfig :=
  {| url := "/users"; method := Some GET; params := None; data := VUndefined;
     headers := None; timeout := Some (-1) |}.

(** The options [download] hands to [fetch] in world [w]: the
    [Authorization] header and nothing else. *)
Definition download_options (w : World) : FetchOptions :=
  {| fo_method := None;
     fo_headers :=
       {[ "Authorization" :=
            "Bearer " ++ to_js_string (storageUtils_get STORAGE_KEYS.TOKEN w) ]};
     fo_signal := None; fo_body := None |}.

(** ** The other bindings of [src/lib/services/api.ts] *)

(** [userApi.getUser], [createUser], [updateUser], [deleteUser]; the id goes
    into the path through a template literal, as it is. *)
Definition getUser (P : Platform) (env : option string) (id : string) : M Any :=
  get P (http env) ("/users/" ++ id) None None.

Definition createUser (P : Platform) (env : option string) (d : value) : M Any :=
  post P (http env) "/users" d None.

Definition updateUser (P : Platform) (env : option string) (id : string)
           (d : value) : M Any :=
  put P (http env) ("/users/" ++ id) d None.

Definition deleteUser (P : Platform) (env : option string) (id : string) : M Any :=
  delete_ P (http env) ("/users/" ++ id) None.

(** [authApi.login], [logout], [getCurrentUser], [refreshToken]; the two
    without argument call [post] with the path only. *)
Definition login (P : Platform) (env : option string) (credentials : value)
  : M Any :=
  post P (http env) "/auth/login" credentials None.

Definition logout (P : Platform) (env : option string) : M Any :=
  post P (http env) "/auth/logout" VUndefined None.

Definition getCurrentUser (P : Platform) (env : option string) : M Any :=
  get P (http env) "/auth/me" None None.

Definition refreshToken (P : Platform) (env : option string) : M Any :=
  post P (http env) "/auth/refresh" VUndefined None.

(** The pairs [getUsers] puts into its query: the page and the page size
    when they are not 0, the search text when it is not empty. *)
Definition users_query_fields (q : option UsersQuery) : list (string * string) :=
  match q with
  | None => []
  | Some p =>
      ((if current p =? 0 then [] else [("current", pretty (current p))])
       ++ (if pageSize p =? 0 then [] else [("pageSize", pretty (pageSize p))])
       ++ match search p with
          | Some s => if String.eqb s "" then [] else [("search", s)]
          | None => []
          end)%list
  end.

(** ** [storageUtils] of [src/lib/utils/index.ts] *)

(** [JSON.parse(JSON.stringify(v))], the value read back after a value went
    through its JSON text; [None] where [JSON.stringify] gives [undefined]
    instead of a text.  In an array [undefined] becomes [null], in an object
    a field that is [undefined] is dropped, and a [File] or a [FormData] has
    no field of its own to write. *)
Fixpoint JSON_copy (v : value) : option value :=
  match v with
  | VUndefined => None
  | VNull | VBool _ | VNum _ | VStr _ => Some v
  | VArr items =>
      Some (VArr (List.map (fun x => default VNull (JSON_copy x)) items))
  | VObj fields =>
      Some (VObj ((fix copy_fields (l : list (string * value)) :=
                     match l with
                     | [] => []
                     | (k, x) :: r =>
                         match JSON_copy x with
                         | Some y => (k, y) :: copy_fields r
                         | None => copy_fields r
                         end
                     end) fields))
  | VFile _ | VFormData _ => Some (VObj [])
  end.

(** The item [localStorage.setItem(key, JSON.stringify(v))] stores: the text
    of [v], or the text [undefined], which is not JSON. *)
Definition stored_item (v : value) : json_text :=
  match JSON_copy v with
  | Some j => ParsesTo j
  | None => Malformed "Unexpected token u in JSON at position 0"
  end.

(** [storageUtils.set(key, value)].  [room] tells whether the storage takes
    the item; when it does not, [setItem] throws, the [catch] logs, and
    nothing is stored. *)
Definition storageUtils_set (room : bool) (key : string) (v : value)
           (w : World) : World :=
  if room then set_localStorage (<[key := stored_item v]> (localStorage w)) w
  else w.

(** [storageUtils.get(key, defaultValue)] *)
Definition storageUtils_get_or (key : string) (defaultValue : value)
           (w : World) : value :=
  match localStorage w !! key with
  | Some (ParsesTo v) => v
  | Some (Malformed _) | None => js_or defaultValue VNull
  end.

(** [storageUtils.clear()] *)
Definition storageUtils_clear (w : World) : World := set_localStorage ∅ w.

(** The values JSON has: no [undefined], [File] or [FormData] anywhere. *)
Fixpoint json_clean (v : value) : bool :=
  match v with
  | VUndefined | VFile _ | VFormData _ => false
  | VNull | VBool _ | VNum _ | VStr _ => true
  | VArr items => forallb json_clean items
  | VObj fields =>
      (fix clean_fields (l : list (string * value)) : bool :=
         match l with
         | [] => true
         | (_, x) :: r => json_clean x && clean_fields r
         end) fields
  end.

(** ** [urlUtils] of [src/lib/utils/index.ts] *)

(** [urlUtils.buildQuery(params)]: the loop of [buildURL] again. *)
Definition buildQuery (ps : list (string * value)) : string :=
  usp_toString (searchParams_of ps).

(** [new URLSearchParams(search)] drops one leading [?] before it parses. *)
Definition strip_question (s : string) : string :=
  match s with
  | String "?" r => r
  | _ => s
  end.

(** [urlUtils.parseQuery(search)]: [result[key] = value] for every pair, in
    order, so the last value of a name stays.  On a plain object the
    assignment to [__proto__] of a text stores nothing. *)
Definition parseQuery (search : string) : gmap string string :=
  fold_left (fun result kv =>
               if String.eqb kv.1 "__proto__" then result
               else <[kv.1 := kv.2]> result)
            (usp_parse (strip_question search)) ∅.

(** [s.lastIndexOf(c)], or -1. *)
Fixpoint lastIndexOf (c : ascii) (s : string) : Z :=
  match s with
  | EmptyString => -1
  | String x r =>
      let j := lastIndexOf c r in
      if 0 <=? j then j + 1 else if Ascii.eqb x c then 0 else -1
  end.

Fixpoint drop_chars (n : nat) (s : string) : string :=
  match n, s with
  | O, _ => s
  | S n', String _ r => drop_chars n' r
  | S _, EmptyString => EmptyString
  end.

Fixpoint take_chars (n : nat) (s : string) : string :=
  match n, s with
  | S n', String x r => String x (take_chars n' r)
  | _, _ => EmptyString
  end.

(** [x >>> 0] *)
Definition to_uint32 (x : Z) : Z := x mod 4294967296.

(** [urlUtils.getFileExtension(filename)]:
    [filename.slice(((filename.lastIndexOf(".") - 1) >>> 0) + 2)]; the start
    is never negative. *)
Definition getFileExtension (filename : string) : string :=
  drop_chars (Z.to_nat (to_uint32 (lastIndexOf "." filename - 1) + 2)) filename.

(** [urlUtils.getFileName(filename)]: [replace(/\.[^/.]+$/, "")] removes a
    final dot together with what follows it, when that is not empty and has
    no slash; only the last dot can start such a match. *)
Definition getFileName (filename : string) : string :=
  let i := lastIndexOf "." filename in
  if i <? 0 then filename
  else
    let rest := drop_chars (Z.to_nat (i + 1)) filename in
    if negb (String.eqb rest "") && negb (occurs "/" rest)
    then take_chars (Z.to_nat i) filename
    else filename.

(** ** [stringUtils] of [src/lib/utils/index.ts] *)

(** The classes [[A-Z]] and [[a-z]] of the two patterns. *)
Definition is_upper (c : ascii) : bool :=
  let n := nat_of_ascii c in ((65 <=? n) && (n <=? 90))%nat.

Definition is_lower (c : ascii) : bool :=
  let n := nat_of_ascii c in ((97 <=? n) && (n <=? 122))%nat.

(** [letter.toLowerCase()] and [letter.toUpperCase()], on the one letter the
    pattern has matched. *)
Definition letter_toLowerCase (c : ascii) : ascii :=
  if is_upper c then ascii_of_nat (nat_of_ascii c + 32) else c.

Definition letter_toUpperCase (c : ascii) : ascii :=
  if is_lower c then ascii_of_nat (nat_of_ascii c - 32) else c.

(** [stringUtils.camelToSnake(str)]: every [[A-Z]] is replaced by [_] and
    its lower-case letter. *)
Fixpoint camelToSnake (str : string) : string :=
  match str with
  | EmptyString => EmptyString
  | String c r =>
      if is_upper c
      then String "_" (String (letter_toLowerCase c) (camelToSnake r))
      else String c (camelToSnake r)
  end.

(** [stringUtils.snakeToCamel(str)]: the matches of [_([a-z])] are found from
    left to right and do not overlap; each is replaced by the upper-case
    letter. *)
Fixpoint snakeToCamel (str : string) : string :=
  match str with
  | EmptyString => EmptyString
  | String c r =>
      match r with
      | String d r' =>
          if Ascii.eqb c "_" && is_lower d
          then String (letter_toUpperCase d) (snakeToCamel r')
          else String c (snakeToCamel r)
      | EmptyString => String c EmptyString
      end
  end.

(** [_] followed at once by a lower-case letter. *)
Fixpoint has_snake_pair (s : string) : bool :=
  match s with
  | EmptyString => false
  | String c r =>
      Ascii.eqb c "_" && match r with
                         | String d _ => is_lower d
                         | EmptyString => false
                         end
      || has_snake_pair r
  end.

Fixpoint has_upper (s : string) : bool :=
  match s with
  | EmptyString => false
  | String c r => is_upper c || has_upper r
  end.

(** [stringUtils.stripHtml(html)]: [replace(/<[^>]*>/g, "")].  A match starts
    at a [<] that has a [>] after it and ends at the first such [>];
    [inside] tells whether the scan is within a match. *)
Fixpoint stripHtml_from (inside : bool) (html : string) : string :=
  match html with
  | EmptyString => EmptyString
  | String c r =>
      if inside
      then if Ascii.eqb c ">" then stripHtml_from false r
           else stripHtml_from true r
      else if Ascii.eqb c "<" && occurs ">" r then stripHtml_from true r
      else String c (stripHtml_from false r)
  end.

Definition stripHtml (html : string) : string := stripHtml_from false html.

(** ** [arrayUtils.paginate] of [src/lib/utils/index.ts] *)

(** [arr.slice(start, end)]: a negative index counts from the end, and both
    are clamped to the array. *)
Definition slice {A} (arr : list A) (start end_ : Z) : list A :=
  let len := Z.of_nat (length arr) in
  let k := if start <? 0 then Z.max (len + start) 0 else Z.min start len in
  let final := if end_ <? 0 then Z.max (len + end_) 0 else Z.min end_ len in
  take (Z.to_nat (final - k)) (drop (Z.to_nat k) arr).

Definition paginate {A} (arr : list A) (page limit : Z) : list A :=
  let startIndex := (page - 1) * limit in
  slice arr startIndex (startIndex + limit).

(** The pages 1 to [n], one after the other. *)
Definition first_pages {A} (arr : list A) (n : nat) (limit : Z) : list A :=
  concat (map (fun p => paginate arr (Z.of_nat p) limit) (seq 1 n)).

(** ** [formatUtils.timeAgo] of [src/lib/utils/index.ts] *)

(** [formatUtils.timeAgo(date)], with [now] the time value of [new Date()]
    and [target] the time value of [new Date(date)], [None] for an invalid
    date: its time value is [NaN], which no comparison accepts.  On the time
    values of two dates [Math.floor(x / k)] is the floored quotient. *)
Definition timeAgo (now : Z) (target : option Z) : string :=
  match target with
  | None => "刚刚"
  | Some t =>
      let diff := now - t in
      let seconds := diff / 1000 in
      let minutes := seconds / 60 in
      let hours := minutes / 60 in
      let days := hours / 24 in
      let months := days / 30 in
      let years := months / 12 in
      if 0 <? years then pretty years ++ "年前"
      else if 0 <? months then pretty months ++ "个月前"
      else if 0 <? days then pretty days ++ "天前"
      else if 0 <? hours then pretty hours ++ "小时前"
      else if 0 <? minutes then pretty minutes ++ "分钟前"
      else "刚刚"
  end.

(** ** Response interceptors added after construction *)

(** The calls of response interceptors in a trace: which one, and what it
    was handed. *)
Fixpoint response_inputs (tr : list Event) : list (nat * Any) :=
  match tr with
  | [] => []
  | EvResponseInterceptor i input _ :: t => (i, input) :: response_inputs t
  | _ :: t => response_inputs t
  end.

(** A response interceptor that takes the [data] field out of the envelope. *)
Definition unwrapping : ResponseInterceptor :=
  fun response w =>
    match response with
    | AValue v =>
        match get_prop v "data" with
        | Some d => (Ok (AValue d), w)
        | None => (Throw (mkTypeError v "data"), w)
        end
    | AResponse r => (Ok (AResponse r), w)
    end.

(** ** [arrayUtils.groupBy] of [src/lib/utils/index.ts] *)

(** The names a plain object inherits from [Object.prototype]. *)
Definition Object_prototype_names : list string :=
  ["constructor"; "__defineGetter__"; "__defineSetter__"; "hasOwnProperty";
   "__lookupGetter__"; "__lookupSetter__"; "isPrototypeOf";
   "propertyIsEnumerable"; "toString"; "valueOf"; "__proto__";
   "toLocaleString"].

Definition inherited (name : string) : bool :=
  existsb (String.eqb name) Object_prototype_names.

(** The [TypeError] of a call of something that is not a function; the
    wording of the message is the engine's. *)
Definition not_a_function (what : string) : value :=
  VObj [("name", VStr "TypeError");
        ("message", VStr (what ++ " is not a function"))].

Section GroupBy.

Context {T : Type}.

(** [String(item[key])] *)
Variable group_of : T -> string.

(** The callback of [reduce], item after item: [groups[group]] is the array
    stored under the name, or else what the object inherits under it, which
    is truthy and has no [push]. *)
Fixpoint groupBy_from (arr : list T) (groups : gmap string (list T))
  : Outcome (gmap string (list T)) :=
  match arr with
  | [] => Ok groups
  | item :: rest =>
      let group := group_of item in
      match groups !! group with
      | Some l => groupBy_from rest (<[group := (l ++ [item])%list]> groups)
      | None =>
          if inherited group
          then Throw (not_a_function "groups[group].push")
          else groupBy_from rest (<[group := [item]]> groups)
      end
  end.

Definition groupBy (arr : list T) : Outcome (gmap string (list T)) :=
  groupBy_from arr ∅.

(** The items of [arr] whose group is [g], in the order of [arr]. *)
Definition members (g : string) (arr : list T) : list T :=
  List.filter (fun item => String.eqb (group_of item) g) arr.

(** A property of an object is present when there is something under it. *)
Definition listed (l : list T) : option (list T) :=
  match l with [] => None | _ => Some l end.

End GroupBy.

(** ** [arrayUtils.toTree] and [arrayUtils.fromTree] of
    [src/lib/utils/index.ts] *)

(** An item with the list under its [children] field. *)
#[warnings="-register-all"]
Inductive Tree (T : Type) : Type :=
| Node (item : T) (children : list (Tree T)).
Arguments Node {T} item children.

(** [item.parentId === parentId], on [number | undefined]. *)
Definition same_parent (a b : option Z) : bool :=
  match a, b with
  | None, None => true
  | Some x, Some y => x =? y
  | _, _ => false
  end.

Section Trees.

Context {T : Type}.

(** [item.id] and [item.parentId]; [None] is [undefined]. *)
Variable id_of : T -> Z.
Variable parentId_of : T -> option Z.

(** [arrayUtils.toTree(arr, parentId)]: [filter], then [map] with one
    recursive call per item kept.  [fuel] bounds the depth of the calls;
    [None] tells that it did not suffice. *)
Fixpoint toTree (fuel : nat) (arr : list T) (parentId : option Z)
  : option (list (Tree T)) :=
  match fuel with
  | O => None
  | S fuel' =>
      mapM (fun item =>
              match toTree fuel' arr (Some (id_of item)) with
              | Some children => Some (Node item children)
              | None => None
              end)
           (List.filter (fun item => same_parent (parentId_of item) parentId)
                        arr)
  end.

(** [arrayUtils.fromTree(tree)]: [traverse] pushes a node without its
    [children] field, then goes through the children.  An item has no
    [children] field of its own, so a node without that field is the item,
    and a node whose [children] is absent or empty has none to go through. *)
Fixpoint traverse_node (node : Tree T) : list T :=
  match node with
  | Node rest children => rest :: flat_map traverse_node children
  end.

Definition fromTree (tree : list (Tree T)) : list T :=
  flat_map traverse_node tree.

(** [z] hangs under the key [p]: its [parentId] is [p], or it is the [id] of
    an item of [arr] that hangs under [p]. *)
Inductive hangs_under (arr : list T) : T -> option Z -> Prop :=
| hangs_here z p : parentId_of z = p -> hangs_under arr z p
| hangs_up z q p :
    In q arr -> parentId_of z = Some (id_of q) -> hangs_under arr q p ->
    hangs_under arr z p.

End Trees.

(** A small table of departments: identifier and parent. *)
Definition departments : list (Z * option Z) :=
  [(1, None); (2, Some 1); (3, Some 1); (4, Some 2); (5, None)].

Definition department_depth (x : Z * option Z) : nat :=
  if x.1 =? 4 then 2 else if (x.1 =? 2) || (x.1 =? 3) then 1 else 0.

(** ** [formatUtils.date] of [src/lib/utils/index.ts] *)

(** What the getters of a [Date] return, in local time. *)
Record DateFields : Type := {
  getFullYear : Z;
  getMonth : Z;
  getDate : Z;
  getHours : Z;
  getMinutes : Z;
  getSeconds : Z
}.

(** [s.replace(pat, rep)] for a pattern that is a string: the first
    occurrence of [pat] is replaced.  The replacements of [date] hold no
    [$]. *)
Fixpoint replace_first (pat rep s : string) {struct s} : string :=
  if startsWith s pat then rep ++ drop_chars (String.length pat) s
  else match s with
       | EmptyString => EmptyString
       | String c r => String c (replace_first pat rep r)
       end.

(** [s.padStart(2, "0")] *)
Definition padStart2 (s : string) : string :=
  match s with
  | EmptyString => "00"
  | String _ EmptyString => "0" ++ s
  | _ => s
  end.

(** [String(v)] for a number [v] read off the date; every getter of an
    invalid date ([None]) returns [NaN], and so does [NaN + 1]. *)
Definition getter_text (d : option DateFields) (v : DateFields -> Z) : string :=
  match d with
  | Some fields => pretty (v fields)
  | None => "NaN"
  end.

(** [formatUtils.date(date, format)], with [d] the fields of
    [new Date(date)]. *)
Definition formatUtils_date (d : option DateFields) (format : string) : string :=
  let year := getter_text d getFullYear in
  let month := padStart2 (getter_text d (fun fields => getMonth fields + 1)) in
  let day := padStart2 (getter_text d getDate) in
  let hours := padStart2 (getter_text d getHours) in
  let minutes := padStart2 (getter_text d getMinutes) in
  let seconds := padStart2 (getter_text d getSeconds) in
  replace_first "ss" seconds
    (replace_first "mm" minutes
       (replace_first "HH" hours
          (replace_first "DD" day
             (replace_first "MM" month
                (replace_first "YYYY" year format))))).

(** A format seen as pieces: literal text and the six patterns. *)
Inductive Pattern : Type := P_YYYY | P_MM | P_DD | P_HH | P_mm | P_ss.

Inductive Piece : Type :=
| Lit (s : string)
| Hole (p : Pattern).

Definition pattern_text (p : Pattern) : string :=
  match p with
  | P_YYYY => "YYYY" | P_MM => "MM" | P_DD => "DD"
  | P_HH => "HH" | P_mm => "mm" | P_ss => "ss"
  end.

Definition pattern_letter (p : Pattern) : ascii :=
  match p with
  | P_YYYY => "Y" | P_MM => "M" | P_DD => "D"
  | P_HH => "H" | P_mm => "m" | P_ss => "s"
  end%char.

Definition Pattern_eqb (p q : Pattern) : bool :=
  Ascii.eqb (pattern_letter p) (pattern_letter q).

(** The text a pattern stands for. *)
Definition pattern_value (d : option DateFields) (p : Pattern) : string :=
  match p with
  | P_YYYY => getter_text d getFullYear
  | P_MM => padStart2 (getter_text d (fun fields => getMonth fields + 1))
  | P_DD => padStart2 (getter_text d getDate)
  | P_HH => padStart2 (getter_text d getHours)
  | P_mm => padStart2 (getter_text d getMinutes)
  | P_ss => padStart2 (getter_text d getSeconds)
  end.

Fixpoint render (l : list Piece) : string :=
  match l with
  | [] => EmptyString
  | Lit s :: r => s ++ render r
  | Hole p :: r => pattern_text p ++ render r
  end.

(** The pieces with the first hole for [p] filled by [v]. *)
Fixpoint fill (p : Pattern) (v : string) (l : list Piece) : list Piece :=
  match l with
  | [] => []
  | Hole q :: r => if Pattern_eqb p q then Lit v :: r else Hole q :: fill p v r
  | Lit s :: r => Lit s :: fill p v r
  end.

Definition fill_first_holes (d : option DateFields) (l : list Piece) : list Piece :=
  fold_left (fun pieces p => fill p (pattern_value d p) pieces)
            [P_YYYY; P_MM; P_DD; P_HH; P_mm; P_ss] l.

(** The pieces with every hole filled. *)
Definition fill_every_hole (d : option DateFields) (l : list Piece) : list Piece :=
  map (fun piece => match piece with
                    | Lit s => Lit s
                    | Hole p => Lit (pattern_value d p)
                    end) l.

Definition holes (l : list Piece) : list Pattern :=
  flat_map (fun piece => match piece with Lit _ => [] | Hole p => [p] end) l.

(** Every character of [s] passes [ok]. *)
Fixpoint all_chars (ok : ascii -> bool) (s : string) : bool :=
  match s with
  | EmptyString => true
  | String c r => ok c && all_chars ok r
  end.

(** The characters of a printed number: digits, the sign, and the letters
    of [NaN]. *)
Definition number_char (c : ascii) : bool :=
  let n := nat_of_ascii c in
  ((48 <=? n) && (n <=? 57))%nat || Ascii.eqb c "-" || Ascii.eqb c "N"
  || Ascii.eqb c "a".

(** The piece a hole becomes when [p] is filled by [v]. *)
Definition fill_piece (p : Pattern) (v : string) (piece : Piece) : Piece :=
  match piece with
  | Lit s => Lit s
  | Hole q => if Pattern_eqb p q then Lit v else Hole q
  end.

(** A text without any of the letters the patterns are made of. *)
Definition pattern_free (s : string) : bool :=
  forallb (fun p => negb (occurs (pattern_letter p) s))
          [P_YYYY; P_MM; P_DD; P_HH; P_mm; P_ss].

Definition literals_pattern_free (l : list Piece) : Prop :=
  Forall (fun piece => match piece with
                       | Lit s => pattern_free s = true
                       | Hole _ => True
                       end) l.

(** [DATE_FORMATS.DISPLAY_DATETIME] *)
Definition DISPLAY_DATETIME : list Piece :=
  [Hole P_YYYY; Lit "年"; Hole P_MM; Lit "月"; Hole P_DD; Lit "日 ";
   Hole P_HH; Lit ":"; Hole P_mm; Lit ":"; Hole P_ss].

(** 5 March 2024, 09:07:00. *)
Definition a_morning : DateFields :=
  {| getFullYear := 2024; getMonth := 2; getDate := 5; getHours := 9;
     getMinutes := 7; getSeconds := 0 |}.

(** ** A transport call that does not answer in time *)

(** The [DOMException] a [fetch] is rejected with when the signal of
    [AbortSignal.timeout] fires: its name is [TimeoutError], its legacy
    code 23; the wording of the message is the engine's. *)
Definition TimeoutError : value :=
  VObj [("name", VStr "TimeoutError"); ("message", VStr "signal timed out");
        ("code", VNum 23)].

(** A platform on which no response arrives before the signal fires. *)
Definition timing_out : Platform := platform_of (Throw TimeoutError) true.

(** A listing of users with the timeout override 0, and one that may take
    3 seconds. *)
Definition instant : RequestConfig :=
  {| url := "/users"; method := Some GET; params := None; data := VUndefined;
     headers := None; timeout := Some 0 |}.

Definition brisk : RequestConfig :=
  {| url := "/users"; method := Some GET; params := None; data := VUndefined;
     headers := None; timeout := Some 3000 |}.

(** * Properties *)

(** ** The query string *)

Lemma hex_value_hex_digit (n : nat) :
  (n < 16)%nat -> hex_value (hex_digit n) = Some n.
Proof.
  intros H. do 16 (destruct n as [|n]; [reflexivity|]). lia.
Qed.

Lemma hex_digit_plain (n : nat) (x : ascii) :
  (n < 16)%nat -> is_alnum x = false -> Ascii.eqb (hex_digit n) x = false.
Proof.
  intros H Hx. apply Ascii.eqb_neq. intros <-.
  revert Hx. do 16 (destruct n as [|n]; [discriminate|]). lia.
Qed.

Lemma safe_plain (c x : ascii) :
  urlencoded_safe c = true -> urlencoded_safe x = false -> Ascii.eqb c x = false.
Proof.
  intros Hc Hx. apply Ascii.eqb_neq. intros ->. congruence.
Qed.

Lemma percent_decode_plain (c : ascii) (s : string) :
  Ascii.eqb c "%" = false ->
  percent_decode (String c s) = String c (percent_decode s).
Proof.
  intros H. destruct s as [|h [|l r]]; simpl; rewrite ?H; reflexivity.
Qed.

Lemma byte_of_nibbles (c : ascii) :
  ascii_of_nat (16 * (nat_of_ascii c / 16) + nat_of_ascii c mod 16) = c.
Proof.
  rewrite <- Nat.div_mod_eq. apply ascii_nat_embedding.
Qed.

Lemma urldecode_urlencode (s : string) : urldecode (urlencode s) = s.
Proof.
  unfold urldecode. induction s as [|c r IH]; [reflexivity|].
  cbn [urlencode].
  destruct (urlencoded_safe c) eqn:Hsafe.
  - cbn [plus_to_space].
    rewrite (safe_plain c "+" Hsafe eq_refl).
    rewrite percent_decode_plain by exact (safe_plain c "%" Hsafe eq_refl).
    now rewrite IH.
  - destruct (Ascii.eqb c " ") eqn:Hsp.
    + apply Ascii.eqb_eq in Hsp as ->. cbn [plus_to_space].
      change (Ascii.eqb "+" "+") with true. cbn iota.
      rewrite percent_decode_plain by reflexivity. now rewrite IH.
    + assert (Hhi : (nat_of_ascii c / 16 < 16)%nat).
      { apply Nat.Div0.div_lt_upper_bound. pose proof (nat_ascii_bounded c). lia. }
      assert (Hlo : (nat_of_ascii c mod 16 < 16)%nat)
        by (apply Nat.mod_upper_bound; lia).
      cbn [plus_to_space]. change (Ascii.eqb "%" "+") with false. cbn iota.
      rewrite !hex_digit_plain by (assumption || reflexivity).
      cbn [percent_decode]. change (Ascii.eqb "%" "%") with true.
      rewrite !hex_value_hex_digit by assumption.
      rewrite IH. f_equal. apply byte_of_nibbles.
Qed.

Lemma urlencode_plain (x : ascii) (s : string) :
  urlencoded_safe x = false -> Ascii.eqb "+" x = false ->
  Ascii.eqb "%" x = false -> occurs x (urlencode s) = false.
Proof.
  intros Hx Hplus Hpct. induction s as [|c r IH]; [reflexivity|].
  assert (Hal : is_alnum x = false).
  { unfold urlencoded_safe in Hx. destruct (is_alnum x); [discriminate|reflexivity]. }
  cbn [urlencode].
  destruct (urlencoded_safe c) eqn:Hsafe; [|destruct (Ascii.eqb c " ")];
    cbn [occurs]; rewrite IH.
  - now rewrite (safe_plain c x Hsafe Hx).
  - now rewrite Hplus.
  - rewrite Hpct, !hex_digit_plain; try assumption; try reflexivity.
    + apply Nat.mod_upper_bound; lia.
    + apply Nat.Div0.div_lt_upper_bound. pose proof (nat_ascii_bounded c). lia.
Qed.

Lemma append_String (c : ascii) (a b : string) :
  String c a ++ b = String c (a ++ b).
Proof. reflexivity. Qed.

Lemma append_empty_l (b : string) : "" ++ b = b.
Proof. reflexivity. Qed.

Lemma append_empty_r (a : string) : a ++ "" = a.
Proof.
  induction a as [|c a IH]; [reflexivity|].
  now rewrite append_String, IH.
Qed.

Lemma append_assoc (a b c : string) : (a ++ b) ++ c = a ++ (b ++ c).
Proof.
  induction a as [|x a IH]; [reflexivity|].
  now rewrite !append_String, IH.
Qed.

Lemma occurs_app (x : ascii) (a b : string) :
  occurs x (a ++ b) = occurs x a || occurs x b.
Proof.
  induction a as [|c a IH]; [reflexivity|].
  rewrite append_String. cbn [occurs]. rewrite IH. now rewrite orb_assoc.
Qed.

Lemma split_first_app (sep : ascii) (a b : string) :
  occurs sep a = false -> split_first sep (a ++ String sep b) = (a, b).
Proof.
  induction a as [|c a IH];
    rewrite ?append_String, ?append_empty_l; cbn [occurs split_first];
    intros H.
  - now rewrite Ascii.eqb_refl.
  - apply orb_false_iff in H as [Hc Ha]. rewrite Hc, (IH Ha). reflexivity.
Qed.

Lemma split_on_whole (sep : ascii) (a : string) :
  occurs sep a = false -> split_on sep a = [a].
Proof.
  induction a as [|c a IH]; cbn [occurs split_on]; intros H; [reflexivity|].
  apply orb_false_iff in H as [Hc Ha]. now rewrite Hc, (IH Ha).
Qed.

Lemma split_on_app (sep : ascii) (a b : string) :
  occurs sep a = false ->
  split_on sep (a ++ String sep b) = a :: split_on sep b.
Proof.
  induction a as [|c a IH];
    rewrite ?append_String, ?append_empty_l; cbn [occurs split_on]; intros H.
  - now rewrite Ascii.eqb_refl.
  - apply orb_false_iff in H as [Hc Ha]. now rewrite Hc, (IH Ha).
Qed.

Lemma piece_of_no_amp (kv : string * string) : occurs "&" (piece_of kv) = false.
Proof.
  unfold piece_of. rewrite occurs_app, append_String, append_empty_l.
  cbn [occurs]. now rewrite !urlencode_plain.
Qed.

Lemma piece_of_nonempty (kv : string * string) :
  String.eqb (piece_of kv) "" = false.
Proof.
  unfold piece_of. destruct (urlencode kv.1); reflexivity.
Qed.

Lemma piece_of_decodes (kv : string * string) :
  (let '(k, v) := split_first "=" (piece_of kv) in (urldecode k, urldecode v))
  = kv.
Proof.
  unfold piece_of. rewrite append_String, append_empty_l.
  rewrite split_first_app by now apply urlencode_plain.
  rewrite !urldecode_urlencode. now destruct kv.
Qed.

Lemma usp_toString_cons (kv : string * string) (l : list (string * string)) :
  usp_toString (kv :: l) =
  match l with
  | [] => piece_of kv
  | _ => piece_of kv ++ String "&" (usp_toString l)
  end.
Proof.
  destruct kv as [k v]. unfold piece_of. cbn [usp_toString fst snd].
  destruct l.
  - now rewrite append_empty_r.
  - now rewrite !append_assoc, !append_String, !append_empty_l.
Qed.

(** Parsing a serialized list of pairs gives the list back. *)
Lemma usp_parse_toString (l : list (string * string)) :
  usp_parse (usp_toString l) = l.
Proof.
  induction l as [|kv l IH]; [reflexivity|].
  rewrite usp_toString_cons. destruct l as [|kv' l'].
  - unfold usp_parse. rewrite split_on_whole by apply piece_of_no_amp.
    cbn [List.filter]. rewrite piece_of_nonempty. cbn [negb map].
    now rewrite piece_of_decodes.
  - unfold usp_parse in *. rewrite split_on_app by apply piece_of_no_amp.
    cbn [List.filter]. rewrite piece_of_nonempty. cbn [negb map].
    now rewrite piece_of_decodes, IH.
Qed.

Lemma usp_toString_empty (l : list (string * string)) :
  String.eqb (usp_toString l) "" = true <-> l = [].
Proof.
  split; [|intros ->; reflexivity].
  destruct l as [|kv l]; [reflexivity|].
  rewrite usp_toString_cons.
  pose proof (piece_of_nonempty kv) as H.
  destruct l; [congruence|].
  destruct (piece_of kv); [discriminate H|discriminate].
Qed.

Lemma searchParams_of_from (ps : list (string * value))
      (acc : list (string * string)) :
  fold_left (fun sp kv => if keeps_param kv
                          then usp_append sp kv.1 (to_js_string kv.2) else sp)
            ps acc = (acc ++ kept_params ps)%list.
Proof.
  revert acc. induction ps as [|kv ps IH]; intros acc; cbn [fold_left].
  - unfold kept_params. cbn. now rewrite app_nil_r.
  - rewrite IH. unfold kept_params, usp_append. cbn [List.filter].
    destruct (keeps_param kv); cbn [map]; [|reflexivity].
    now rewrite <- app_assoc.
Qed.

Lemma searchParams_of_kept (ps : list (string * value)) :
  searchParams_of ps = kept_params ps.
Proof. unfold searchParams_of. now rewrite searchParams_of_from. Qed.

Lemma keeps_param_spec (kv : string * value) :
  keeps_param kv = true <->
  kv.2 <> VNull /\ kv.2 <> VUndefined /\ kv.2 <> VStr "".
Proof.
  destruct kv as [k v]. unfold keeps_param. cbn [snd].
  destruct v; try (split; [intros _; repeat split; discriminate | reflexivity]);
    try (split; [discriminate | intros (H1 & H2 & H3); congruence]).
  split.
  - intros H. repeat split; try discriminate. intros [= ->]. discriminate H.
  - intros (_ & _ & H). destruct (String.eqb s "") eqn:E; [|reflexivity].
    apply String.eqb_eq in E. congruence.
Qed.

Lemma buildURL_kept (c : HttpClient) (u : string) (ps : list (string * value)) :
  buildURL c u (Some ps) =
  fullURL c u ++ match kept_params ps with
                 | [] => ""
                 | q => "?" ++ usp_toString q
                 end.
Proof.
  unfold buildURL. rewrite searchParams_of_kept.
  destruct (String.eqb (usp_toString (kept_params ps)) "") eqn:E; cbn [negb].
  - apply usp_toString_empty in E. rewrite E. now rewrite append_empty_r.
  - destruct (kept_params ps); [discriminate E|reflexivity].
Qed.

Lemma kept_params_In (ps : list (string * value)) (k s : string) :
  In (k, s) (kept_params ps) <->
  exists v, In (k, v) ps /\ v <> VNull /\ v <> VUndefined /\ v <> VStr "" /\
            s = to_js_string v.
Proof.
  unfold kept_params. rewrite in_map_iff. split.
  - intros ([k' v] & [= <- <-] & Hin). apply filter_In in Hin as [Hin Hk].
    apply keeps_param_spec in Hk. cbn [snd] in Hk. exists v. tauto.
  - intros (v & Hin & H1 & H2 & H3 & ->). exists (k, v). split; [reflexivity|].
    apply filter_In. split; [assumption|]. apply keeps_param_spec. cbn. tauto.
Qed.

(** C4.  The URL [buildURL] makes for a descriptor without parameters is
    the full URL; for one with parameters it is the full URL followed, when
    some parameter is kept, by [?] and the serialized kept parameters.  A
    parameter is kept exactly when its value is not [null], [undefined] or
    the empty string; the kept ones appear in order with value
    [String(value)], and parsing the serialized query gives exactly these
    names and values back, byte for byte.
    [getUsers({ current: 2, pageSize: 20 })], with [search] absent or empty,
    builds [/users?current=2&pageSize=20] and passes it to [get] without
    parameters, so the client puts its base URL in front and adds nothing. *)
Theorem C4_query_string_round_trip :
  (forall (c : HttpClient) (u : string), buildURL c u None = fullURL c u)
  /\ (forall (c : HttpClient) (u : string) (ps : list (string * value)),
      buildURL c u (Some ps) =
      fullURL c u ++ match kept_params ps with
                     | [] => ""
                     | q => "?" ++ usp_toString q
                     end
      /\ (forall k s,
             In (k, s) (kept_params ps) <->
             exists v, In (k, v) ps /\ v <> VNull /\ v <> VUndefined /\
                       v <> VStr "" /\ s = to_js_string v)
      /\ usp_parse (usp_toString (kept_params ps)) = kept_params ps)
  /\ (forall s : string, urldecode (urlencode s) = s)
  /\ getUsers_url (Some {| current := 2; pageSize := 20; search := None |})
     = "/users?current=2&pageSize=20"
  /\ getUsers_url (Some {| current := 2; pageSize := 20; search := Some "" |})
     = "/users?current=2&pageSize=20"
  /\ (forall P env,
         getUsers P env (Some {| current := 2; pageSize := 20; search := Some "" |})
         = request P (http env)
                   (descriptor "/users?current=2&pageSize=20" GET None VUndefined))
  /\ (forall env,
         buildURL (http env) "/users?current=2&pageSize=20" None
         = API_BASE_URL env ++ "/users?current=2&pageSize=20").
Proof.
  repeat split.
  - apply buildURL_kept.
  - apply kept_params_In.
  - apply kept_params_In.
  - apply usp_parse_toString.
  - apply urldecode_urlencode.
Qed.

(** ** Traces *)

Lemma request_calls_app (a b : list Event) :
  request_calls (a ++ b) = (request_calls a ++ request_calls b)%list.
Proof.
  induction a as [|ev a IH]; [reflexivity|].
  destruct ev; cbn; rewrite ?IH; reflexivity.
Qed.

Lemma error_calls_app (a b : list Event) :
  error_calls (a ++ b) = (error_calls a ++ error_calls b)%list.
Proof.
  induction a as [|ev a IH]; [reflexivity|].
  destruct ev; cbn; rewrite ?IH; reflexivity.
Qed.

Lemma fetch_calls_app (a b : list Event) :
  fetch_calls (a ++ b) = (fetch_calls a ++ fetch_calls b)%list.
Proof.
  induction a as [|ev a IH]; [reflexivity|].
  destruct ev; cbn; rewrite ?IH; reflexivity.
Qed.

Lemma request_calls_of_calls (calls : list RequestCall) :
  request_calls (map ev_of_call calls) = calls.
Proof.
  induction calls as [|[i c r] calls IH]; [reflexivity|].
  cbn. now rewrite IH.
Qed.

Lemma error_calls_of_ecalls (calls : list ErrorCall) :
  error_calls (map ev_of_ecall calls) = calls.
Proof.
  induction calls as [|[i c r] calls IH]; [reflexivity|].
  cbn. now rewrite IH.
Qed.

Lemma events_since_app (s s' : Sys) (evs : list Event) :
  trace s' = (trace s ++ evs)%list -> events_since s s' = evs.
Proof.
  intros H. unfold events_since. rewrite H. apply drop_app_length.
Qed.

(** ** The request interceptors *)

Lemma applyRequestInterceptors_from_run (l : list RequestInterceptor) :
  forall (i : nat) (config : RequestConfig) (s : Sys),
  exists calls,
    trace (applyRequestInterceptors_from i l config s).2
    = (trace s ++ map ev_of_call calls)%list
    /\ chain_run i l config (applyRequestInterceptors_from i l config s).1 calls.
Proof.
  induction l as [|f l IH]; intros i config s.
  - exists []. split; [cbn; now rewrite app_nil_r|].
    constructor; cbn; done.
  - cbn [applyRequestInterceptors_from]. unfold bind, observed.
    destruct (f config (world s)) as [[c'|e] w'] eqn:Hf.
    + match goal with
      | |- context [applyRequestInterceptors_from (S i) l c' ?s1] =>
          destruct (IH (S i) c' s1) as (calls & Htr & Hrun)
      end.
      exists ({| call_idx := i; call_input := config; call_result := Ok c' |}
                :: calls).
      split.
      { rewrite Htr. cbn [trace map]. now rewrite <- app_assoc. }
      destruct Hrun as [Hidx Hb Hfirst Hlink Hreal Hres Hall Hstop].
      constructor.
      * cbn. now rewrite Hidx.
      * cbn. lia.
      * intros x [= <-]. reflexivity.
      * intros [|k] x y; cbn.
        -- intros [= <-] Hy. cbn. now rewrite (Hfirst y Hy).
        -- apply Hlink.
      * intros [|k] x; cbn.
        -- intros [= <-]. exists f, (world s). cbn. now rewrite Hf.
        -- apply Hreal.
      * rewrite Hres. destruct calls as [|y calls]; [reflexivity|].
        rewrite last_cons_cons.
        destruct (last (y :: calls)) eqn:E; [reflexivity|].
        now apply last_None in E.
      * intros c'' Hc. cbn. now rewrite (Hall c'' Hc).
      * intros e _. cbn. lia.
    + exists [{| call_idx := i; call_input := config; call_result := Throw e |}].
      split; [reflexivity|].
      constructor; cbn; try done.
      * lia.
      * intros x [= <-]. reflexivity.
      * intros [|k] x; cbn; [|intros [=]].
        intros [= <-]. exists f, (world s). cbn. now rewrite Hf.
      * intros _ _. lia.
Qed.

(** ** The response and error interceptors *)

Lemma applyResponseInterceptors_from_trace (l : list ResponseInterceptor) :
  forall (i : nat) (a : Any) (s : Sys),
  exists evs,
    trace (applyResponseInterceptors_from i l a s).2 = (trace s ++ evs)%list
    /\ forallb is_response_event evs = true.
Proof.
  induction l as [|f l IH]; intros i a s.
  - exists []. cbn. now rewrite app_nil_r.
  - cbn [applyResponseInterceptors_from]. unfold bind, observed.
    destruct (f a (world s)) as [[a'|e] w'].
    + match goal with
      | |- context [applyResponseInterceptors_from (S i) l a' ?s1] =>
          destruct (IH (S i) a' s1) as (evs & Htr & Hall)
      end.
      exists (EvResponseInterceptor i a (Ok a') :: evs). split.
      * rewrite Htr. cbn [trace]. now rewrite <- app_assoc.
      * cbn. exact Hall.
    + exists [EvResponseInterceptor i a (Throw e)]. now split.
Qed.

Lemma response_events_silent (evs : list Event) :
  forallb is_response_event evs = true ->
  request_calls evs = [] /\ error_calls evs = [] /\ fetch_calls evs = [].
Proof.
  induction evs as [|ev evs IH]; [done|].
  cbn [forallb]. intros [Hev Hall]%andb_true_iff.
  destruct ev; try discriminate Hev. cbn. now apply IH.
Qed.

(** Every error interceptor is called, with the same error, whatever the
    earlier ones did; the loop itself never throws. *)
Lemma applyErrorInterceptors_from_run (l : list ErrorInterceptor) :
  forall (i : nat) (error : value) (s : Sys),
  exists calls s',
    applyErrorInterceptors_from i l error s = (Ok tt, s')
    /\ trace s' = (trace s ++ map ev_of_ecall calls)%list
    /\ error_run i l error calls.
Proof.
  induction l as [|f l IH]; intros i error s.
  - exists [], s. split; [reflexivity|]. split; [cbn; now rewrite app_nil_r|].
    constructor; cbn; done.
  - cbn [applyErrorInterceptors_from]. unfold bind, try_catch, observed, ret.
    destruct (f error (world s)) as [r w'] eqn:Hf.
    set (s1 := {| world := w';
                  trace := (trace s ++ [EvErrorInterceptor i error r])%list |}).
    destruct (IH (S i) error s1) as (calls & s' & Hrun & Htr & [Hidx Herr Hreal]).
    exists ({| ecall_idx := i; ecall_error := error; ecall_result := r |}
              :: calls), s'.
    split; [destruct r; exact Hrun|].
    split; [rewrite Htr; cbn [trace map s1]; now rewrite <- app_assoc|].
    constructor.
    + cbn. now rewrite Hidx.
    + constructor; [reflexivity|assumption].
    + intros [|k] x; cbn.
      * intros [= <-]. exists f, (world s). cbn. now rewrite Hf.
      * apply Hreal.
Qed.

Lemma error_run_length i l error calls :
  error_run i l error calls -> length calls = length l.
Proof.
  intros [Hidx _ _]. apply (f_equal length) in Hidx.
  now rewrite length_map, length_seq in Hidx.
Qed.

(** ** The [request] pipeline *)

Section Pipeline.

Context (P : Platform) (c : HttpClient).

Lemma request_try_run (config : RequestConfig) (s : Sys) :
  exists calls rest,
    trace (request_try P c config s).2
    = (trace s ++ map ev_of_call calls ++ rest)%list
    /\ chain_run 0 (requestInterceptors c) config
                 (applyRequestInterceptors c config s).1 calls
    /\ error_calls rest = []
    /\ match (applyRequestInterceptors c config s).1 with
       | Throw e => rest = [] /\ (request_try P c config s).1 = Throw e
       | Ok fc =>
           match AbortSignal_timeout (timeout_of c fc) with
           | Throw e => rest = [] /\ (request_try P c config s).1 = Throw e
           | Ok signal =>
               exists evs,
                 rest = EvFetch (buildURL c (url fc) (params fc))
                                (fetchOptions_of fc signal) :: evs
                 /\ forallb is_response_event evs = true
           end
       end.
Proof.
  unfold request_try, applyRequestInterceptors.
  destruct (applyRequestInterceptors_from_run (requestInterceptors c) 0 config s)
    as (calls & Htr & Hrun).
  exists calls. unfold bind at 1.
  destruct (applyRequestInterceptors_from 0 (requestInterceptors c) config s)
    as [[fc|e] s1] eqn:Hreq; cbn [fst snd] in *.
  - unfold bind at 1.
    destruct (AbortSignal_timeout (timeout_of c fc)) as [signal|e] eqn:Hsig;
      cbn [of_outcome]; unfold ret, throw.
    + unfold bind, emit, lift. cbn [world trace].
      destruct (fetch P _ _ (world s1)) as [[resp|e] w'].
      * match goal with
        | |- context [applyResponseInterceptors ?c ?a ?s2] =>
            destruct (applyResponseInterceptors_from_trace
                        (responseInterceptors c) 0 a s2) as (evs & Hevs & Hall)
        end.
        eexists. split; [|split; [exact Hrun|]].
        -- unfold applyResponseInterceptors. rewrite Hevs. cbn [trace].
           rewrite Htr, <- !app_assoc. reflexivity.
        -- split; [|eauto]. cbn. now apply response_events_silent.
      * eexists. split; [|split; [exact Hrun|]].
        -- cbn [snd trace]. rewrite Htr, <- !app_assoc. reflexivity.
        -- split; [reflexivity|]. exists []. now split.
    + exists []. split; [cbn [snd]; now rewrite app_nil_r|].
      split; [exact Hrun|]. do 2 (split; [reflexivity|]).
      unfold bind. cbv beta. rewrite Hreq, Hsig. reflexivity.
  - exists []. split; [now rewrite app_nil_r|].
    split; [exact Hrun|]. do 2 (split; [reflexivity|]).
    unfold bind. cbv beta. now rewrite Hreq.
Qed.

(** The [catch] block: a failure that is [undefined] or [null] makes the
    block itself throw; any other one is normalized, shown to every error
    interceptor and thrown. *)
Lemma request_catch_run (error : value) (s : Sys) :
  match apiError_of error with
  | Throw t => request_catch c error s = (Throw t, s)
  | Ok apiError =>
      exists calls s',
        request_catch c error s = (Throw apiError, s')
        /\ trace s' = (trace s ++ map ev_of_ecall calls)%list
        /\ error_run 0 (errorInterceptors c) apiError calls
  end.
Proof.
  unfold request_catch. destruct (apiError_of error) as [a|t]; [|reflexivity].
  destruct (applyErrorInterceptors_from_run (errorInterceptors c) 0 a s)
    as (calls & s' & Hrun & Htr & Herr).
  exists calls, s'. split; [|now split].
  unfold bind, of_outcome, ret, applyErrorInterceptors. now rewrite Hrun.
Qed.

Lemma apiError_of_defined (error : value) :
  is_nullish error = false ->
  exists code msg,
    get_prop error "code" = Some code /\ get_prop error "message" = Some msg
    /\ apiError_of error
       = Ok (VObj [("code", js_or code (VStr "UNKNOWN_ERROR"));
                   ("message", js_or msg (VStr ERROR_MESSAGES.UNKNOWN_ERROR));
                   ("details", error)]).
Proof.
  intros H. unfold apiError_of.
  destruct error; try discriminate H; cbn; eauto.
Qed.

(** Whenever the [try] body of [request] fails with a value other than
    [undefined] and [null], the call rejects with the normalized error, after
    every error interceptor has been called once with it, in registration
    order; what the interceptors throw is dropped. *)
Lemma request_failure_normalized (config : RequestConfig) (s s1 : Sys)
      (error : value) :
  request_try P c config s = (Throw error, s1) ->
  is_nullish error = false ->
  exists code msg calls s',
    get_prop error "code" = Some code
    /\ get_prop error "message" = Some msg
    /\ let apiError :=
         VObj [("code", js_or code (VStr "UNKNOWN_ERROR"));
               ("message", js_or msg (VStr ERROR_MESSAGES.UNKNOWN_ERROR));
               ("details", error)] in
       request P c config s = (Throw apiError, s')
       /\ trace s' = (trace s1 ++ map ev_of_ecall calls)%list
       /\ error_calls (events_since s s') = calls
       /\ error_run 0 (errorInterceptors c) apiError calls.
Proof.
  intros Htry Hnn.
  destruct (apiError_of_defined error Hnn) as (code & msg & Hc & Hm & Hapi).
  pose proof (request_catch_run error s1) as Hcatch. rewrite Hapi in Hcatch.
  destruct Hcatch as (calls & s' & Hrun & Htr & Herr).
  exists code, msg, calls, s'. do 2 (split; [assumption|]). cbv zeta.
  split; [|split; [exact Htr|split; [|exact Herr]]].
  - unfold request, try_catch. now rewrite Htry.
  - destruct (request_try_run config s) as (rcalls & rest & Htr1 & _ & Hsil & _).
    rewrite Htry in Htr1. cbn [snd] in Htr1.
    rewrite (events_since_app s s' (map ev_of_call rcalls ++ rest
                                    ++ map ev_of_ecall calls)).
    + rewrite !error_calls_app, Hsil, error_calls_of_ecalls.
      clear. induction rcalls as [|x r IH]; [reflexivity|exact IH].
    + rewrite Htr, Htr1, <- !app_assoc. reflexivity.
Qed.

(** Whenever the [try] body fails with [undefined] or [null], the [catch]
    block throws while it reads [error.code]: the caller receives that
    [TypeError], and no error interceptor is called. *)
Lemma request_failure_nullish (config : RequestConfig) (s s1 : Sys)
      (error : value) :
  request_try P c config s = (Throw error, s1) ->
  is_nullish error = true ->
  request P c config s = (Throw (mkTypeError error "code"), s1)
  /\ error_calls (events_since s s1) = [].
Proof.
  intros Htry Hn. split.
  - unfold request, try_catch. rewrite Htry.
    destruct error; try discriminate Hn; reflexivity.
  - destruct (request_try_run config s) as (rcalls & rest & Htr & _ & Hsil & _).
    rewrite Htry in Htr. cbn [snd] in Htr.
    rewrite (events_since_app s s1 _ Htr), error_calls_app, Hsil, app_nil_r.
    clear. induction rcalls as [|x r IH]; [reflexivity|exact IH].
Qed.

Lemma request_calls_of_ecalls (calls : list ErrorCall) :
  request_calls (map ev_of_ecall calls) = [].
Proof. induction calls as [|x calls IH]; [reflexivity|exact IH]. Qed.

Lemma fetch_calls_of_ecalls (calls : list ErrorCall) :
  fetch_calls (map ev_of_ecall calls) = [].
Proof. induction calls as [|x calls IH]; [reflexivity|exact IH]. Qed.

Lemma fetch_calls_of_calls (calls : list RequestCall) :
  fetch_calls (map ev_of_call calls) = [].
Proof. induction calls as [|x calls IH]; [reflexivity|exact IH]. Qed.

(** The whole of [request]: the request interceptors run first, then
    [fetch] is called at most once; the response and error interceptors add
    no call of either kind. *)
Lemma request_run (config : RequestConfig) (s : Sys) :
  exists calls rest,
    events_since s (request P c config s).2
    = (map ev_of_call calls ++ rest)%list
    /\ chain_run 0 (requestInterceptors c) config
                 (applyRequestInterceptors c config s).1 calls
    /\ request_calls rest = []
    /\ fetch_calls rest
       = fetches_of c (applyRequestInterceptors c config s).1.
Proof.
  destruct (request_try_run config s) as (calls & rest & Htr & Hrun & _ & Hrest).
  assert (Hsil : request_calls rest = [] /\
                 fetch_calls rest
                 = fetches_of c (applyRequestInterceptors c config s).1).
  { unfold fetches_of.
    destruct (applyRequestInterceptors c config s).1 as [fc|e].
    - destruct (AbortSignal_timeout (timeout_of c fc)).
      + destruct Hrest as (evs & -> & Hall).
        apply response_events_silent in Hall as (H1 & _ & H3).
        cbn. now rewrite H1, H3.
      + now destruct Hrest as [-> _].
    - now destruct Hrest as [-> _]. }
  destruct Hsil as [Hreq Hfetch].
  unfold request, try_catch.
  destruct (request_try P c config s) as [[a|e] s1]; cbn [snd] in *.
  - exists calls, rest. split; [now apply events_since_app|]. now split.
  - pose proof (request_catch_run e s1) as Hcatch.
    destruct (apiError_of e) as [apiError|t].
    + destruct Hcatch as (ecalls & s' & -> & Htr' & _). cbn [snd].
      exists calls, (rest ++ map ev_of_ecall ecalls)%list.
      split; [|split; [exact Hrun|]].
      * apply events_since_app. rewrite Htr', Htr, <- !app_assoc. reflexivity.
      * rewrite request_calls_app, fetch_calls_app, request_calls_of_ecalls,
          fetch_calls_of_ecalls, !app_nil_r. now split.
    + rewrite Hcatch. cbn [snd].
      exists calls, rest. split; [now apply events_since_app|]. now split.
Qed.

Lemma request_fetch_calls (config : RequestConfig) (s : Sys) :
  fetch_calls (events_since s (request P c config s).2)
  = fetches_of c (applyRequestInterceptors c config s).1.
Proof.
  destruct (request_run config s) as (calls & rest & Hev & _ & _ & Hfetch).
  now rewrite Hev, fetch_calls_app, fetch_calls_of_calls, Hfetch.
Qed.

End Pipeline.

Lemma invocations_of_run (calls : list RequestCall) (i k : nat) :
  map call_idx calls = seq i (length calls) ->
  length (List.filter (fun x => Nat.eqb (call_idx x) k) calls)
  = if ((i <=? k) && (k <? i + length calls))%nat then 1%nat else 0%nat.
Proof.
  revert i. induction calls as [|x calls IH]; intros i Hidx.
  - cbn [length List.filter].
    destruct (Nat.leb_spec i k), (Nat.ltb_spec k (i + 0)); cbn [andb];
      try reflexivity; lia.
  - cbn [map length seq] in Hidx. injection Hidx as Hx Hrest.
    cbn [List.filter]. specialize (IH (S i) Hrest).
    destruct (Nat.eqb (call_idx x) k) eqn:E;
      [apply Nat.eqb_eq in E|apply Nat.eqb_neq in E];
      cbn [length]; rewrite IH;
      destruct (Nat.leb_spec (S i) k), (Nat.ltb_spec k (S i + length calls)),
               (Nat.leb_spec i k), (Nat.ltb_spec k (i + S (length calls)));
      cbn [andb]; try reflexivity; lia.
Qed.

Lemma default_interceptor_first (base : string) (t : Z)
      (extra : list RequestInterceptor) :
  requestInterceptors
    (fold_left (fun c i => addRequestInterceptor i c) extra
               (new_HttpClient base t))
  = defaultRequestInterceptor :: extra.
Proof.
  assert (H : forall c, requestInterceptors
                          (fold_left (fun c i => addRequestInterceptor i c) extra c)
                        = (requestInterceptors c ++ extra)%list).
  { induction extra as [|i extra IH]; intros c; cbn [fold_left].
    - now rewrite app_nil_r.
    - rewrite IH. cbn. now rewrite <- app_assoc. }
  now rewrite H.
Qed.

(** C3, as stated, fails: with the default interceptor, [refusing] and
    [marking] registered in this order, a call invokes the first two and
    never the third. *)
Lemma C3_later_interceptor_skipped :
  let tr := events_since (start signed_out)
              (request healthy guarded_client list_users (start signed_out)).2 in
  length (requestInterceptors guarded_client) = 3%nat
  /\ invocations 0 tr = 1%nat /\ invocations 1 tr = 1%nat
  /\ invocations 2 tr = 0%nat.
Proof. vm_compute. repeat split. Qed.

(** C3, amended.  In every call of [request] the request interceptors are
    invoked in registration order, starting with the first, none twice and
    none skipped before a later one; the first receives the caller's
    descriptor and each next one exactly the descriptor the previous one
    returned; every observed result is what the registered interceptor gave.
    The loop stops early only at an interceptor that threw, so when none
    throws each of the N interceptors is invoked exactly once, and those
    registered after a throwing one are not invoked.  The default
    interceptor is the first of every client. *)
Theorem C3_request_interceptors_in_order :
  (forall (P : Platform) (c : HttpClient) (config : RequestConfig) (s : Sys),
      let tr := events_since s (request P c config s).2 in
      let calls := request_calls tr in
      let l := requestInterceptors c in
      map call_idx calls = seq 0 (length calls)
      /\ (length calls <= length l)%nat
      /\ (forall x, calls !! 0%nat = Some x -> call_input x = config)
      /\ (forall k x y, calls !! k = Some x -> calls !! S k = Some y ->
                        call_result x = Ok (call_input y))
      /\ (forall k x, calls !! k = Some x ->
                      exists f w, l !! k = Some f
                                  /\ (f (call_input x) w).1 = call_result x)
      /\ ((forall x, In x calls -> exists c', call_result x = Ok c') ->
          length calls = length l)
      /\ ((length calls < length l)%nat ->
          exists x e, last calls = Some x /\ call_result x = Throw e)
      /\ (forall k, invocations k tr
                    = if (k <? length calls)%nat then 1%nat else 0%nat))
  /\ (forall base t extra,
         requestInterceptors
           (fold_left (fun c i => addRequestInterceptor i c) extra
                      (new_HttpClient base t))
         = defaultRequestInterceptor :: extra).
Proof.
  split; [|apply default_interceptor_first].
  intros P c config s tr calls l.
  destruct (request_run P c config s) as (calls' & rest & Hev & Hrun & Hsil & _).
  assert (Hcalls : calls = calls').
  { subst calls tr. rewrite Hev, request_calls_app, Hsil, app_nil_r.
    apply request_calls_of_calls. }
  rewrite Hcalls. clear Hcalls calls.
  destruct Hrun as [Hidx Hb Hfirst Hlink Hreal Hres Hall Hstop].
  assert (Hearly : (length calls' < length l)%nat ->
                   exists x e, last calls' = Some x /\ call_result x = Throw e).
  { intros Hlt. destruct (applyRequestInterceptors c config s).1 as [fc|e] eqn:Hr.
    - specialize (Hall fc eq_refl). subst l. lia.
    - specialize (Hstop e eq_refl).
      destruct (last calls') as [x|] eqn:Hlast.
      + exists x, e. now split.
      + apply last_None in Hlast. subst calls'. cbn in Hstop. lia. }
  repeat split; try assumption.
  - intros Hok. destruct (Nat.lt_ge_cases (length calls') (length l)) as [Hlt|Hge];
      [|subst l; lia].
    destruct (Hearly Hlt) as (x & e & Hlast & Hthrow).
    destruct (Hok x) as [c' Hc'].
    + apply list_elem_of_In. apply last_Some in Hlast as [l' ->].
      apply elem_of_app. right. now apply list_elem_of_singleton.
    + congruence.
  - intros k. unfold invocations. subst tr.
    rewrite Hev, request_calls_app, Hsil, app_nil_r, request_calls_of_calls.
    rewrite (invocations_of_run calls' 0 k Hidx). reflexivity.
Qed.

(** C3 at the default client with [marking] registered: neither interceptor
    throws, and both are invoked. *)
Lemma C3_request_interceptors_in_order_witness :
  let tr := events_since (start signed_out)
              (request healthy marking_client list_users (start signed_out)).2 in
  (forall x, In x (request_calls tr) -> exists c', call_result x = Ok c')
  /\ length (request_calls tr) = length (requestInterceptors marking_client).
Proof.
  assert (H : forall x,
             In x (request_calls
                     (events_since (start signed_out)
                        (request healthy marking_client list_users
                                 (start signed_out)).2)) ->
             exists c', call_result x = Ok c').
  { vm_compute. intros x [<- | [<- | []]]; eexists; reflexivity. }
  split; [exact H|].
  destruct C3_request_interceptors_in_order as [Hrun _].
  destruct (Hrun healthy marking_client list_users (start signed_out))
    as (_ & _ & _ & _ & _ & Hall & _).
  exact (Hall H).
Defined.

(** ** The options handed to [fetch] *)

(** The three shapes of the options: a form body, a JSON body, no body. *)
Ltac options_cases fc :=
  unfold fetchOptions_of;
  destruct (truthy (data fc) && sends_body (default GET (method fc)));
  [destruct (data fc)|].

Lemma fetchOptions_of_headers (fc : RequestConfig) (signal : Z) :
  fo_headers (fetchOptions_of fc signal)
  = match fo_body (fetchOptions_of fc signal) with
    | Some (BodyFormData _) =>
        delete "Content-Type" (default ∅ (headers fc) ∪ default_headers)
    | _ => default ∅ (headers fc) ∪ default_headers
    end.
Proof.
  options_cases fc; reflexivity.
Qed.

Lemma fetchOptions_of_form (fc : RequestConfig) (signal : Z)
      (es : list (string * value)) :
  fo_body (fetchOptions_of fc signal) = Some (BodyFormData es)
  <-> data fc = VFormData es /\ sends_body (default GET (method fc)) = true.
Proof.
  unfold fetchOptions_of.
  destruct (sends_body (default GET (method fc))).
  - rewrite andb_true_r. destruct (data fc) eqn:Hd; cbn [truthy];
      try (split; [discriminate|intros [[=] _]]).
    + destruct b; (split; [discriminate|intros [[=] _]]).
    + destruct (negb (n =? 0)); (split; [discriminate|intros [[=] _]]).
    + destruct (negb (String.eqb s "")); (split; [discriminate|intros [[=] _]]).
    + cbn. split; [intros [= ->]; now split|intros [[= ->] _]; reflexivity].
  - rewrite andb_false_r. cbn. split; [discriminate|intros [_ [=]]].
Qed.

Lemma fetchOptions_of_body (fc : RequestConfig) (signal : Z) :
  fo_body (fetchOptions_of fc signal) <> None ->
  sends_body (default GET (method fc)) = true /\ truthy (data fc) = true.
Proof.
  unfold fetchOptions_of.
  destruct (truthy (data fc)), (sends_body (default GET (method fc)));
    cbn; try congruence. now split.
Qed.

Lemma fetchOptions_of_method (fc : RequestConfig) (signal : Z) :
  fo_method (fetchOptions_of fc signal) = Some (default GET (method fc)).
Proof.
  options_cases fc; reflexivity.
Qed.

Lemma merged_override (hs : gmap string string) (k v : string) :
  hs !! k = Some v -> (hs ∪ default_headers) !! k = Some v.
Proof. intros H. now apply lookup_union_Some_l. Qed.

Lemma merged_default (hs : gmap string string) (k : string) :
  hs !! k = None -> (hs ∪ default_headers) !! k = default_headers !! k.
Proof. intros H. now apply lookup_union_r. Qed.

Lemma fetches_of_In (c : HttpClient) (fc : RequestConfig) (target : string)
      (opts : FetchOptions) :
  In (target, opts) (fetches_of c (Ok fc)) ->
  exists signal, AbortSignal_timeout (timeout_of c fc) = Ok signal
                 /\ target = buildURL c (url fc) (params fc)
                 /\ opts = fetchOptions_of fc signal.
Proof.
  unfold fetches_of.
  destruct (AbortSignal_timeout (timeout_of c fc)) as [signal|e]; [|intros []].
  intros [[= <- <-]|[]]. now exists signal.
Qed.

(** C7, as stated, fails when the caller overrides [Content-Type] on a form
    upload: [post("/avatar", form, { headers: { "Content-Type":
    "multipart/form-data" } })] sends no [Content-Type] at all, while the
    default merged with the overrides, less the default entry, still has the
    caller's. *)
Lemma C7_override_deleted_too :
  let s := start signed_out in
  let r := post healthy default_client "/avatar" avatar_form (Some typed_form) s in
  (applyRequestInterceptors default_client post_avatar_typed s).1
  = Ok post_avatar_typed
  /\ stated_headers post_avatar_typed
     = {[ "Content-Type" := "multipart/form-data" ]}
  /\ exists opts,
       fetch_calls (events_since s r.2) = [("/api/avatar", opts)]
       /\ fo_body opts = Some (BodyFormData [("file", VFile "avatar.png")])
       /\ fo_headers opts = ∅
       /\ fo_headers opts <> stated_headers post_avatar_typed.
Proof.
  vm_compute. split; [reflexivity|]. split; [reflexivity|].
  eexists. split; [reflexivity|]. split; [reflexivity|].
  split; [reflexivity|]. discriminate.
Qed.

(** C7, amended.  When the interceptor phase of a call yields the descriptor
    [fc], the headers of every [fetch] the call makes are the default
    [Content-Type: application/json] merged with the headers of [fc], a
    header of [fc] winning over the default; when the body that is sent is a
    [FormData] (the payload of [fc] is one and the method is POST, PUT or
    PATCH) the [Content-Type] entry, the default one or the one of [fc], is
    deleted from the merged headers, so that with no [Content-Type] among the
    headers of [fc] exactly the headers of [fc] are sent.  The call makes one
    [fetch] when the delay is one [AbortSignal.timeout] accepts, and none
    otherwise. *)
Theorem C7_transport_headers (P : Platform) (c : HttpClient)
        (config : RequestConfig) (s : Sys) (fc : RequestConfig) :
  (applyRequestInterceptors c config s).1 = Ok fc ->
  let sent := fetch_calls (events_since s (request P c config s).2) in
  let overrides := default ∅ (headers fc) in
  let merged := overrides ∪ {[ "Content-Type" := "application/json" ]} in
  (forall signal, AbortSignal_timeout (timeout_of c fc) = Ok signal ->
                  exists opts, sent = [(buildURL c (url fc) (params fc), opts)])
  /\ (forall e, AbortSignal_timeout (timeout_of c fc) = Throw e -> sent = [])
  /\ (forall k v, overrides !! k = Some v -> merged !! k = Some v)
  /\ (forall k, overrides !! k = None ->
                merged !! k
                = ({[ "Content-Type" := "application/json" ]}
                   : gmap string string) !! k)
  /\ forall target opts,
       In (target, opts) sent ->
       fo_headers opts
       = match fo_body opts with
         | Some (BodyFormData _) => delete "Content-Type" merged
         | _ => merged
         end
       /\ (forall es, fo_body opts = Some (BodyFormData es)
                      <-> data fc = VFormData es
                          /\ sends_body (default GET (method fc)) = true)
       /\ (forall es, fo_body opts = Some (BodyFormData es) ->
                      overrides !! "Content-Type" = None ->
                      fo_headers opts = overrides).
Proof.
  intros Hfc sent overrides merged. subst sent.
  rewrite request_fetch_calls, Hfc.
  split; [|split; [|split; [|split]]].
  - intros signal Hsig. unfold fetches_of. rewrite Hsig. eauto.
  - intros e Hsig. unfold fetches_of. now rewrite Hsig.
  - intros k v. apply merged_override.
  - intros k. apply merged_default.
  - intros target opts Hin.
    apply fetches_of_In in Hin as (signal & _ & _ & ->).
    split; [apply fetchOptions_of_headers|].
    split; [intros es; apply fetchOptions_of_form|].
    intros es Hbody Hnone. rewrite fetchOptions_of_headers, Hbody.
    apply map_eq. intros k. destruct (decide (k = "Content-Type")) as [->|Hne].
    + now rewrite lookup_delete_eq, Hnone.
    + rewrite lookup_delete_ne by congruence.
      destruct (overrides !! k) as [v|] eqn:Hk.
      * now apply merged_override.
      * subst overrides. rewrite merged_default by assumption.
        unfold default_headers. now rewrite lookup_singleton_ne.
Qed.

(** C7 at a form upload sent through [post] while the token [abc] is stored:
    one [fetch], with the [Authorization] header only. *)
Lemma C7_transport_headers_witness :
  (applyRequestInterceptors default_client post_avatar
                            (start (signed_in "abc"))).1
  = Ok post_avatar_final
  /\ exists opts,
       fetch_calls (events_since (start (signed_in "abc"))
                      (request healthy default_client post_avatar
                               (start (signed_in "abc"))).2)
       = [("/api/avatar", opts)]
       /\ fo_headers opts = {[ "Authorization" := "Bearer abc" ]}.
Proof.
  assert (H : (applyRequestInterceptors default_client post_avatar
                 (start (signed_in "abc"))).1 = Ok post_avatar_final)
    by (vm_compute; reflexivity).
  split; [exact H|].
  destruct (C7_transport_headers healthy default_client post_avatar
              (start (signed_in "abc")) post_avatar_final H)
    as (Hone & _ & _ & _ & Hsent).
  destruct (Hone 10000 eq_refl) as [opts Hcalls].
  exists opts. split; [exact Hcalls|].
  destruct (Hsent "/api/avatar" opts) as (_ & Hform & Hplain).
  - rewrite Hcalls. left. reflexivity.
  - apply (Hplain [("file", VFile "avatar.png")]).
    + apply Hform. split; reflexivity.
    + vm_compute. reflexivity.
Defined.

(** C10.  When the interceptor phase of a call yields the descriptor [fc],
    every [fetch] the call makes has the method of [fc] ([GET] when absent);
    if that method is GET or DELETE no body is sent, whatever the payload of
    [fc]; and a body is sent only when the method is POST, PUT or PATCH and
    the payload is neither [null] nor [undefined]. *)
Theorem C10_no_body_for_get_delete (P : Platform) (c : HttpClient)
        (config : RequestConfig) (s : Sys) (fc : RequestConfig) :
  (applyRequestInterceptors c config s).1 = Ok fc ->
  forall target opts,
    In (target, opts) (fetch_calls (events_since s (request P c config s).2)) ->
    fo_method opts = Some (default GET (method fc))
    /\ (method fc = Some GET \/ method fc = Some DELETE \/ method fc = None ->
        fo_body opts = None)
    /\ (fo_body opts <> None ->
        (method fc = Some POST \/ method fc = Some PUT \/ method fc = Some PATCH)
        /\ data fc <> VNull /\ data fc <> VUndefined).
Proof.
  intros Hfc target opts. rewrite request_fetch_calls, Hfc.
  intros (signal & _ & _ & ->)%fetches_of_In.
  split; [apply fetchOptions_of_method|]. split.
  - intros Hm.
    destruct (fo_body (fetchOptions_of fc signal)) eqn:Hb; [|reflexivity].
    destruct (fetchOptions_of_body fc signal) as [Hs _]; [congruence|].
    destruct Hm as [Hm | [Hm | Hm]]; rewrite Hm in Hs; discriminate Hs.
  - intros Hb. destruct (fetchOptions_of_body fc signal Hb) as [Hs Ht].
    split.
    + destruct (method fc) as [[]|]; cbn in Hs; try discriminate Hs; tauto.
    + split; intros Hd; rewrite Hd in Ht; discriminate Ht.
Qed.

(** C10 at a [GET] descriptor that carries a payload: nothing is sent as
    body. *)
Lemma C10_no_body_for_get_delete_witness :
  (applyRequestInterceptors default_client get_with_payload
                            (start (signed_in "abc"))).1
  = Ok get_with_payload_final
  /\ exists opts,
       fetch_calls (events_since (start (signed_in "abc"))
                      (request healthy default_client get_with_payload
                               (start (signed_in "abc"))).2)
       = [("/api/users", opts)]
       /\ fo_method opts = Some GET /\ fo_body opts = None.
Proof.
  assert (H : (applyRequestInterceptors default_client get_with_payload
                 (start (signed_in "abc"))).1 = Ok get_with_payload_final)
    by (vm_compute; reflexivity).
  split; [exact H|].
  eexists. split; [vm_compute; reflexivity|].
  match goal with
  | |- fo_method ?o = _ /\ _ =>
      destruct (C10_no_body_for_get_delete healthy default_client
                  get_with_payload (start (signed_in "abc"))
                  get_with_payload_final H "/api/users" o)
        as (Hm & Hnone & _)
  end.
  - vm_compute. left. reflexivity.
  - split; [exact Hm|]. apply Hnone. left. reflexivity.
Defined.

(** ** Failures *)

(** C1 fails at a request interceptor that rejects with [undefined]
    ([Promise.reject()]): the [catch] block of [request] reads [error.code]
    of [undefined], so the caller receives the engine's [TypeError] instead
    of a normalized error, and the registered error interceptor is never
    called: nothing is notified. *)
Theorem C1_bare_rejection_escapes :
  let r := get healthy bare_client "/users" None None (start signed_out) in
  r.1 = Throw (mkTypeError VUndefined "code")
  /\ length (errorInterceptors bare_client) = 1%nat
  /\ error_calls (trace r.2) = []
  /\ notices (world r.2) = [].
Proof. vm_compute. repeat split. Qed.

(** A normalized error has a [code], a [message] and the [details], and no
    [status]. *)
Lemma apiError_of_status (error apiError : value) :
  apiError_of error = Ok apiError ->
  get_prop apiError "status" = Some VUndefined.
Proof.
  unfold apiError_of.
  destruct (get_prop error "code"); [|discriminate].
  destruct (get_prop error "message"); [|discriminate].
  now intros [= <-].
Qed.

(** Hence the default error interceptor takes its last branch on every error
    [request] shows it: it notifies, and leaves token and location alone. *)
Lemma defaultErrorInterceptor_on_normalized (error apiError : value) (w : World) :
  apiError_of error = Ok apiError ->
  exists notice,
    defaultErrorInterceptor apiError w = (Throw apiError, message_error notice w).
Proof.
  intros H. unfold defaultErrorInterceptor.
  rewrite (apiError_of_status error apiError H). cbn. eauto.
Qed.

(** Shown an error whose [status] is 401, the interceptor does drop the
    token, go to the login view unless the tab is there already, and show
    the "unauthorized" notice. *)
Lemma defaultErrorInterceptor_401 (fields : list (string * value)) (w : World) :
  assoc "status" fields = Some (VNum 401) ->
  let w' := (defaultErrorInterceptor (VObj fields) w).2 in
  (defaultErrorInterceptor (VObj fields) w).1 = Throw (VObj fields)
  /\ storageUtils_get STORAGE_KEYS.TOKEN w' = VNull
  /\ navigations w'
     = match pathname w with
       | Some p => if includes p "/login" then navigations w
                   else (navigations w ++ ["/login"])%list
       | None => navigations w
       end
  /\ notices w' = (notices w ++ [VStr ERROR_MESSAGES.UNAUTHORIZED])%list.
Proof.
  intros Hst.
  assert (Hrun : defaultErrorInterceptor (VObj fields) w
                 = (Throw (VObj fields),
                    message_error (VStr ERROR_MESSAGES.UNAUTHORIZED)
                      match pathname w with
                      | Some p =>
                          if negb (includes p "/login")
                          then navigate "/login"
                                 (storageUtils_remove STORAGE_KEYS.TOKEN w)
                          else storageUtils_remove STORAGE_KEYS.TOKEN w
                      | None => storageUtils_remove STORAGE_KEYS.TOKEN w
                      end)).
  { unfold defaultErrorInterceptor. cbn [get_prop]. rewrite Hst. reflexivity. }
  rewrite Hrun. cbn [fst snd]. split; [reflexivity|].
  unfold storageUtils_get.
  destruct (pathname w) as [p|]; [destruct (includes p "/login")|];
    cbn [negb message_error navigate storageUtils_remove set_localStorage
         localStorage navigations notices];
    rewrite lookup_delete_eq; repeat split.
Qed.

(** C2 fails at a [401] answer while the token [abc] is stored and the tab
    is on [/dashboard]: the call is rejected and a notice with the server's
    message is shown, but the token stays stored, nothing navigates to the
    login view and the notice is not the "unauthorized" one. *)
Theorem C2_unauthorized_keeps_token :
  let r := get (platform_of (Ok session_expired) true) default_client
               "/auth/me" None None (start (signed_in "abc")) in
  (exists e, r.1 = Throw e
             /\ get_prop e "message" = Some (VStr "token expired")
             /\ get_prop e "status" = Some VUndefined)
  /\ storageUtils_get STORAGE_KEYS.TOKEN (world r.2) = VStr "abc"
  /\ navigations (world r.2) = []
  /\ notices (world r.2) = [VStr "token expired"]
  /\ VStr "token expired" <> VStr ERROR_MESSAGES.UNAUTHORIZED.
Proof.
  vm_compute. split; [eexists; repeat split|]. repeat split. discriminate.
Qed.

(** ** The default response interceptor *)

(** C5, as stated, fails at a body that is not JSON: for the [502] of a
    gateway the error raised is the parser's [SyntaxError], whose message is
    neither supplied by the server nor the generic server-error message; for
    a [204] without body the interceptor throws although the status is 2xx. *)
Lemma C5_body_not_json :
  (exists e,
      (defaultResponseInterceptor (AResponse bad_gateway) signed_out).1 = Throw e
      /\ ok bad_gateway = false
      /\ get_prop e "name" = Some (VStr "SyntaxError")
      /\ get_prop e "message" <> Some (VStr ERROR_MESSAGES.SERVER_ERROR))
  /\ (exists e,
         (defaultResponseInterceptor (AResponse no_content) signed_out).1 = Throw e
         /\ ok no_content = true).
Proof.
  split; eexists; repeat split. discriminate.
Qed.

(** C5, amended.  For a transport response whose body is JSON: with a status
    outside 200..299 and a body other than [null], the default response
    interceptor throws an [Error] whose message is [String(body.message)],
    or the generic server-error message when [body.message] is absent or
    falsy; with a status in 200..299 it returns the decoded body.  For a body
    that is not JSON it throws the parser's [SyntaxError], whatever the
    status.  The world is left as it was.  A [409] with body
    [{ success: false, message: "邮箱已存在" }] rejects a [post] with an error
    whose message is that text. *)
Theorem C5_default_response_interceptor :
  (forall (r : Response) (w : World) (d : value),
      body r = ParsesTo d ->
      (ok r = false -> is_nullish d = false ->
       exists m,
         get_prop d "message" = Some m
         /\ defaultResponseInterceptor (AResponse r) w
            = (Throw (mkError (if truthy m then to_js_string m
                               else ERROR_MESSAGES.SERVER_ERROR)), w))
      /\ (ok r = true ->
          defaultResponseInterceptor (AResponse r) w = (Ok (AValue d), w)))
  /\ (forall (r : Response) (w : World) (msg : string),
         body r = Malformed msg ->
         defaultResponseInterceptor (AResponse r) w
         = (Throw (mkSyntaxError msg), w))
  /\ (let r := post (platform_of (Ok email_taken) true) default_client "/users"
                    (VObj [("name", VStr "Li"); ("email", VStr "li@example.com")])
                    None (start signed_out) in
      exists e, r.1 = Throw e
                /\ get_prop e "message" = Some (VStr "邮箱已存在")).
Proof.
  split; [|split].
  - intros r w d Hbody. unfold defaultResponseInterceptor. rewrite Hbody.
    split.
    + intros Hok Hnn. rewrite Hok. cbn [negb].
      destruct d; try discriminate Hnn; cbn [get_prop];
        try (exists VUndefined; split; reflexivity).
      exists (default VUndefined (assoc "message" fields)).
      split; [reflexivity|]. unfold js_or.
      now destruct (truthy (default VUndefined (assoc "message" fields))).
    + intros Hok. now rewrite Hok.
  - intros r w msg Hbody. unfold defaultResponseInterceptor. now rewrite Hbody.
  - vm_compute. eexists. split; reflexivity.
Qed.

(** C5 at the [409] of a sign-up with a known address. *)
Lemma C5_default_response_interceptor_witness :
  body email_taken
  = ParsesTo (VObj [("success", VBool false); ("message", VStr "邮箱已存在")])
  /\ ok email_taken = false
  /\ exists m,
       defaultResponseInterceptor (AResponse email_taken) signed_out
       = (Throw (mkError (if truthy m then to_js_string m
                          else ERROR_MESSAGES.SERVER_ERROR)), signed_out)
       /\ m = VStr "邮箱已存在".
Proof.
  split; [reflexivity|]. split; [reflexivity|].
  destruct C5_default_response_interceptor as [Hjson _].
  destruct (Hjson email_taken signed_out _ eq_refl) as [Hbad _].
  destruct (Hbad eq_refl eq_refl) as (m & Hm & Hthrow).
  exists m. split; [exact Hthrow|].
  cbn in Hm. congruence.
Defined.

(** ** [upload] *)


(** With a token, [setRequestHeader] is called on a request that was never
    opened: the promise is rejected and nothing is sent. *)
Lemma upload_with_token (c : HttpClient) (u : string) (file : value)
      (ending : XHR -> XhrEnd) (w : World) :
  truthy (storageUtils_get STORAGE_KEYS.TOKEN w) = true ->
  exists what, upload c u file ending w = (None, Rejected (InvalidStateError what)).
Proof.
  intros H. unfold upload, upload_start. rewrite H. cbn. eauto.
Qed.


(** C8 fails at any upload made while the token [abc] is stored: whatever
    the transport would answer, also a [200] with a JSON body, the promise is
    rejected with the [InvalidStateError] of [setRequestHeader] and no request
    is sent, so no [Authorization] header reaches the transport.  Without a
    token the same upload is sent and resolves. *)
Theorem C8_token_blocks_upload :
  (forall ending : XHR -> XhrEnd,
      exists what,
        upload default_client "/files" (VFile "report.pdf") ending
               (signed_in "abc")
        = (None, Rejected (InvalidStateError what)))
  /\ upload default_client "/files" (VFile "report.pdf")
            (fun _ => OnLoad 200 (ParsesTo (envelope (VStr "stored"))))
            signed_out
     = (Some (upload_request default_client "/files" (VFile "report.pdf")),
        Resolved (envelope (VStr "stored"))).
Proof.
  split; [|reflexivity].
  intros ending. now apply upload_with_token.
Qed.

(** ** [download] *)

Ltac download_step :=
  match goal with
  | |- context [match ?f ?w with _ => _ end] =>
      lazymatch type of (f w) with
      | (Outcome _ * World)%type => destruct (f w) as [[?|?] ?]
      end
  | |- context [if negb (ok ?r) then _ else _] => destruct (ok r)
  end; cbn [negb fst snd world trace].

(** A download that returns has revoked the object URL it created; a
    download that throws has revoked nothing, whether or not it had created
    one. *)
Lemma download_outcomes (P : Platform) (c : HttpClient) (u : string)
      (filename : option string) (s : Sys) :
  match (download P c u filename s).1 with
  | Ok _ =>
      exists v,
        created_urls (events_since s (download P c u filename s).2) = [v]
        /\ revoked_urls (events_since s (download P c u filename s).2) = [v]
  | Throw _ =>
      revoked_urls (events_since s (download P c u filename s).2) = []
  end.
Proof.
  unfold events_since, download, try_catch, bind, get_world, emit, lift,
    throw, ret.
  cbn [fst snd world trace].
  repeat download_step;
    cbn [fst snd world trace]; rewrite <- ?app_assoc, drop_app_length;
    cbn; eauto.
Qed.

(** C9 fails when a step after [createObjectURL] throws: on a page without
    [document.body], [appendChild] throws, the [catch] block shows the notice
    and rethrows, and the object URL that was created is not revoked.  On a
    page with a body the same download revokes it. *)
Theorem C9_failed_download_leaks_url :
  let bad := download without_body default_client "/export" (Some "users.csv")
                      (start (signed_in "abc")) in
  let good := download with_body default_client "/export" (Some "users.csv")
                       (start (signed_in "abc")) in
  bad.1 = Throw (mkTypeError VNull "appendChild")
  /\ created_urls (trace bad.2) = ["blob:1"]
  /\ revoked_urls (trace bad.2) = []
  /\ notices (world bad.2) = [VStr "文件下载失败"]
  /\ good.1 = Ok tt
  /\ created_urls (trace good.2) = ["blob:1"]
  /\ revoked_urls (trace good.2) = ["blob:1"].
Proof. vm_compute. repeat split. Qed.

(** ** The timeout handed to [AbortSignal.timeout] *)

Lemma request_timeout_choice (c : HttpClient) (fc : RequestConfig) :
  (forall t, timeout fc = Some t -> t <> 0 -> timeout_of c fc = t)
  /\ (timeout fc = None \/ timeout fc = Some 0 ->
      timeout_of c fc = this_timeout c)
  /\ forall signal, fo_signal (fetchOptions_of fc signal) = Some signal.
Proof.
  unfold timeout_of. split; [|split].
  - intros t -> Hne. apply Z.eqb_neq in Hne. now rewrite Hne.
  - intros [-> | ->]; reflexivity.
  - intros signal. options_cases fc; reflexivity.
Qed.

(** * The rest of the client *)

(** ** The default request interceptor *)

Lemma defaultRequestInterceptor_authorized (config : RequestConfig) (w : World) :
  defaultRequestInterceptor config w = (Ok (authorized w config), w).
Proof.
  unfold authorized, defaultRequestInterceptor.
  destruct (truthy (storageUtils_get STORAGE_KEYS.TOKEN w)); reflexivity.
Qed.

(** X1.  The default request interceptor never throws and never changes the
    world.  Without a usable token it returns the descriptor as it is.  With
    one it sets [Authorization] to [Bearer] and the token, in place of any
    [Authorization] the caller supplied, and leaves every other header and
    every other field alone. *)
Theorem stored_token_replaces_authorization (config : RequestConfig) (w : World) :
  let token := storageUtils_get STORAGE_KEYS.TOKEN w in
  exists c',
    defaultRequestInterceptor config w = (Ok c', w)
    /\ url c' = url config /\ method c' = method config
    /\ params c' = params config /\ data c' = data config
    /\ timeout c' = timeout config
    /\ (truthy token = false -> c' = config)
    /\ (truthy token = true ->
        exists hs,
          headers c' = Some hs
          /\ hs !! "Authorization" = Some ("Bearer " ++ to_js_string token)
          /\ forall k, k <> "Authorization" ->
                       hs !! k = default ∅ (headers config) !! k).
Proof.
  intros token. subst token. unfold defaultRequestInterceptor.
  destruct (truthy (storageUtils_get STORAGE_KEYS.TOKEN w)).
  - eexists. split; [reflexivity|]. cbn [url method params data timeout headers].
    do 5 (split; [reflexivity|]). split; [discriminate|]. intros _.
    eexists. split; [reflexivity|]. split.
    + apply lookup_insert_eq.
    + intros k Hk. now apply lookup_insert_ne.
  - exists config. split; [reflexivity|]. do 5 (split; [reflexivity|]).
    split; [reflexivity|discriminate].
Qed.

(** ** A client with the default interceptors only *)

Section FreshClient.

Context (P : Platform) (base : string) (t : Z).

Let c := new_HttpClient base t.

Lemma fresh_applyRequestInterceptors (config : RequestConfig) (s : Sys) :
  applyRequestInterceptors c config s
  = (Ok (authorized (world s) config),
     {| world := world s;
        trace := (trace s ++ [EvRequestInterceptor 0 config
                                (Ok (authorized (world s) config))])%list |}).
Proof.
  unfold applyRequestInterceptors, c. cbn [new_HttpClient requestInterceptors
    addRequestInterceptor addResponseInterceptor addErrorInterceptor app
    applyRequestInterceptors_from].
  unfold bind, observed, ret.
  now rewrite defaultRequestInterceptor_authorized.
Qed.

Lemma authorized_fields (w : World) (config : RequestConfig) :
  url (authorized w config) = url config
  /\ method (authorized w config) = method config
  /\ params (authorized w config) = params config
  /\ data (authorized w config) = data config
  /\ timeout (authorized w config) = timeout config.
Proof.
  unfold authorized, defaultRequestInterceptor.
  destruct (truthy (storageUtils_get STORAGE_KEYS.TOKEN w)); now repeat split.
Qed.

Lemma authorized_headers_plain (w : World) (config : RequestConfig) :
  headers config = None ->
  default ∅ (headers (authorized w config)) = auth_headers w.
Proof.
  intros H. unfold authorized, defaultRequestInterceptor, auth_headers.
  destruct (truthy (storageUtils_get STORAGE_KEYS.TOKEN w)); cbn; rewrite H.
  - apply insert_empty.
  - reflexivity.
Qed.

Lemma fresh_fetch_calls (config : RequestConfig) (s : Sys) :
  fetch_calls (events_since s (request P c config s).2)
  = match AbortSignal_timeout (timeout_of c config) with
    | Ok signal =>
        [(buildURL c (url config) (params config),
          fetchOptions_of (authorized (world s) config) signal)]
    | Throw _ => []
    end.
Proof.
  rewrite request_fetch_calls, fresh_applyRequestInterceptors. cbn [fst].
  unfold fetches_of, timeout_of.
  destruct (authorized_fields (world s) config) as (-> & _ & -> & _ & ->).
  reflexivity.
Qed.

Lemma fetchOptions_of_plain (w : World) (u : string) (m : Method)
      (ps : option (list (string * value))) (d : value) (signal : Z) :
  fetchOptions_of (authorized w (descriptor u m ps d)) signal
  = let b := if sends_body m then body_of d else None in
    {| fo_method := Some m; fo_headers := headers_for w b;
       fo_signal := Some signal; fo_body := b |}.
Proof.
  unfold fetchOptions_of, headers_for, body_of.
  rewrite authorized_headers_plain by reflexivity.
  destruct (authorized_fields w (descriptor u m ps d)) as (_ & -> & _ & -> & _).
  cbn [descriptor method data from_option]. unfold id.
  destruct (truthy d), (sends_body m); cbn [andb]; try reflexivity.
  destruct d; reflexivity.
Qed.

End FreshClient.

Lemma AbortSignal_timeout_ok (t : Z) :
  delay_ok t -> AbortSignal_timeout t = Ok t.
Proof.
  intros [H1 H2]. unfold AbortSignal_timeout.
  apply Z.leb_le in H1, H2. now rewrite H1, H2.
Qed.

Lemma verb_fetch (P : Platform) (base : string) (t : Z) (u : string) (m : Method)
      (ps : option (list (string * value))) (d : value) (s : Sys) :
  delay_ok t ->
  fetch_calls
    (events_since s (request P (new_HttpClient base t)
                             (descriptor u m ps d) s).2)
  = [(buildURL (new_HttpClient base t) u ps,
      let b := if sends_body m then body_of d else None in
      {| fo_method := Some m; fo_headers := headers_for (world s) b;
         fo_signal := Some t; fo_body := b |})].
Proof.
  intros Ht. rewrite fresh_fetch_calls.
  change (timeout_of (new_HttpClient base t) (descriptor u m ps d)) with t.
  rewrite (AbortSignal_timeout_ok t Ht). now rewrite fetchOptions_of_plain.
Qed.

(** X2.  Called without overrides on a client that has the default interceptors
    only, each verb binding makes exactly one [fetch], with its own method,
    the built URL, the client's timeout as delay and the default headers plus
    [Authorization] when a token is stored.  [get] and [delete] send no body;
    [post], [put] and [patch] send the payload as JSON, or as form data
    without [Content-Type], and send no body when the payload is falsy. *)
Theorem verbs_select_their_method (P : Platform) (base : string) (t : Z)
        (u : string) (ps : option (list (string * value))) (d : value)
        (s : Sys) :
  delay_ok t ->
  let c := new_HttpClient base t in
  let sent (r : Outcome Any * Sys) := fetch_calls (events_since s r.2) in
  let opts (m : Method) (b : option Body) :=
    {| fo_method := Some m; fo_headers := headers_for (world s) b;
       fo_signal := Some t; fo_body := b |} in
  sent (get P c u ps None s) = [(buildURL c u ps, opts GET None)]
  /\ sent (delete_ P c u None s) = [(fullURL c u, opts DELETE None)]
  /\ sent (post P c u d None s) = [(fullURL c u, opts POST (body_of d))]
  /\ sent (put P c u d None s) = [(fullURL c u, opts PUT (body_of d))]
  /\ sent (patch P c u d None s) = [(fullURL c u, opts PATCH (body_of d))].
Proof.
  intros Ht c sent opts. subst c sent opts. cbv beta.
  unfold get, delete_, post, put, patch. cbn [spread].
  now rewrite !verb_fetch by assumption.
Qed.

(** The bindings on the page [ready], with the default client: a [post] of a
    JSON payload carries it as body, with both headers. *)
Lemma verbs_select_their_method_witness :
  delay_ok 10000
  /\ fetch_calls
       (events_since ready
          (post healthy default_client "/users"
                (VObj [("name", VStr "Li")]) None ready).2)
     = [("/api/users",
         {| fo_method := Some POST;
            fo_headers := {[ "Authorization" := "Bearer abc";
                             "Content-Type" := "application/json" ]};
            fo_signal := Some 10000;
            fo_body := Some (BodyJSON (VObj [("name", VStr "Li")])) |})].
Proof.
  assert (H : delay_ok 10000) by (unfold delay_ok; lia).
  split; [exact H|].
  destruct (verbs_select_their_method healthy "/api" 10000 "/users" None
              (VObj [("name", VStr "Li")]) ready H) as (_ & _ & Hpost & _).
  exact Hpost.
Defined.

Lemma fresh_request_try (P : Platform) (base : string) (t : Z)
      (config : RequestConfig) (s : Sys) (signal : Z) :
  AbortSignal_timeout (timeout_of (new_HttpClient base t) config) = Ok signal ->
  let c := new_HttpClient base t in
  let target := buildURL c (url config) (params config) in
  let opts := fetchOptions_of (authorized (world s) config) signal in
  let tr := (trace s ++ [EvRequestInterceptor 0 config
                           (Ok (authorized (world s) config));
                         EvFetch target opts])%list in
  request_try P c config s
  = match fetch P target opts (world s) with
    | (Ok r, w') =>
        let out := defaultResponseInterceptor (AResponse r) w' in
        (out.1,
         {| world := out.2;
            trace := (tr ++ [EvResponseInterceptor 0 (AResponse r) out.1])%list |})
    | (Throw e, w') => (Throw e, {| world := w'; trace := tr |})
    end.
Proof.
  intros Hsig c target opts tr. subst c target opts tr.
  unfold request_try. unfold bind at 1.
  rewrite fresh_applyRequestInterceptors.
  destruct (authorized_fields (world s) config) as (Hu & _ & Hp & _ & Ht).
  unfold timeout_of in *. rewrite Ht, Hu, Hp.
  unfold bind at 1. rewrite Hsig. cbn [of_outcome]. unfold ret at 1.
  unfold bind, emit, lift. cbn [world trace].
  rewrite <- app_assoc. cbn [app].
  destruct (fetch P _ _ (world s)) as [[r|e] w']; [|reflexivity].
  unfold applyResponseInterceptors.
  cbn [new_HttpClient responseInterceptors addRequestInterceptor
       addResponseInterceptor addErrorInterceptor app
       applyResponseInterceptors_from].
  unfold bind, observed, ret. cbn [world trace].
  destruct (defaultResponseInterceptor (AResponse r) w') as [[a|e] w'']; reflexivity.
Qed.

(** X3.  Through a client with the default interceptors only, a response with a
    status in 200..299 and a JSON body makes [request] return that body as
    it is; the world is the one [fetch] left, no error interceptor runs and
    nothing is notified by the client. *)
Theorem success_returns_body_unchanged (P : Platform) (base : string) (t : Z)
        (config : RequestConfig) (s : Sys) (signal : Z) (r : Response)
        (w' : World) (d : value) :
  AbortSignal_timeout (timeout_of (new_HttpClient base t) config) = Ok signal ->
  fetch P (buildURL (new_HttpClient base t) (url config) (params config))
        (fetchOptions_of (authorized (world s) config) signal) (world s)
  = (Ok r, w') ->
  ok r = true ->
  body r = ParsesTo d ->
  let out := request P (new_HttpClient base t) config s in
  out.1 = Ok (AValue d)
  /\ world out.2 = w'
  /\ error_calls (events_since s out.2) = [].
Proof.
  intros Hsig Hfetch Hok Hbody out. subst out.
  unfold request, try_catch.
  rewrite (fresh_request_try P base t config s signal Hsig). cbv zeta.
  rewrite Hfetch. unfold defaultResponseInterceptor. rewrite Hbody, Hok.
  cbn [negb fst snd world]. repeat split.
  unfold events_since. cbn [trace]. rewrite <- app_assoc, drop_app_length.
  reflexivity.
Qed.

(** The [healthy] server answers the listing of users from the page [ready]. *)
Lemma success_returns_body_unchanged_witness :
  (request healthy default_client list_users ready).1
  = Ok (AValue (envelope (VArr [])))
  /\ world (request healthy default_client list_users ready).2 = world ready.
Proof.
  destruct (success_returns_body_unchanged healthy "/api" 10000 list_users ready
              10000 {| status := 200; body := ParsesTo (envelope (VArr [])) |}
              (world ready) (envelope (VArr [])) eq_refl eq_refl eq_refl eq_refl)
    as (H1 & H2 & _).
  split; [exact H1|exact H2].
Defined.

(** ** Failures of [request] *)

(** X4.  Whenever the [try] body of [request] fails with a value other than
    [undefined] and [null], the caller is rejected with an object made of
    [code] (the failure's, or [UNKNOWN_ERROR]), [message] (the failure's, or
    the generic text) and [details] (the failure itself); before that every
    registered error interceptor has been called exactly once, in
    registration order, each with that same object, whatever the earlier ones
    threw. *)
Theorem failure_is_normalized_for_all_interceptors (P : Platform)
        (c : HttpClient) (config : RequestConfig) (s s1 : Sys) (error : value) :
  request_try P c config s = (Throw error, s1) ->
  is_nullish error = false ->
  exists code msg,
    get_prop error "code" = Some code
    /\ get_prop error "message" = Some msg
    /\ let apiError :=
         VObj [("code", js_or code (VStr "UNKNOWN_ERROR"));
               ("message", js_or msg (VStr ERROR_MESSAGES.UNKNOWN_ERROR));
               ("details", error)] in
       let calls := error_calls (events_since s (request P c config s).2) in
       (request P c config s).1 = Throw apiError
       /\ map ecall_idx calls = seq 0 (length (errorInterceptors c))
       /\ Forall (fun x => ecall_error x = apiError) calls
       /\ forall k x, calls !! k = Some x ->
                      exists f w, errorInterceptors c !! k = Some f
                                  /\ (f apiError w).1 = ecall_result x.
Proof.
  intros Htry Hnn.
  destruct (request_failure_normalized P c config s s1 error Htry Hnn)
    as (code & msg & calls & s' & Hc & Hm & Hreq & _ & Hcalls & [Hidx Herr Hreal]).
  exists code, msg. do 2 (split; [assumption|]). cbv zeta.
  rewrite Hreq. cbn [fst snd]. rewrite Hcalls. now repeat split.
Qed.

(** A gateway that answers with an HTML page: the parser's error is wrapped
    and shown to the default error interceptor. *)
Lemma failure_is_normalized_for_all_interceptors_witness :
  (request_try gateway_down default_client list_users ready).1
  = Throw (mkSyntaxError "Unexpected token < in JSON at position 0")
  /\ (request gateway_down default_client list_users ready).1
     = Throw (VObj [("code", VStr "UNKNOWN_ERROR");
                    ("message", VStr "Unexpected token < in JSON at position 0");
                    ("details",
                     mkSyntaxError "Unexpected token < in JSON at position 0")])
  /\ length (error_calls
               (events_since ready
                  (request gateway_down default_client list_users ready).2))
     = 1%nat.
Proof.
  assert (Htry : request_try gateway_down default_client list_users ready
                 = (Throw (mkSyntaxError "Unexpected token < in JSON at position 0"),
                    (request_try gateway_down default_client list_users ready).2))
    by (vm_compute; reflexivity).
  split; [now rewrite Htry|].
  destruct (failure_is_normalized_for_all_interceptors gateway_down
              default_client list_users ready _ _ Htry eq_refl)
    as (code & msg & Hc & Hm & Hreq & Hidx & _).
  cbn in Hc, Hm. injection Hc as <-. injection Hm as <-.
  split; [exact Hreq|].
  apply (f_equal (@length nat)) in Hidx.
  rewrite length_map, length_seq in Hidx. exact Hidx.
Defined.

(** X5.  Through a client with the default interceptors only, a failure of
    [request] (other than [undefined] and [null]) adds exactly one notice,
    the failure's message or the generic text, and touches nothing else: the
    stored token stays and nothing navigates, also when the failure itself
    carries a [status] of 401 or 403. *)
Theorem default_client_failure_only_notifies (P : Platform) (base : string)
        (t : Z) (config : RequestConfig) (s s1 : Sys) (error : value) :
  request_try P (new_HttpClient base t) config s = (Throw error, s1) ->
  is_nullish error = false ->
  exists msg,
    get_prop error "message" = Some msg
    /\ let w' := world (request P (new_HttpClient base t) config s).2 in
       notices w'
       = (notices (world s1)
            ++ [if truthy msg then msg
                else VStr ERROR_MESSAGES.UNKNOWN_ERROR])%list
       /\ localStorage w' = localStorage (world s1)
       /\ navigations w' = navigations (world s1)
       /\ pathname w' = pathname (world s1).
Proof.
  intros Htry Hnn.
  destruct (apiError_of_defined error Hnn) as (code & msg & Hc & Hm & Hapi).
  exists msg. split; [assumption|]. cbv zeta.
  unfold request, try_catch. rewrite Htry.
  unfold request_catch. unfold bind at 1. rewrite Hapi.
  cbn [of_outcome]. unfold ret at 1.
  unfold applyErrorInterceptors.
  cbn [new_HttpClient errorInterceptors addRequestInterceptor
       addResponseInterceptor addErrorInterceptor app
       applyErrorInterceptors_from].
  unfold bind, try_catch, observed, ret, throw, defaultErrorInterceptor.
  cbn [get_prop assoc String.eqb Ascii.eqb Bool.eqb from_option status_is
       fst snd world trace message_error notices localStorage navigations
       pathname].
  unfold id, js_or. split; [|now repeat split].
  destruct (truthy msg) eqn:Hmsg; [now rewrite Hmsg|reflexivity].
Qed.

(** A [401] with the token [abc] stored: one notice, the token stays. *)
Lemma default_client_failure_only_notifies_witness :
  (request_try (platform_of (Ok session_expired) true) default_client
               list_users ready).1
  = Throw (mkError "token expired")
  /\ notices (world (request (platform_of (Ok session_expired) true)
                             default_client list_users ready).2)
     = [VStr "token expired"]
  /\ localStorage (world (request (platform_of (Ok session_expired) true)
                                  default_client list_users ready).2)
     = localStorage (world ready).
Proof.
  assert (Htry : request_try (platform_of (Ok session_expired) true)
                   default_client list_users ready
                 = (Throw (mkError "token expired"),
                    (request_try (platform_of (Ok session_expired) true)
                       default_client list_users ready).2))
    by (vm_compute; reflexivity).
  split; [now rewrite Htry|].
  destruct (default_client_failure_only_notifies
              (platform_of (Ok session_expired) true) "/api" 10000 list_users
              ready _ _ Htry eq_refl) as (msg & Hm & Hn & Hl & _).
  cbn in Hm. injection Hm as <-.
  split; [exact Hn|exact Hl].
Defined.

(** ** The delay of a request *)

Lemma request_rejects_when_try_fails (P : Platform) (c : HttpClient)
      (config : RequestConfig) (s : Sys) (e : value) :
  (request_try P c config s).1 = Throw e ->
  is_nullish e = false ->
  exists apiError,
    (request P c config s).1 = Throw apiError
    /\ get_prop apiError "details" = Some e.
Proof.
  intros Htry Hnn.
  destruct (request_try P c config s) as [r s1] eqn:Hrun. cbn in Htry. subst r.
  destruct (request_failure_normalized P c config s s1 e Hrun Hnn)
    as (code & msg & calls & s' & _ & _ & Hreq & _).
  eexists. rewrite Hreq. split; reflexivity.
Qed.

(** X6.  Through a client with the default interceptors only and a usable
    default timeout: a descriptor without timeout, or with timeout 0, is
    fetched with the client's default as delay; one with another delay that
    [AbortSignal.timeout] accepts is fetched with that delay; one with a
    delay it refuses (a negative one) is not fetched at all, and the caller is
    rejected with the wrapped [TypeError]. *)
Theorem timeout_zero_means_default (P : Platform) (base : string) (t : Z)
        (config : RequestConfig) (s : Sys) :
  delay_ok t ->
  let c := new_HttpClient base t in
  let sent := fetch_calls (events_since s (request P c config s).2) in
  (timeout config = None \/ timeout config = Some 0 ->
   exists target opts, sent = [(target, opts)] /\ fo_signal opts = Some t)
  /\ (forall t', timeout config = Some t' -> t' <> 0 -> delay_ok t' ->
                 exists target opts,
                   sent = [(target, opts)] /\ fo_signal opts = Some t')
  /\ (forall t', timeout config = Some t' -> ~ delay_ok t' ->
                 sent = []
                 /\ exists apiError e,
                      (request P c config s).1 = Throw apiError
                      /\ get_prop apiError "details" = Some e
                      /\ get_prop e "name" = Some (VStr "TypeError")).
Proof.
  intros Ht c sent. subst sent c. rewrite fresh_fetch_calls.
  set (c := new_HttpClient base t).
  destruct (request_timeout_choice c config) as (Hover & Hdef & Hsig).
  split; [|split].
  - intros Hnone. rewrite (Hdef Hnone).
    change (this_timeout c) with t.
    rewrite (AbortSignal_timeout_ok t Ht). do 2 eexists.
    split; [reflexivity|].
    apply (request_timeout_choice c (authorized (world s) config)).
  - intros t' Hsome Hne Hok. rewrite (Hover t' Hsome Hne).
    rewrite (AbortSignal_timeout_ok t' Hok). do 2 eexists.
    split; [reflexivity|].
    apply (request_timeout_choice c (authorized (world s) config)).
  - intros t' Hsome Hbad.
    assert (Hne : t' <> 0) by (intros ->; apply Hbad; unfold delay_ok; lia).
    rewrite (Hover t' Hsome Hne).
    assert (Hthrow : exists e, AbortSignal_timeout t' = Throw e
                               /\ get_prop e "name" = Some (VStr "TypeError")).
    { unfold AbortSignal_timeout.
      destruct ((0 <=? t') && (t' <=? 9007199254740991)) eqn:E.
      - exfalso. apply Hbad. apply andb_true_iff in E as [E1 E2].
        apply Z.leb_le in E1, E2. now split.
      - eexists. split; reflexivity. }
    destruct Hthrow as (e & He & Hname). rewrite He. split; [reflexivity|].
    destruct (request_try_run P c config s)
      as (rcalls & rest & _ & _ & _ & Hshape).
    subst c. rewrite fresh_applyRequestInterceptors in Hshape.
    cbn [fst] in Hshape. set (c := new_HttpClient base t) in *.
    assert (Hto : timeout_of c (authorized (world s) config) = t').
    { unfold timeout_of.
      destruct (authorized_fields (world s) config) as (_ & _ & _ & _ & ->).
      exact (Hover t' Hsome Hne). }
    rewrite Hto, He in Hshape. destruct Hshape as [_ Htry].
    destruct (request_rejects_when_try_fails P c config s e Htry)
      as (apiError & Hreq & Hdet).
    + destruct e; try discriminate Hname; reflexivity.
    + exists apiError, e. now repeat split.
Qed.

(** A listing that must answer within -1 ms is never sent. *)
Lemma timeout_zero_means_default_witness :
  delay_ok 10000
  /\ fetch_calls (events_since ready
                    (request healthy default_client hurried ready).2) = []
  /\ exists apiError, (request healthy default_client hurried ready).1
                      = Throw apiError.
Proof.
  assert (H : delay_ok 10000) by (unfold delay_ok; lia).
  split; [exact H|].
  destruct (timeout_zero_means_default healthy "/api" 10000 hurried ready H)
    as (_ & _ & Hbad).
  destruct (Hbad (-1) eq_refl) as (Hnone & apiError & e & Hreq & _).
  - unfold delay_ok. lia.
  - split; [exact Hnone|]. exists apiError. exact Hreq.
Defined.

(** ** [upload] and [download], whatever the world *)


(** X9.  [download] goes around the interceptors: no request or error
    interceptor is called.  It makes exactly one [fetch], of the full URL,
    without method, body or timeout, and always with an [Authorization]
    header made of [Bearer] and [String] of whatever is stored as token, so
    [Bearer null] when nothing is stored. *)
Theorem download_goes_around_interceptors (P : Platform) (c : HttpClient)
        (u : string) (filename : option string) (s : Sys) :
  let evs := events_since s (download P c u filename s).2 in
  request_calls evs = []
  /\ error_calls evs = []
  /\ fetch_calls evs = [(fullURL c u, download_options (world s))]
  /\ fo_signal (download_options (world s)) = None
  /\ (storageUtils_get STORAGE_KEYS.TOKEN (world s) = VNull ->
      fo_headers (download_options (world s))
      = {[ "Authorization" := "Bearer null" ]}).
Proof.
  unfold events_since, download, try_catch, bind, get_world, emit, lift,
    throw, ret.
  cbn [fst snd world trace].
  repeat download_step;
    cbn [fst snd world trace]; rewrite <- ?app_assoc, drop_app_length;
    cbn; (split; [reflexivity|]); (split; [reflexivity|]);
    (split; [reflexivity|]); (split; [reflexivity|]);
    intros Hnull; unfold download_options; cbn [fo_headers];
    now rewrite Hnull.
Qed.

(** X10.  A [download] that returns has created one object URL and revoked it.  A
    [download] that throws has revoked nothing and has shown the notice of a
    failed download as its last act; for a response with a status outside
    200..299 it throws [Download failed] and creates no object URL. *)
Theorem download_revokes_only_on_return (P : Platform) (c : HttpClient)
        (u : string) (filename : option string) (s : Sys) :
  let out := download P c u filename s in
  let evs := events_since s out.2 in
  match out.1 with
  | Ok _ => exists v, created_urls evs = [v] /\ revoked_urls evs = [v]
  | Throw _ =>
      revoked_urls evs = []
      /\ exists w1, world out.2 = message_error (VStr "文件下载失败") w1
  end
  /\ forall r w',
       fetch P (fullURL c u) (download_options (world s)) (world s) = (Ok r, w') ->
       ok r = false ->
       out.1 = Throw (mkError "Download failed") /\ created_urls evs = [].
Proof.
  cbv zeta. split.
  - unfold events_since, download, try_catch, bind, get_world, emit, lift,
      throw, ret.
    cbn [fst snd world trace].
    repeat download_step;
      cbn [fst snd world trace]; rewrite <- ?app_assoc, drop_app_length;
      cbn; eauto.
  - intros r w' Hfetch Hok. unfold download_options in Hfetch.
    unfold events_since, download, try_catch, bind, get_world, emit, lift,
      throw, ret.
    cbn [fst snd world trace]. unfold buildURL. rewrite Hfetch, Hok.
    cbn [negb fst snd world trace]. rewrite drop_app_length. now split.
Qed.

(** ** The bindings of [api.ts] *)

Lemma getUsers_url_fields (q : option UsersQuery) :
  getUsers_url q
  = "/users" ++ match users_query_fields q with
                | [] => ""
                | fields => "?" ++ usp_toString fields
                end.
Proof.
  assert (H : forall fields,
             (if negb (String.eqb (usp_toString fields) "")
              then "/users?" ++ usp_toString fields else "/users")
             = "/users" ++ match fields with
                           | [] => ""
                           | _ => "?" ++ usp_toString fields
                           end).
  { intros fields. destruct (String.eqb (usp_toString fields) "") eqn:E.
    - apply usp_toString_empty in E. now subst fields.
    - destruct fields; [discriminate E|reflexivity]. }
  unfold getUsers_url, users_query_fields.
  destruct q as [[cur size [s|]]|]; cbn [current pageSize search truthy];
    [| |exact (H [])];
    destruct (cur =? 0), (size =? 0); cbn [negb];
    try destruct (String.eqb s ""); cbn [negb app];
    match goal with |- context [usp_toString ?l] => exact (H l) end.
Qed.

(** X11.  [getUsers] asks for [/users] followed by a query that holds, in this
    order, the page unless it is 0, the page size unless it is 0 and the
    search text unless it is empty, and nothing for an absent argument;
    parsing the query gives these pairs back, the search text byte for
    byte. *)
Theorem getUsers_drops_zero_and_empty (q : option UsersQuery) :
  getUsers_url q
  = "/users" ++ match users_query_fields q with
                | [] => ""
                | fields => "?" ++ usp_toString fields
                end
  /\ usp_parse (usp_toString (users_query_fields q)) = users_query_fields q
  /\ forall P env,
       getUsers P env q
       = request P (http env) (descriptor (getUsers_url q) GET None VUndefined).
Proof.
  split; [apply getUsers_url_fields|].
  split; [apply usp_parse_toString|reflexivity].
Qed.

(** X12.  The other bindings of [api.ts], each one [fetch] through the default
    client: [getUser] and [getCurrentUser] a [GET], [deleteUser] a [DELETE],
    none with a body; [createUser], [updateUser] and [login] a [POST] or
    [PUT] with their argument as body; [logout] and [refreshToken] a [POST]
    without body.  A user id goes into the path as it is. *)
Theorem api_bindings_requests (P : Platform) (env : option string) (s : Sys)
        (id : string) (d : value) :
  let sent (r : Outcome Any * Sys) := fetch_calls (events_since s r.2) in
  let at_ (path : string) := API_BASE_URL env ++ path in
  let opts (m : Method) (b : option Body) :=
    {| fo_method := Some m; fo_headers := headers_for (world s) b;
       fo_signal := Some 10000; fo_body := b |} in
  sent (getUser P env id s) = [(at_ ("/users/" ++ id), opts GET None)]
  /\ sent (createUser P env d s) = [(at_ "/users", opts POST (body_of d))]
  /\ sent (updateUser P env id d s)
     = [(at_ ("/users/" ++ id), opts PUT (body_of d))]
  /\ sent (deleteUser P env id s) = [(at_ ("/users/" ++ id), opts DELETE None)]
  /\ sent (login P env d s) = [(at_ "/auth/login", opts POST (body_of d))]
  /\ sent (logout P env s) = [(at_ "/auth/logout", opts POST None)]
  /\ sent (getCurrentUser P env s) = [(at_ "/auth/me", opts GET None)]
  /\ sent (refreshToken P env s) = [(at_ "/auth/refresh", opts POST None)].
Proof.
  assert (Ht : delay_ok 10000) by (unfold delay_ok; lia).
  intros sent at_ opts. subst sent at_ opts. cbv beta.
  unfold getUser, createUser, updateUser, deleteUser, login, logout,
    getCurrentUser, refreshToken, http.
  unfold get, post, put, delete_. cbn [spread].
  rewrite !verb_fetch by assumption. repeat split.
Qed.

(** ** [storageUtils] *)

Lemma JSON_copy_clean : forall v, json_clean v = true -> JSON_copy v = Some v.
Proof.
  fix IH 1. intros [ | | b | n | s | items | fields | f | es ] H;
    try reflexivity; try discriminate H.
  - cbn [JSON_copy]. do 2 f_equal. cbn [json_clean] in H.
    revert H.
    refine ((fix inner (l : list value) :
               forallb json_clean l = true ->
               List.map (fun x => default VNull (JSON_copy x)) l = l :=
               match l with
               | [] => fun _ => eq_refl
               | x :: r => fun H => _
               end) items).
    cbn [forallb] in H. apply andb_true_iff in H as [Hx Hr].
    cbn [List.map]. rewrite (IH x Hx), (inner r Hr). reflexivity.
  - cbn [JSON_copy]. do 2 f_equal. cbn [json_clean] in H.
    revert H.
    refine ((fix inner (l : list (string * value)) :
               (fix clean_fields (l : list (string * value)) : bool :=
                  match l with
                  | [] => true
                  | (_, x) :: r => json_clean x && clean_fields r
                  end) l = true ->
               (fix copy_fields (l : list (string * value)) :=
                  match l with
                  | [] => []
                  | (k, x) :: r =>
                      match JSON_copy x with
                      | Some y => (k, y) :: copy_fields r
                      | None => copy_fields r
                      end
                  end) l = l :=
               match l with
               | [] => fun _ => eq_refl
               | (k, x) :: r => fun H => _
               end) fields).
    apply andb_true_iff in H as [Hx Hr].
    rewrite (IH x Hx), (inner r Hr). reflexivity.
Qed.

Lemma storageUtils_get_or_missing (key : string) (d : value) (w : World) :
  (forall v, localStorage w !! key <> Some (ParsesTo v)) ->
  storageUtils_get_or key d w = if truthy d then d else VNull.
Proof.
  intros H. unfold storageUtils_get_or, js_or.
  destruct (localStorage w !! key) as [[v|m]|]; [now destruct (H v)| |];
    reflexivity.
Qed.

(** X13.  A value JSON can hold that was stored with [set] is what [get] returns
    for its key, whatever default is passed and also when the value is
    falsy; the other keys read as before; and a [set] the storage has no
    room for changes nothing. *)
Theorem storage_returns_what_was_set (key : string) (v d : value) (w : World) :
  json_clean v = true ->
  storageUtils_get_or key d (storageUtils_set true key v w) = v
  /\ (forall k', k' <> key ->
                 storageUtils_get_or k' d (storageUtils_set true key v w)
                 = storageUtils_get_or k' d w)
  /\ storageUtils_set false key v w = w.
Proof.
  intros Hclean. unfold storageUtils_get_or, storageUtils_set, set_localStorage,
    stored_item.
  cbn [localStorage]. rewrite (JSON_copy_clean v Hclean). split; [|split].
  - now rewrite lookup_insert_eq.
  - intros k' Hne. now rewrite lookup_insert_ne by congruence.
  - reflexivity.
Qed.

(** A counter stored as 0 is read back as 0, not as the default 5. *)
Lemma storage_returns_what_was_set_witness :
  json_clean (VNum 0) = true
  /\ storageUtils_get_or "count" (VNum 5)
       (storageUtils_set true "count" (VNum 0) signed_out) = VNum 0.
Proof.
  split; [reflexivity|].
  exact (proj1 (storage_returns_what_was_set "count" (VNum 0) (VNum 5)
                  signed_out eq_refl)).
Defined.

(** X14.  For a key that was removed, for any key after [clear], and for a key
    that was set to [undefined], [get] returns the default when it is truthy
    and [null] otherwise, so a default of 0, of the empty string or of
    [false] is never returned.  Removing twice is removing once, and [get]
    without default is [get] with [undefined] as default. *)
Theorem storage_missing_key_gives_truthy_default_or_null (key : string)
        (d : value) (w : World) :
  let expected := if truthy d then d else VNull in
  storageUtils_get_or key d (storageUtils_remove key w) = expected
  /\ storageUtils_get_or key d (storageUtils_clear w) = expected
  /\ storageUtils_get_or key d (storageUtils_set true key VUndefined w) = expected
  /\ storageUtils_remove key (storageUtils_remove key w)
     = storageUtils_remove key w
  /\ storageUtils_get key w = storageUtils_get_or key VUndefined w.
Proof.
  cbv zeta. split; [|split; [|split; [|split]]].
  - apply storageUtils_get_or_missing. intros v.
    unfold storageUtils_remove, set_localStorage. cbn [localStorage].
    now rewrite lookup_delete_eq.
  - apply storageUtils_get_or_missing. intros v.
    unfold storageUtils_clear, set_localStorage. cbn [localStorage].
    now rewrite lookup_empty.
  - apply storageUtils_get_or_missing. intros v.
    unfold storageUtils_set, set_localStorage, stored_item. cbn [localStorage].
    rewrite lookup_insert_eq. discriminate.
  - unfold storageUtils_remove, set_localStorage. cbn [localStorage pathname
      navigations notices]. now rewrite delete_delete_eq.
  - unfold storageUtils_get, storageUtils_get_or.
    destruct (localStorage w !! key) as [[v|m]|]; reflexivity.
Qed.

(** X15.  The stored token drives the [Authorization] header: after [set] of a
    non-empty text under [auth_token] the default request interceptor sends
    [Bearer] and that text; after [remove] of that key, and after [clear], it
    returns the descriptor unchanged. *)
Theorem stored_token_drives_authorization (tok : string) (config : RequestConfig)
        (w : World) :
  tok <> "" ->
  (exists c' hs,
      (defaultRequestInterceptor config
         (storageUtils_set true STORAGE_KEYS.TOKEN (VStr tok) w)).1 = Ok c'
      /\ headers c' = Some hs
      /\ hs !! "Authorization" = Some ("Bearer " ++ tok))
  /\ (defaultRequestInterceptor config
        (storageUtils_remove STORAGE_KEYS.TOKEN w)).1 = Ok config
  /\ (defaultRequestInterceptor config (storageUtils_clear w)).1 = Ok config.
Proof.
  intros Hne. split; [|split].
  - unfold defaultRequestInterceptor.
    assert (Hget : storageUtils_get STORAGE_KEYS.TOKEN
                     (storageUtils_set true STORAGE_KEYS.TOKEN (VStr tok) w)
                   = VStr tok).
    { unfold storageUtils_get, storageUtils_set, set_localStorage, stored_item.
      cbn [localStorage JSON_copy]. now rewrite lookup_insert_eq. }
    rewrite Hget. cbn [truthy].
    destruct (String.eqb tok "") eqn:E; [apply String.eqb_eq in E; contradiction|].
    cbn [negb fst]. do 2 eexists. split; [reflexivity|].
    split; [reflexivity|]. apply lookup_insert_eq.
  - unfold defaultRequestInterceptor, storageUtils_get, storageUtils_remove,
      set_localStorage. cbn [localStorage]. now rewrite lookup_delete_eq.
  - unfold defaultRequestInterceptor, storageUtils_get, storageUtils_clear,
      set_localStorage. cbn [localStorage]. now rewrite lookup_empty.
Qed.

(** Signing in as [abc] on a page where nothing was stored. *)
Lemma stored_token_drives_authorization_witness :
  "abc" <> ""
  /\ exists c' hs,
       (defaultRequestInterceptor list_users
          (storageUtils_set true STORAGE_KEYS.TOKEN (VStr "abc") signed_out)).1
       = Ok c'
       /\ headers c' = Some hs
       /\ hs !! "Authorization" = Some "Bearer abc".
Proof.
  assert (H : "abc" <> "") by discriminate.
  split; [exact H|].
  exact (proj1 (stored_token_drives_authorization "abc" list_users signed_out H)).
Defined.

(** ** [urlUtils] *)

Lemma usp_toString_plain (x : ascii) (l : list (string * string)) :
  urlencoded_safe x = false -> Ascii.eqb "+" x = false ->
  Ascii.eqb "%" x = false -> Ascii.eqb "=" x = false ->
  Ascii.eqb "&" x = false -> occurs x (usp_toString l) = false.
Proof.
  intros Hs Hp Hc He Ha. induction l as [|kv l IH]; [reflexivity|].
  rewrite usp_toString_cons.
  assert (Hpiece : occurs x (piece_of kv) = false).
  { unfold piece_of. rewrite occurs_app, append_String, append_empty_l.
    cbn [occurs]. now rewrite He, !urlencode_plain. }
  destruct l; [exact Hpiece|].
  rewrite occurs_app, Hpiece. cbn [occurs orb]. now rewrite Ha, IH.
Qed.

Lemma strip_question_toString (l : list (string * string)) :
  strip_question (usp_toString l) = usp_toString l.
Proof.
  pose proof (usp_toString_plain "?" l eq_refl eq_refl eq_refl eq_refl eq_refl)
    as H.
  destruct (usp_toString l) as [|c r]; [reflexivity|].
  cbn [occurs] in H. apply orb_false_iff in H as [Hc _].
  unfold strip_question.
  destruct c as [[] [] [] [] [] [] [] []]; try reflexivity. discriminate Hc.
Qed.

Lemma fold_insert_lookup (l : list (string * string)) :
  forall (m : gmap string string) (k s : string),
    NoDup (map fst l) ->
    fold_left (fun result kv => <[kv.1 := kv.2]> result) l m !! k = Some s
    <-> In (k, s) l \/ (~ In k (map fst l) /\ m !! k = Some s).
Proof.
  induction l as [|[k0 v0] l IH]; intros m k s Hnd.
  - cbn. tauto.
  - cbn [fold_left map fst snd] in *. apply NoDup_cons in Hnd as [Hk0 Hnd].
    rewrite (IH _ k s Hnd). cbn [In]. split.
    + intros [Hin | [Hnot Hm]]; [tauto|].
      destruct (decide (k0 = k)) as [->|Hne].
      * rewrite lookup_insert_eq in Hm. injection Hm as ->. now left; left.
      * rewrite lookup_insert_ne in Hm by assumption. right. tauto.
    + intros [[[= -> ->] | Hin] | [Hnot Hm]].
      * right. split; [now rewrite <- list_elem_of_In|apply lookup_insert_eq].
      * now left.
      * right. split; [tauto|].
        rewrite lookup_insert_ne; [assumption|]. intros ->. tauto.
Qed.

Lemma fold_skip_proto (l : list (string * string)) (m : gmap string string) :
  ~ In "__proto__" (map fst l) ->
  fold_left (fun result kv =>
               if String.eqb kv.1 "__proto__" then result
               else <[kv.1 := kv.2]> result) l m
  = fold_left (fun result kv => <[kv.1 := kv.2]> result) l m.
Proof.
  revert m. induction l as [|[k v] l IH]; intros m Hno; [reflexivity|].
  cbn [fold_left map fst snd In] in *.
  destruct (String.eqb k "__proto__") eqn:E.
  - apply String.eqb_eq in E. tauto.
  - apply IH. tauto.
Qed.

Lemma kept_params_keys (ps : list (string * value)) (k : string) :
  In k (map fst (kept_params ps)) -> In k (map fst ps).
Proof.
  unfold kept_params. rewrite map_map. cbn. intros H.
  apply in_map_iff in H as (kv & <- & Hin). apply filter_In in Hin as [Hin _].
  now apply in_map.
Qed.

Lemma kept_params_NoDup (ps : list (string * value)) :
  NoDup (map fst ps) -> NoDup (map fst (kept_params ps)).
Proof.
  unfold kept_params. rewrite map_map. cbn.
  induction ps as [|kv ps IH]; intros Hnd; [constructor|].
  cbn [map] in Hnd. apply NoDup_cons in Hnd as [Hk Hnd].
  cbn [List.filter]. destruct (keeps_param kv); [|now apply IH].
  cbn [map]. apply NoDup_cons. split; [|now apply IH].
  rewrite list_elem_of_In in *. intros Hin. apply Hk.
  apply in_map_iff in Hin as (kv' & <- & Hin').
  apply filter_In in Hin' as [Hin' _]. now apply in_map.
Qed.

(** X16.  The query [buildQuery] writes for the entries of an object (distinct
    names, none of them [__proto__]) is read back by [parseQuery] as exactly
    the entries whose value is not [null], [undefined] or the empty string,
    each with [String] of its value; a leading [?] changes nothing; and
    [buildURL] appends that same query after a [?] when it is not empty. *)
Theorem parseQuery_reads_buildQuery_back (ps : list (string * value)) :
  NoDup (map fst ps) ->
  ~ In "__proto__" (map fst ps) ->
  (forall k s,
      parseQuery (buildQuery ps) !! k = Some s
      <-> exists v, In (k, v) ps /\ v <> VNull /\ v <> VUndefined
                    /\ v <> VStr "" /\ s = to_js_string v)
  /\ parseQuery ("?" ++ buildQuery ps) = parseQuery (buildQuery ps)
  /\ forall c u,
       buildURL c u (Some ps)
       = if String.eqb (buildQuery ps) "" then fullURL c u
         else fullURL c u ++ "?" ++ buildQuery ps.
Proof.
  intros Hnd Hproto. split; [|split].
  - intros k s. unfold parseQuery, buildQuery.
    rewrite searchParams_of_kept, strip_question_toString, usp_parse_toString.
    rewrite fold_skip_proto
      by (intros H; apply Hproto; now apply kept_params_keys).
    rewrite fold_insert_lookup by now apply kept_params_NoDup.
    rewrite <- kept_params_In. split; [|tauto].
    intros [H | [_ H]]; [assumption|]. now rewrite lookup_empty in H.
  - unfold parseQuery. rewrite append_String, append_empty_l.
    cbn [strip_question]. unfold buildQuery.
    now rewrite strip_question_toString.
  - intros c u. unfold buildURL, buildQuery.
    now destruct (String.eqb (usp_toString (searchParams_of ps)) "").
Qed.

(** A filter form with an empty field. *)
Lemma parseQuery_reads_buildQuery_back_witness :
  NoDup (map fst [("page", VNum 2); ("search", VStr ""); ("q", VStr "a b")])
  /\ ~ In "__proto__"
       (map fst [("page", VNum 2); ("search", VStr ""); ("q", VStr "a b")])
  /\ parseQuery ("?" ++ buildQuery [("page", VNum 2); ("search", VStr "");
                                    ("q", VStr "a b")])
     = parseQuery (buildQuery [("page", VNum 2); ("search", VStr "");
                               ("q", VStr "a b")]).
Proof.
  assert (H1 : NoDup (map fst [("page", VNum 2); ("search", VStr "");
                               ("q", VStr "a b")])).
  { cbn. repeat (apply NoDup_cons_2; [cbn; rewrite ?elem_of_cons, elem_of_nil;
      intros H; repeat destruct H as [H|H]; discriminate H || exact H|]).
    apply NoDup_nil_2. }
  assert (H2 : ~ In "__proto__"
                 (map fst [("page", VNum 2); ("search", VStr "");
                           ("q", VStr "a b")])).
  { cbn. intros [H|[H|[H|[]]]]; discriminate H. }
  split; [exact H1|]. split; [exact H2|].
  exact (proj1 (proj2 (parseQuery_reads_buildQuery_back _ H1 H2))).
Defined.

Lemma lastIndexOf_absent (c : ascii) (s : string) :
  occurs c s = false -> lastIndexOf c s = -1.
Proof.
  induction s as [|x r IH]; [reflexivity|].
  cbn [occurs lastIndexOf]. intros [Hx Hr]%orb_false_iff.
  rewrite (IH Hr), Hx. reflexivity.
Qed.

Lemma lastIndexOf_last (c : ascii) (a e : string) :
  occurs c e = false ->
  lastIndexOf c (a ++ String c e) = Z.of_nat (String.length a).
Proof.
  intros He. induction a as [|x a IH].
  - rewrite append_empty_l. cbn [lastIndexOf].
    rewrite (lastIndexOf_absent c e He), Ascii.eqb_refl. reflexivity.
  - rewrite append_String. cbn [lastIndexOf String.length]. rewrite IH.
    destruct (Z.leb_spec 0 (Z.of_nat (String.length a))); lia.
Qed.

Lemma drop_chars_app (a b : string) :
  drop_chars (String.length a) (a ++ b) = b.
Proof.
  induction a as [|x a IH]; [reflexivity|].
  rewrite append_String. exact IH.
Qed.

Lemma take_chars_app (a b : string) :
  take_chars (String.length a) (a ++ b) = a.
Proof.
  induction a as [|x a IH]; [now destruct b|].
  rewrite append_String. cbn [String.length take_chars]. now rewrite IH.
Qed.

Lemma drop_chars_all (n : nat) (s : string) :
  (String.length s <= n)%nat -> drop_chars n s = "".
Proof.
  revert n. induction s as [|x r IH]; intros [|n] H; try reflexivity.
  - cbn in H. lia.
  - cbn [drop_chars]. apply IH. cbn in H. lia.
Qed.

Lemma length_append (a b : string) :
  String.length (a ++ b) = (String.length a + String.length b)%nat.
Proof.
  induction a as [|x a IH]; [reflexivity|].
  rewrite append_String. cbn [String.length]. now rewrite IH.
Qed.

Lemma append_snoc (a : string) (c : ascii) (e : string) :
  (a ++ String c "") ++ e = a ++ String c e.
Proof.
  induction a as [|x a IH]; [reflexivity|].
  rewrite !append_String. now rewrite IH.
Qed.

(** X17.  For a file name shorter than 2^32: without a dot it has no extension
    and is its own name.  Cut at its last dot into [a], the dot and [e], its
    extension is [e], unless [a] is empty (a name that starts with its only
    dot has no extension); its name is [a], unless [e] is empty or holds a
    slash, in which case the name is returned whole.  So [.bashrc] has the
    empty name and the empty extension. *)
Theorem extension_is_what_follows_the_last_dot (f : string) :
  Z.of_nat (String.length f) < 4294967296 ->
  (occurs "." f = false -> getFileExtension f = "" /\ getFileName f = f)
  /\ forall a e,
       f = a ++ "." ++ e -> occurs "." e = false ->
       getFileExtension f = (if String.eqb a "" then "" else e)
       /\ getFileName f = (if String.eqb e "" || occurs "/" e then f else a).
Proof.
  intros Hlen. split.
  - intros Hno. unfold getFileExtension, getFileName.
    rewrite (lastIndexOf_absent "." f Hno). split; [|reflexivity].
    apply drop_chars_all. change (to_uint32 (-1 - 1)) with 4294967294. lia.
  - intros a e -> He. rewrite append_String, append_empty_l in *.
    unfold getFileExtension, getFileName.
    rewrite (lastIndexOf_last "." a e He).
    rewrite length_append in Hlen. cbn [String.length] in Hlen.
    split.
    + destruct a as [|x a].
      * cbn [String.eqb]. change (to_uint32 (Z.of_nat (String.length "") - 1))
          with 4294967295.
        apply drop_chars_all. rewrite length_append.
        cbn [String.length] in *. lia.
      * cbn [String.eqb]. unfold to_uint32.
        rewrite Z.mod_small by (cbn [String.length] in *; lia).
        replace (Z.to_nat (Z.of_nat (String.length (String x a)) - 1 + 2))
          with (String.length (String x a ++ ".")).
        -- rewrite <- (drop_chars_app (String x a ++ ".") e) at 2.
           now rewrite append_snoc.
        -- rewrite length_append. cbn [String.length]. lia.
    + destruct (Z.ltb_spec (Z.of_nat (String.length a)) 0); [lia|].
      replace (Z.to_nat (Z.of_nat (String.length a) + 1))
        with (String.length (a ++ ".")) by (rewrite length_append; cbn; lia).
      rewrite Nat2Z.id.
      assert (Hrest : drop_chars (String.length (a ++ ".")) (a ++ String "." e) = e)
        by (rewrite <- (append_snoc a "." e); apply drop_chars_app).
      rewrite Hrest, take_chars_app.
      destruct (String.eqb e ""), (occurs "/" e); reflexivity.
Qed.

(** [archive.tar.gz] is [archive.tar] with extension [gz]. *)
Lemma extension_is_what_follows_the_last_dot_witness :
  Z.of_nat (String.length "archive.tar.gz") < 4294967296
  /\ getFileExtension "archive.tar.gz" = "gz"
  /\ getFileName "archive.tar.gz" = "archive.tar".
Proof.
  assert (H : Z.of_nat (String.length "archive.tar.gz") < 4294967296)
    by (cbn; lia).
  split; [exact H|].
  destruct (extension_is_what_follows_the_last_dot "archive.tar.gz" H)
    as [_ Hcut].
  exact (Hcut "archive.tar" "gz" eq_refl eq_refl).
Defined.

(** ** [stringUtils] *)

Lemma upper_lower_letter (c : ascii) :
  is_upper c = true ->
  is_lower (letter_toLowerCase c) = true
  /\ letter_toUpperCase (letter_toLowerCase c) = c
  /\ Ascii.eqb c "_" = false.
Proof.
  destruct c as [[] [] [] [] [] [] [] []]; vm_compute; intros H;
    try discriminate H; repeat split.
Qed.

Lemma lower_upper_letter (d : ascii) :
  is_lower d = true ->
  is_upper (letter_toUpperCase d) = true
  /\ letter_toLowerCase (letter_toUpperCase d) = d.
Proof.
  destruct d as [[] [] [] [] [] [] [] []]; vm_compute; intros H;
    try discriminate H; repeat split.
Qed.

Lemma underscore_not_upper : is_upper "_" = false.
Proof. reflexivity. Qed.

Lemma snakeToCamel_cons (c : ascii) (r : string) :
  snakeToCamel (String c r) =
  match r with
  | String d r' =>
      if Ascii.eqb c "_" && is_lower d
      then String (letter_toUpperCase d) (snakeToCamel r')
      else String c (snakeToCamel r)
  | EmptyString => String c EmptyString
  end.
Proof. reflexivity. Qed.

(** X18.  A camel-case name is read back from its snake-case form, provided it
    holds no [_] followed at once by a lower-case letter. *)
Theorem snake_form_reads_back (str : string) :
  has_snake_pair str = false ->
  snakeToCamel (camelToSnake str) = str.
Proof.
  induction str as [|c r IH]; [reflexivity|].
  intros H. cbn [has_snake_pair] in H.
  apply orb_false_iff in H as [Hhead Hr]. specialize (IH Hr).
  cbn [camelToSnake]. destruct (is_upper c) eqn:Huc.
  - destruct (upper_lower_letter c Huc) as (Hl & Hback & _).
    rewrite snakeToCamel_cons. cbn [Ascii.eqb Bool.eqb andb].
    change (Ascii.eqb "_" "_") with true. cbn [andb].
    now rewrite Hl, Hback, IH.
  - rewrite snakeToCamel_cons.
    destruct r as [|d r']; [reflexivity|].
    cbn [camelToSnake] in *. destruct (is_upper d) eqn:Hud.
    + replace (Ascii.eqb c "_" && is_lower "_") with false
        by (now rewrite andb_false_r).
      now rewrite IH.
    + rewrite Hhead. now rewrite IH.
Qed.

Lemma snake_form_reads_back_witness :
  has_snake_pair "createdAt_ID" = false
  /\ camelToSnake "createdAt_ID" = "created_at__i_d"
  /\ snakeToCamel (camelToSnake "createdAt_ID") = "createdAt_ID".
Proof.
  split; [reflexivity|]. split; [reflexivity|].
  apply (snake_form_reads_back "createdAt_ID"). reflexivity.
Defined.

(** X19.  A snake-case name without capital letters is read back from its
    camel-case form. *)
Theorem camel_form_reads_back (str : string) :
  has_upper str = false ->
  camelToSnake (snakeToCamel str) = str.
Proof.
  assert (Hboth : forall n s, (String.length s <= n)%nat ->
            has_upper s = false -> camelToSnake (snakeToCamel s) = s).
  { induction n as [|n IH]; intros [|c r] Hn Hup; try reflexivity;
      cbn [String.length] in Hn; [lia|].
    cbn [has_upper] in Hup. apply orb_false_iff in Hup as [Hc Hr].
    rewrite snakeToCamel_cons. destruct r as [|d r'].
    - cbn [camelToSnake]. now rewrite Hc.
    - cbn [has_upper] in Hr. apply orb_false_iff in Hr as [Hd Hr'].
      destruct (Ascii.eqb c "_" && is_lower d) eqn:Hpair.
      + apply andb_true_iff in Hpair as [Hu Hl].
        apply Ascii.eqb_eq in Hu. subst c.
        destruct (lower_upper_letter d Hl) as (Hup' & Hback).
        cbn [camelToSnake]. rewrite Hup', Hback.
        cbn [String.length] in Hn.
        now rewrite (IH r' ltac:(lia) Hr').
      + cbn [camelToSnake]. rewrite Hc.
        assert (Hr : has_upper (String d r') = false)
          by (cbn [has_upper]; now rewrite Hd, Hr').
        now rewrite (IH (String d r') ltac:(lia) Hr). }
  intros H. exact (Hboth (String.length str) str (le_n _) H).
Qed.

Lemma camel_form_reads_back_witness :
  has_upper "created__at_" = false
  /\ snakeToCamel "created__at_" = "created_At_"
  /\ camelToSnake (snakeToCamel "created__at_") = "created__at_".
Proof.
  split; [reflexivity|]. split; [reflexivity|].
  apply (camel_form_reads_back "created__at_"). reflexivity.
Defined.

(** [<] with a [>] somewhere after it. *)
Lemma stripHtml_from_occurs (x : ascii) (html : string) (inside : bool) :
  occurs x (stripHtml_from inside html) = true -> occurs x html = true.
Proof.
  revert inside. induction html as [|c r IH]; intros inside; [now destruct inside|].
  cbn [stripHtml_from occurs]. destruct inside.
  - destruct (Ascii.eqb c ">"); intros H%IH; rewrite H; apply orb_true_r.
  - destruct (Ascii.eqb c "<" && occurs ">" r).
    + intros H%IH. rewrite H. apply orb_true_r.
    + cbn [occurs]. intros [H|H%IH]%orb_true_iff; rewrite H;
        [reflexivity | apply orb_true_r].
Qed.

Lemma stripHtml_from_no_tag (html a b c : string) (inside : bool) :
  stripHtml_from inside html <> a ++ String "<" (b ++ String ">" c).
Proof.
  revert inside a. induction html as [|x r IH]; intros inside a.
  - destruct inside, a; discriminate.
  - cbn [stripHtml_from]. destruct inside.
    + destruct (Ascii.eqb x ">"); apply IH.
    + destruct (Ascii.eqb x "<" && occurs ">" r) eqn:Hopen; [apply IH|].
      destruct a as [|y a].
      * rewrite append_empty_l. intros [= -> Hrest].
        cbn [andb] in Hopen. change (Ascii.eqb "<" "<") with true in Hopen.
        cbn [andb] in Hopen.
        assert (Hgt : occurs ">" (stripHtml_from false r) = true).
        { rewrite Hrest, occurs_app. cbn [occurs].
          change (Ascii.eqb ">" ">") with true. cbn [orb].
          apply orb_true_r. }
        apply stripHtml_from_occurs in Hgt. congruence.
      * rewrite append_String. intros [= _ Hrest]. exact (IH false a Hrest).
Qed.

Lemma stripHtml_from_plain (html : string) :
  occurs "<" html = false -> stripHtml_from false html = html.
Proof.
  induction html as [|x r IH]; [reflexivity|].
  cbn [occurs stripHtml_from]. intros [Hx Hr]%orb_false_iff.
  rewrite Hx. cbn [andb]. now rewrite (IH Hr).
Qed.

Lemma stripHtml_from_again (html : string) (inside : bool) :
  stripHtml_from false (stripHtml_from inside html) = stripHtml_from inside html.
Proof.
  revert inside. induction html as [|x r IH]; intros inside; [now destruct inside|].
  cbn [stripHtml_from]. destruct inside.
  - destruct (Ascii.eqb x ">"); apply IH.
  - destruct (Ascii.eqb x "<" && occurs ">" r) eqn:Hopen; [apply IH|].
    cbn [stripHtml_from].
    destruct (Ascii.eqb x "<" && occurs ">" (stripHtml_from false r)) eqn:Hopen'.
    + apply andb_true_iff in Hopen' as [Hx Hgt].
      apply stripHtml_from_occurs in Hgt. now rewrite Hx, Hgt in Hopen.
    + now rewrite IH.
Qed.

(** X20.  What [stripHtml] returns holds no tag: it is never of the form
    [a<b>c].  Stripping it again changes nothing, and a text without [<] is
    returned as it is. *)
Theorem stripHtml_leaves_no_tag (html : string) :
  (forall a b c, stripHtml html <> a ++ "<" ++ b ++ ">" ++ c)
  /\ stripHtml (stripHtml html) = stripHtml html
  /\ (occurs "<" html = false -> stripHtml html = html).
Proof.
  split; [|split].
  - intros a b c. rewrite !append_String, !append_empty_l.
    apply stripHtml_from_no_tag.
  - apply stripHtml_from_again.
  - apply stripHtml_from_plain.
Qed.

(** ** [arrayUtils.paginate] *)

Lemma paginate_window {A} (arr : list A) (page limit : Z) :
  1 <= page -> 0 <= limit ->
  paginate arr page limit =
  take (Z.to_nat limit) (drop (Z.to_nat ((page - 1) * limit)) arr).
Proof.
  intros Hp Hl. unfold paginate, slice.
  set (start := (page - 1) * limit).
  assert (Hs : 0 <= start) by (subst start; nia).
  destruct (Z.ltb_spec start 0); [lia|].
  destruct (Z.ltb_spec (start + limit) 0); [lia|].
  destruct (Z.le_gt_cases start (Z.of_nat (length arr))) as [Hin|Hout].
  - rewrite (Z.min_l start) by lia.
    rewrite <- (take_ge (drop (Z.to_nat start) arr)
                  (Z.to_nat (Z.of_nat (length arr) - start)))
      by (rewrite length_drop; lia).
    rewrite !take_take. f_equal. lia.
  - rewrite !drop_ge by lia. now rewrite !take_nil.
Qed.

(** X21.  With a positive page size the pages follow one another without gap or
    overlap: pages 1 to [n] together are the first [n * limit] items, so
    they are the whole array once [n * limit] reaches its length.  No page
    is longer than [limit], and a page that starts past the end is empty. *)
Theorem pages_tile_the_array {A} (arr : list A) (limit : Z) (n : nat) :
  0 < limit ->
  first_pages arr n limit = take (n * Z.to_nat limit) arr
  /\ (Z.of_nat (length arr) <= Z.of_nat n * limit ->
      first_pages arr n limit = arr)
  /\ (forall page, 1 <= page ->
        Z.of_nat (length (paginate arr page limit)) <= limit
        /\ (Z.of_nat (length arr) <= (page - 1) * limit ->
            paginate arr page limit = [])).
Proof.
  intros Hl.
  assert (Htile : first_pages arr n limit = take (n * Z.to_nat limit) arr).
  { unfold first_pages. induction n as [|n IH]; [reflexivity|].
    rewrite seq_S, map_app, concat_app, IH. cbn [map concat Nat.add].
    rewrite app_nil_r, paginate_window by lia.
    replace (Z.to_nat ((Z.of_nat (S n) - 1) * limit))
      with (n * Z.to_nat limit)%nat by nia.
    rewrite take_take_drop. f_equal. lia. }
  split; [exact Htile|]. split.
  - intros Hall. rewrite Htile. apply take_ge. nia.
  - intros page Hp. rewrite paginate_window by lia. split.
    + rewrite length_take. lia.
    + intros Hpast. rewrite drop_ge by lia. apply take_nil.
Qed.

(** Seven items in pages of three: 3 + 3 + 1. *)
Lemma pages_tile_the_array_witness :
  0 < 3
  /\ paginate [1; 2; 3; 4; 5; 6; 7] 3 3 = [7]
  /\ first_pages [1; 2; 3; 4; 5; 6; 7] 3 3 = [1; 2; 3; 4; 5; 6; 7].
Proof.
  assert (H : 0 < 3) by lia.
  split; [exact H|]. split; [reflexivity|].
  destruct (pages_tile_the_array [1; 2; 3; 4; 5; 6; 7] 3 3 H) as (_ & Hall & _).
  apply Hall. cbn. lia.
Defined.

(** X22.  Page 0 is empty, and a negative page is a page counted from the end
    of the array: page [-k] is what page [k + 1] of the reversed array holds,
    put back in order. *)
Theorem pages_below_one {A} (arr : list A) (limit : Z) (k : Z) :
  0 < limit -> 0 < k ->
  paginate arr 0 limit = []
  /\ paginate arr (- k) limit = rev (paginate (rev arr) (k + 1) limit).
Proof.
  intros Hl Hk. split.
  - unfold paginate, slice.
    destruct (Z.ltb_spec ((0 - 1) * limit) 0); [|lia].
    destruct (Z.ltb_spec ((0 - 1) * limit + limit) 0); [lia|].
    replace (Z.to_nat _) with 0%nat by lia. reflexivity.
  - rewrite (paginate_window (rev arr)) by lia.
    unfold paginate, slice.
    destruct (Z.ltb_spec ((- k - 1) * limit) 0); [|nia].
    destruct (Z.ltb_spec ((- k - 1) * limit + limit) 0); [|nia].
    rewrite skipn_rev, firstn_rev, rev_involutive, length_take.
    rewrite skipn_firstn_comm. f_equal; [|f_equal]; nia.
Qed.

(** Ten items, page size 3: page -1 is the second block of three from the
    end. *)
Lemma pages_below_one_witness :
  0 < 3 /\ 0 < 1
  /\ paginate [1; 2; 3; 4; 5; 6; 7; 8; 9; 10] 0 3 = []
  /\ paginate [1; 2; 3; 4; 5; 6; 7; 8; 9; 10] (- (1)) 3 = [5; 6; 7].
Proof.
  assert (H3 : 0 < 3) by lia. assert (H1 : 0 < 1) by lia.
  split; [exact H3|]. split; [exact H1|].
  destruct (pages_below_one [1; 2; 3; 4; 5; 6; 7; 8; 9; 10] 3 1 H3 H1)
    as [Hzero Hneg].
  split; [exact Hzero|]. rewrite Hneg. reflexivity.
Defined.

(** ** [formatUtils.timeAgo] *)

(** X23.  For a date [d] milliseconds before now, [timeAgo] counts whole units of
    the largest unit that fits, where a minute is 60000 ms, an hour 60
    minutes, a day 24 hours, a month 30 days and a year 12 such months, that
    is 360 days: the floors taken one after the other lose nothing.  Below
    one minute, and for a date in the future, it answers [刚刚], as it does
    for a date that cannot be read.  The distance is taken within 2^53 ms,
    where the subtraction of the two time values is exact. *)
Theorem timeAgo_counts_whole_units (t d : Z) :
  Z.abs d <= 9007199254740992 ->
  (d < 60000 -> timeAgo (t + d) (Some t) = "刚刚")
  /\ (60000 <= d < 3600000 ->
      timeAgo (t + d) (Some t) = pretty (d / 60000) ++ "分钟前")
  /\ (3600000 <= d < 86400000 ->
      timeAgo (t + d) (Some t) = pretty (d / 3600000) ++ "小时前")
  /\ (86400000 <= d < 2592000000 ->
      timeAgo (t + d) (Some t) = pretty (d / 86400000) ++ "天前")
  /\ (2592000000 <= d < 31104000000 ->
      timeAgo (t + d) (Some t) = pretty (d / 2592000000) ++ "个月前")
  /\ (31104000000 <= d ->
      timeAgo (t + d) (Some t) = pretty (d / 31104000000) ++ "年前")
  /\ timeAgo (t + d) None = "刚刚".
Proof.
  intros _. unfold timeAgo. replace (t + d - t) with d by lia.
  assert (Hmin : d / 1000 / 60 = d / 60000)
    by (rewrite Z.div_div by lia; reflexivity).
  assert (Hhour : d / 1000 / 60 / 60 = d / 3600000)
    by (rewrite Hmin, Z.div_div by lia; reflexivity).
  assert (Hday : d / 1000 / 60 / 60 / 24 = d / 86400000)
    by (rewrite Hhour, Z.div_div by lia; reflexivity).
  assert (Hmonth : d / 1000 / 60 / 60 / 24 / 30 = d / 2592000000)
    by (rewrite Hday, Z.div_div by lia; reflexivity).
  assert (Hyear : d / 1000 / 60 / 60 / 24 / 30 / 12 = d / 31104000000)
    by (rewrite Hmonth, Z.div_div by lia; reflexivity).
  rewrite Hyear, Hmonth, Hday, Hhour, Hmin.
  repeat split; intros;
    repeat match goal with
           | |- context [0 <? ?q] =>
               destruct (Z.ltb_spec 0 q); try (exfalso; Z.div_mod_to_equations; lia)
           end;
    reflexivity.
Qed.

(** 359 days back is 11 months, 364 days back is one year. *)
Lemma timeAgo_counts_whole_units_witness :
  Z.abs 31449600000 <= 9007199254740992
  /\ timeAgo (1700000000000 + 31017600000) (Some 1700000000000) = "11个月前"
  /\ timeAgo (1700000000000 + 31449600000) (Some 1700000000000) = "1年前".
Proof.
  assert (H : Z.abs 31449600000 <= 9007199254740992) by (cbn; lia).
  split; [exact H|]. split; [reflexivity|].
  destruct (timeAgo_counts_whole_units 1700000000000 31449600000 H)
    as (_ & _ & _ & _ & _ & Hyear & _).
  rewrite Hyear by lia. reflexivity.
Defined.

(** ** A response interceptor added after construction *)

Lemma response_inputs_app (a b : list Event) :
  response_inputs (a ++ b) = (response_inputs a ++ response_inputs b)%list.
Proof.
  induction a as [|ev a IH]; [reflexivity|].
  destruct ev; cbn; now rewrite IH.
Qed.

Lemma response_inputs_of_ecalls (calls : list ErrorCall) :
  response_inputs (map ev_of_ecall calls) = [].
Proof. induction calls as [|x r IH]; [reflexivity|exact IH]. Qed.

Lemma added_request_try (P : Platform) (base : string) (t : Z)
      (i : ResponseInterceptor) (config : RequestConfig) (s : Sys)
      (signal : Z) :
  let c := addResponseInterceptor i (new_HttpClient base t) in
  AbortSignal_timeout (timeout_of c config) = Ok signal ->
  let target := buildURL c (url config) (params config) in
  let opts := fetchOptions_of (authorized (world s) config) signal in
  let tr := (trace s ++ [EvRequestInterceptor 0 config
                           (Ok (authorized (world s) config));
                         EvFetch target opts])%list in
  request_try P c config s
  = match fetch P target opts (world s) with
    | (Ok r, w') =>
        match defaultResponseInterceptor (AResponse r) w' with
        | (Ok a, w'') =>
            ((i a w'').1,
             {| world := (i a w'').2;
                trace := (tr ++ [EvResponseInterceptor 0 (AResponse r) (Ok a);
                                 EvResponseInterceptor 1 a (i a w'').1])%list |})
        | (Throw e, w'') =>
            (Throw e,
             {| world := w'';
                trace := (tr ++ [EvResponseInterceptor 0 (AResponse r)
                                   (Throw e)])%list |})
        end
    | (Throw e, w') => (Throw e, {| world := w'; trace := tr |})
    end.
Proof.
  intros c Hsig target opts tr. subst c target opts tr.
  unfold request_try. unfold bind at 1.
  change (applyRequestInterceptors (addResponseInterceptor i (new_HttpClient base t)))
    with (applyRequestInterceptors (new_HttpClient base t)).
  rewrite fresh_applyRequestInterceptors.
  destruct (authorized_fields (world s) config) as (Hu & _ & Hp & _ & Ht).
  unfold timeout_of in *. rewrite Ht, Hu, Hp.
  unfold bind at 1. rewrite Hsig. cbn [of_outcome]. unfold ret at 1.
  unfold bind, emit, lift. cbn [world trace].
  rewrite <- app_assoc. cbn [app].
  destruct (fetch P _ _ (world s)) as [[r|e] w']; [|reflexivity].
  unfold applyResponseInterceptors.
  cbn [new_HttpClient responseInterceptors addRequestInterceptor
       addResponseInterceptor addErrorInterceptor app
       applyResponseInterceptors_from].
  unfold bind, observed, ret. cbn [world trace].
  destruct (defaultResponseInterceptor (AResponse r) w') as [[a|e] w''];
    [|reflexivity].
  cbn [world trace].
  destruct (i a w'') as [[a'|e'] w3]; cbn [fst snd world trace];
    rewrite <- !app_assoc; cbn [app]; reflexivity.
Qed.

(** X7.  A response interceptor added to a new client runs after the default
    one.  For a response with a status in 200..299 and a JSON body it is
    handed the decoded body, not the response, and what it returns is what
    the caller gets; what it throws reaches the caller as the [details] of
    the normalized error.  For any other response the default interceptor
    has thrown and the added one is not called. *)
Theorem added_response_interceptor_gets_decoded_body (P : Platform)
        (base : string) (t : Z) (i : ResponseInterceptor)
        (config : RequestConfig) (s : Sys) (signal : Z) (r : Response)
        (w1 : World) :
  let c := addResponseInterceptor i (new_HttpClient base t) in
  AbortSignal_timeout (timeout_of c config) = Ok signal ->
  fetch P (buildURL c (url config) (params config))
        (fetchOptions_of (authorized (world s) config) signal) (world s)
  = (Ok r, w1) ->
  let out := request P c config s in
  let seen := response_inputs (events_since s out.2) in
  (forall d, ok r = true -> body r = ParsesTo d ->
     seen = [(0%nat, AResponse r); (1%nat, AValue d)]
     /\ (forall a w2, i (AValue d) w1 = (Ok a, w2) ->
           out.1 = Ok a /\ world out.2 = w2)
     /\ (forall e w2, i (AValue d) w1 = (Throw e, w2) -> is_nullish e = false ->
           exists apiError,
             out.1 = Throw apiError /\ get_prop apiError "details" = Some e))
  /\ ((ok r = false \/ exists msg, body r = Malformed msg) ->
      seen = [(0%nat, AResponse r)] /\ exists e, out.1 = Throw e).
Proof.
  intros c Hsig Hfetch out seen.
  pose proof (added_request_try P base t i config s signal Hsig) as Htry.
  cbv zeta in Htry. fold c in Htry. rewrite Hfetch in Htry.
  assert (Hfail : forall e s1,
            request_try P c config s = (Throw e, s1) ->
            is_nullish e = false ->
            response_inputs (events_since s s1) = seen
            /\ exists apiError,
                 out.1 = Throw apiError
                 /\ get_prop apiError "details" = Some e).
  { intros e s1 Hthrow Hnn.
    destruct (request_failure_normalized P c config s s1 e Hthrow Hnn)
      as (code & msg & calls & s' & _ & _ & Hreq & Htr & _).
    cbv zeta in Hreq. subst seen out. rewrite Hreq. cbn [fst snd]. split.
    - unfold events_since. rewrite Htr.
      destruct (request_try_run P c config s) as (rcalls & rest & Htr1 & _).
      rewrite Hthrow in Htr1. cbn [snd] in Htr1. rewrite Htr1.
      rewrite <- !app_assoc, !drop_app_length.
      now rewrite !response_inputs_app, response_inputs_of_ecalls, !app_nil_r.
    - eexists. split; reflexivity. }
  split.
  - intros d Hok Hbody. unfold defaultResponseInterceptor in Htry.
    rewrite Hbody, Hok in Htry. cbn [negb] in Htry.
    destruct (i (AValue d) w1) as [[a|e] w2] eqn:Hi; cbn [fst snd] in Htry.
    + assert (Hout : out = (Ok a, (request_try P c config s).2))
        by (subst out; unfold request, try_catch; now rewrite Htry).
      split; [|split].
      * subst seen. rewrite Hout, Htry. cbn [snd]. unfold events_since.
        cbn [trace]. rewrite <- !app_assoc, drop_app_length. reflexivity.
      * intros a' w2' [= <- <-]. rewrite Hout, Htry. now split.
      * intros e w2' [=].
    + split; [|split].
      * destruct (is_nullish e) eqn:Hnn.
        -- destruct (request_failure_nullish P c config s _ e Htry Hnn)
             as [Hreq _].
           subst seen out. rewrite Hreq. cbn [snd]. unfold events_since.
           cbn [trace]. rewrite <- !app_assoc, drop_app_length. reflexivity.
        -- destruct (Hfail e _ Htry Hnn) as [<- _]. unfold events_since.
           cbn [trace]. rewrite <- !app_assoc, drop_app_length. reflexivity.
      * intros a w2' [=].
      * intros e' w2' [= <- <-] Hnn. exact (proj2 (Hfail e _ Htry Hnn)).
  - intros Hbad.
    assert (Hthrow : exists e, defaultResponseInterceptor (AResponse r) w1
                               = (Throw e, w1) /\ is_nullish e = false).
    { unfold defaultResponseInterceptor.
      destruct Hbad as [Hnok|[msg Hmal]].
      - destruct (body r) as [d|msg]; [|eexists; split; reflexivity].
        rewrite Hnok. cbn [negb].
        destruct (get_prop d "message"); eexists; split; reflexivity.
      - rewrite Hmal. eexists; split; reflexivity. }
    destruct Hthrow as (e & He & Hnn). rewrite He in Htry.
    destruct (Hfail e _ Htry Hnn) as [<- (apiError & Hout & _)]. split.
    + unfold events_since. cbn [trace].
      rewrite <- !app_assoc, drop_app_length. reflexivity.
    + now exists apiError.
Qed.

(** The [healthy] server and a client that unwraps the envelope: the caller
    gets the [data] field. *)
Lemma added_response_interceptor_gets_decoded_body_witness :
  (request healthy (addResponseInterceptor unwrapping default_client)
           list_users ready).1
  = Ok (AValue (VArr []))
  /\ response_inputs
       (events_since ready
          (request healthy (addResponseInterceptor unwrapping default_client)
                   list_users ready).2)
     = [(0%nat, AResponse {| status := 200;
                             body := ParsesTo (envelope (VArr [])) |});
        (1%nat, AValue (envelope (VArr [])))].
Proof.
  destruct (added_response_interceptor_gets_decoded_body healthy "/api" 10000
              unwrapping list_users ready 10000
              {| status := 200; body := ParsesTo (envelope (VArr [])) |}
              (world ready) eq_refl eq_refl) as [Hok _].
  destruct (Hok (envelope (VArr [])) eq_refl eq_refl) as (Hseen & Hret & _).
  split; [|exact Hseen].
  exact (proj1 (Hret (AValue (VArr [])) (world ready) eq_refl)).
Defined.

(** ** [arrayUtils.groupBy] *)

Section GroupByFacts.

Context {T : Type} (group_of : T -> string).

Lemma members_app (g : string) (a b : list T) :
  members group_of g (a ++ b)
  = (members group_of g a ++ members group_of g b)%list.
Proof. apply List.filter_app. Qed.

Lemma members_inherited (g : string) (l : list T) :
  Forall (fun item => inherited (group_of item) = false) l ->
  inherited g = true -> members group_of g l = [].
Proof.
  intros Hl Hg. induction Hl as [|x l Hx _ IH]; [reflexivity|].
  unfold members in *. cbn [List.filter].
  destruct (String.eqb_spec (group_of x) g) as [E|_]; [congruence|exact IH].
Qed.

Lemma groupBy_from_collects (rest : list T) :
  forall (seen : list T) (groups : gmap string (list T)),
  (forall g, groups !! g = listed (members group_of g seen)) ->
  Forall (fun item => inherited (group_of item) = false) seen ->
  (Forall (fun item => inherited (group_of item) = false) rest ->
   exists m, groupBy_from group_of rest groups = Ok m
             /\ forall g, m !! g = listed (members group_of g (seen ++ rest)))
  /\ (Exists (fun item => inherited (group_of item) = true) rest ->
      exists e, groupBy_from group_of rest groups = Throw e).
Proof.
  induction rest as [|item rest IH]; intros seen groups Hinv Hseen.
  - split.
    + intros _. exists groups. split; [reflexivity|].
      intros g. now rewrite app_nil_r.
    + intros H. inversion H.
  - cbn [groupBy_from].
    assert (Hstep : forall l',
                l' = (members group_of (group_of item) seen ++ [item])%list ->
                forall g, <[group_of item := l']> groups !! g
                          = listed (members group_of g (seen ++ [item]))).
    { intros l' -> g. rewrite members_app.
      change (members group_of g [item])
        with (if String.eqb (group_of item) g then [item] else []).
      destruct (String.eqb_spec (group_of item) g) as [<-|Hne].
      - rewrite lookup_insert_eq.
        now destruct (members group_of (group_of item) seen).
      - rewrite lookup_insert_ne by exact Hne. now rewrite app_nil_r. }
    assert (Hseen' : inherited (group_of item) = false ->
              Forall (fun item => inherited (group_of item) = false)
                     (seen ++ [item])).
    { intros H. apply Forall_app. split; [exact Hseen|]. now constructor. }
    destruct (groups !! group_of item) as [l|] eqn:Hlook.
    + assert (Hl : l = members group_of (group_of item) seen).
      { rewrite Hinv in Hlook.
        destruct (members group_of (group_of item) seen); now inversion Hlook. }
      assert (Hok : inherited (group_of item) = false).
      { destruct (inherited (group_of item)) eqn:E; [|reflexivity].
        rewrite (members_inherited _ _ Hseen E) in Hl. subst l.
        rewrite Hinv, (members_inherited _ _ Hseen E) in Hlook.
        discriminate Hlook. }
      destruct (IH (seen ++ [item])%list
                   (<[group_of item := (l ++ [item])%list]> groups)
                   (Hstep _ (f_equal (fun x => (x ++ [item])%list) Hl))
                   (Hseen' Hok)) as [IHok IHbad].
      rewrite <- app_assoc in IHok. split.
      * intros Hall. apply IHok. now inversion Hall.
      * intros Hex. apply IHbad. inversion Hex; [congruence|assumption].
    + destruct (inherited (group_of item)) eqn:Hinh.
      * split; [|intros _; eexists; reflexivity].
        intros Hall. inversion Hall. congruence.
      * assert (Hnone : members group_of (group_of item) seen = []).
        { rewrite Hinv in Hlook.
          now destruct (members group_of (group_of item) seen). }
        destruct (IH (seen ++ [item])%list (<[group_of item := [item]]> groups)
                     (Hstep _ (f_equal (fun x => (x ++ [item])%list)
                                       (eq_sym Hnone)))
                     (Hseen' eq_refl)) as [IHok IHbad].
        rewrite <- app_assoc in IHok. split.
        -- intros Hall. apply IHok. now inversion Hall.
        -- intros Hex. apply IHbad. inversion Hex; [congruence|assumption].
Qed.

End GroupByFacts.

(** X24.  When no item falls into a group named like a property every object
    inherits ([constructor], [toString], [__proto__], ...), [groupBy] returns
    an object that has, under each group that occurs, exactly the items of
    that group in their order in the array, and nothing under any other
    name.  When some item falls into such a group, [groupBy] throws. *)
Theorem groupBy_lists_each_group_in_order {T : Type} (group_of : T -> string)
        (arr : list T) :
  (Forall (fun item => inherited (group_of item) = false) arr ->
   exists m, groupBy group_of arr = Ok m
             /\ forall g, m !! g = listed (members group_of g arr))
  /\ (Exists (fun item => inherited (group_of item) = true) arr ->
      exists e, groupBy group_of arr = Throw e).
Proof.
  unfold groupBy.
  apply (groupBy_from_collects group_of arr [] ∅); [|constructor].
  intros g. apply lookup_empty.
Qed.

(** ** [arrayUtils.toTree] and [arrayUtils.fromTree] *)

Lemma same_parent_spec (a b : option Z) : same_parent a b = true <-> a = b.
Proof.
  destruct a as [x|], b as [y|]; cbn; try (split; congruence).
  rewrite Z.eqb_eq. split; congruence.
Qed.

Lemma map_injective_on {A B} (f : A -> B) (l : list A) (x y : A) :
  List.NoDup (map f l) -> In x l -> In y l -> f x = f y -> x = y.
Proof.
  induction l as [|a l IH]; [intros _ []|].
  cbn [map]. intros Hnd Hx Hy E. inversion Hnd as [|? ? Hnotin Hnd']; subst.
  destruct Hx as [->|Hx], Hy as [->|Hy]; [reflexivity| | |now apply IH].
  - exfalso. apply Hnotin. rewrite E. now apply in_map.
  - exfalso. apply Hnotin. rewrite <- E. now apply in_map.
Qed.

Section TreeFacts.

Context {T : Type} (id_of : T -> Z) (parentId_of : T -> option Z).
Context (arr : list T) (depth : T -> nat).

Hypothesis Hids : List.NoDup (map id_of arr).
Hypothesis Hdepth : forall x y,
    In x arr -> In y arr -> parentId_of y = Some (id_of x) ->
    (depth x < depth y)%nat.

Let kids (p : option Z) : list T :=
  List.filter (fun item => same_parent (parentId_of item) p) arr.

Let hangs := hangs_under id_of parentId_of arr.

(** The node [toTree] builds for an item, with [fuel] for its children. *)
Let built (fuel : nat) (y : T) (n : Tree T) : Prop :=
  exists ch, toTree id_of parentId_of fuel arr (Some (id_of y)) = Some ch
             /\ n = Node y ch.

Lemma in_kids (p : option Z) (y : T) :
  In y (kids p) <-> In y arr /\ parentId_of y = p.
Proof. unfold kids. now rewrite filter_In, same_parent_spec. Qed.

Lemma toTree_S (fuel : nat) (p : option Z) (forest : list (Tree T)) :
  toTree id_of parentId_of (S fuel) arr p = Some forest
  <-> Forall2 (built fuel) (kids p) forest.
Proof.
  cbn [toTree]. rewrite mapM_Some. fold (kids p).
  split; intros H; eapply Forall2_impl; try exact H; cbv beta; intros y n.
  - destruct (toTree id_of parentId_of fuel arr (Some (id_of y))) as [ch|] eqn:E;
      [|discriminate]. intros [= <-]. exists ch. now split.
  - intros (ch & -> & ->). reflexivity.
Qed.

Lemma toTree_more_fuel (fuel : nat) :
  forall p forest,
    toTree id_of parentId_of fuel arr p = Some forest ->
    toTree id_of parentId_of (S fuel) arr p = Some forest.
Proof.
  induction fuel as [|fuel IH]; intros p forest; [discriminate|].
  rewrite !toTree_S. intros H. eapply Forall2_impl; [exact H|].
  intros y n (ch & Hch & ->). exists ch. split; [now apply IH|reflexivity].
Qed.

Lemma toTree_enough (bound fuel : nat) :
  (forall y, In y arr -> (depth y <= bound)%nat) ->
  forall p,
    (forall y, In y arr -> parentId_of y = p -> (bound < depth y + fuel)%nat) ->
    exists forest, toTree id_of parentId_of (S fuel) arr p = Some forest.
Proof.
  intros Hbound. induction fuel as [|fuel IH]; intros p Hneed.
  - exists []. apply toTree_S.
    replace (kids p) with (@nil T); [constructor|].
    symmetry. destruct (kids p) as [|y l] eqn:E; [reflexivity|].
    assert (Hy : In y (kids p)) by (rewrite E; now left).
    apply in_kids in Hy as [Hin Hp].
    specialize (Hneed y Hin Hp). specialize (Hbound y Hin). lia.
  - assert (Hall : forall y, In y (kids p) ->
                             exists n, built (S fuel) y n).
    { intros y [Hin Hp]%in_kids.
      destruct (IH (Some (id_of y))) as [ch Hch].
      - intros z Hz Hpz. specialize (Hdepth y z Hin Hz Hpz).
        specialize (Hneed y Hin Hp). lia.
      - exists (Node y ch), ch. now split. }
    clear Hneed IH.
    assert (Hforest : exists forest, Forall2 (built (S fuel)) (kids p) forest).
    { induction (kids p) as [|y l IHl]; [exists []; constructor|].
      destruct (Hall y (or_introl eq_refl)) as [n Hn].
      destruct IHl as [forest Hf]; [intros z Hz; apply Hall; now right|].
      exists (n :: forest). now constructor. }
    destruct Hforest as [forest Hf]. exists forest. now apply toTree_S.
Qed.

Lemma hangs_deeper (z y : T) :
  In z arr -> In y arr -> hangs z (Some (id_of y)) ->
  (depth y < depth z)%nat.
Proof.
  intros Hz Hy H. remember (Some (id_of y)) as p eqn:Hp.
  induction H as [z p Hhere|z q p Hq Hzq Hup IH]; subst p.
  - now apply Hdepth.
  - specialize (IH Hq eq_refl). specialize (Hdepth q z Hq Hz Hzq). lia.
Qed.

Lemma hangs_trans (z y : T) (p : option Z) :
  In y arr -> parentId_of y = p -> hangs z (Some (id_of y)) -> hangs z p.
Proof.
  intros Hy Hp H. remember (Some (id_of y)) as k eqn:Hk.
  induction H as [z k Hhere|z q k Hq Hzq Hup IH]; subst k.
  - apply (hangs_up _ _ _ z y p Hy Hhere). now apply hangs_here.
  - apply (hangs_up _ _ _ z q p Hq Hzq). now apply IH.
Qed.

Lemma fromTree_cons (n : Tree T) (forest : list (Tree T)) :
  fromTree (n :: forest) = (traverse_node n ++ fromTree forest)%list.
Proof. reflexivity. Qed.

Lemma traverse_node_Node (y : T) (ch : list (Tree T)) :
  traverse_node (Node y ch) = y :: fromTree ch.
Proof. reflexivity. Qed.

(** What a level of the tree holds: the items it was built from and what
    hangs under them. *)
Lemma level_members (fuel : nat) (p : option Z) :
  (forall k forest,
      toTree id_of parentId_of fuel arr k = Some forest ->
      forall z, In z (fromTree forest) -> In z arr /\ hangs z k) ->
  forall l forest,
    (forall y, In y l -> In y arr /\ parentId_of y = p) ->
    Forall2 (built fuel) l forest ->
    forall z, In z (fromTree forest) ->
              In z arr
              /\ exists y, In y l /\ (z = y \/ hangs z (Some (id_of y))).
Proof.
  intros IH l forest Hl H. induction H as [|y n l forest Hn _ IHl];
    intros z Hz; [destruct Hz|].
  destruct Hn as (ch & Hch & ->).
  rewrite fromTree_cons, traverse_node_Node in Hz.
  cbn [app] in Hz. destruct Hz as [<-|Hz].
  - split; [apply Hl; now left|]. exists y. split; [now left|now left].
  - apply in_app_or in Hz as [Hz|Hz].
    + destruct (IH _ _ Hch z Hz) as [Hin Hh]. split; [exact Hin|].
      exists y. split; [now left|now right].
    + destruct (IHl (fun y Hy => Hl y (or_intror Hy)) z Hz)
        as (Hin & y' & Hy' & Hz').
      split; [exact Hin|]. exists y'. split; [now right|exact Hz'].
Qed.

Lemma toTree_members (fuel : nat) :
  forall p forest,
    toTree id_of parentId_of fuel arr p = Some forest ->
    forall z, In z (fromTree forest) -> In z arr /\ hangs z p.
Proof.
  induction fuel as [|fuel IH]; intros p forest Hf z Hz; [discriminate|].
  apply toTree_S in Hf.
  destruct (level_members fuel p IH (kids p) forest
              (fun y Hy => proj1 (in_kids p y) Hy) Hf z Hz)
    as (Hin & y & [Hy Hp]%in_kids & [->|Hh]).
  - split; [exact Hin|]. now apply hangs_here.
  - split; [exact Hin|]. now apply (hangs_trans z y p).
Qed.

Lemma level_top (fuel : nat) (l : list T) (forest : list (Tree T)) (y : T) :
  Forall2 (built fuel) l forest -> In y l -> In y (fromTree forest).
Proof.
  intros H. induction H as [|y' n l forest (ch & _ & ->) _ IHl]; [intros []|].
  rewrite fromTree_cons, traverse_node_Node. intros [->|Hy].
  - now left.
  - apply in_or_app. right. now apply IHl.
Qed.

Lemma toTree_children_in (fuel : nat) :
  forall p forest,
    toTree id_of parentId_of fuel arr p = Some forest ->
    forall q z, In q (fromTree forest) -> In z arr ->
                parentId_of z = Some (id_of q) -> In z (fromTree forest).
Proof.
  induction fuel as [|fuel IH]; intros p forest Hf q z Hq Hz Hzq;
    [discriminate|].
  apply toTree_S in Hf. revert Hq.
  induction Hf as [|y n l forest (ch & Hch & ->) _ IHl]; [intros []|].
  rewrite !fromTree_cons, !traverse_node_Node. cbn [app].
  intros [<-|Hq].
  - right. apply in_or_app. left.
    destruct fuel as [|fuel]; [discriminate|].
    apply toTree_S in Hch. apply (level_top _ _ _ _ Hch).
    apply in_kids. now split.
  - apply in_app_or in Hq as [Hq|Hq].
    + right. apply in_or_app. left. exact (IH _ _ Hch q z Hq Hz Hzq).
    + right. apply in_or_app. right. now apply IHl.
Qed.

Lemma toTree_holds (fuel : nat) (p : option Z) (forest : list (Tree T)) (z : T) :
  toTree id_of parentId_of fuel arr p = Some forest ->
  In z arr -> hangs z p -> In z (fromTree forest).
Proof.
  intros Hf Hz H. induction H as [z p Hhere|z q p Hq Hzq Hup IH].
  - destruct fuel as [|fuel]; [discriminate|].
    apply toTree_S in Hf. apply (level_top _ _ _ _ Hf).
    apply in_kids. now split.
  - apply (toTree_children_in fuel p forest Hf q z); auto.
Qed.

Lemma not_under_sibling (y1 y2 : T) :
  In y1 arr -> In y2 arr -> parentId_of y1 = parentId_of y2 ->
  hangs y1 (Some (id_of y2)) -> False.
Proof.
  intros H1 H2 Hp H. inversion H as [z p Hhere|z q p Hq Hzq Hup]; subst.
  - rewrite Hp in Hhere. specialize (Hdepth y2 y2 H2 H2 Hhere). lia.
  - pose proof (hangs_deeper q y2 Hq H2 Hup).
    rewrite Hp in Hzq. specialize (Hdepth q y2 Hq H2 Hzq). lia.
Qed.

Lemma one_branch (z y1 y2 : T) :
  In y1 arr -> In y2 arr -> parentId_of y1 = parentId_of y2 ->
  hangs z (Some (id_of y1)) -> hangs z (Some (id_of y2)) -> y1 = y2.
Proof.
  intros H1 H2 Hp Ha. remember (Some (id_of y1)) as p1 eqn:E1.
  induction Ha as [z p1 Hhere|z q p1 Hq Hzq Hup IH]; subst p1; intros Hb.
  - inversion Hb as [z' p Hhere'|z' q' p Hq' Hzq' Hup']; subst.
    + rewrite Hhere in Hhere'. injection Hhere' as E.
      exact (map_injective_on id_of arr y1 y2 Hids H1 H2 E).
    + rewrite Hhere in Hzq'. injection Hzq' as E.
      pose proof (map_injective_on id_of arr y1 q' Hids H1 Hq' E) as <-.
      destruct (not_under_sibling y1 y2 H1 H2 Hp Hup').
  - inversion Hb as [z' p Hhere'|z' q' p Hq' Hzq' Hup']; subst.
    + rewrite Hzq in Hhere'. injection Hhere' as E.
      pose proof (map_injective_on id_of arr q y2 Hids Hq H2 E) as ->.
      destruct (not_under_sibling y2 y1 H2 H1 (eq_sym Hp) Hup).
    + rewrite Hzq in Hzq'. injection Hzq' as E.
      pose proof (map_injective_on id_of arr q q' Hids Hq Hq' E) as <-.
      now apply IH.
Qed.

Lemma toTree_NoDup (fuel : nat) :
  forall p forest,
    toTree id_of parentId_of fuel arr p = Some forest ->
    List.NoDup (fromTree forest).
Proof.
  induction fuel as [|fuel IH]; intros p forest Hf; [discriminate|].
  apply toTree_S in Hf.
  assert (Hl : forall y, In y (kids p) -> In y arr /\ parentId_of y = p)
    by (intros y Hy; now apply in_kids).
  assert (Hnd : List.NoDup (kids p))
    by (apply List.NoDup_filter; exact (NoDup_map_inv _ _ Hids)).
  revert Hl Hnd Hf. generalize (kids p). intros l0 Hl Hnd Hf. revert Hl Hnd.
  induction Hf as [|y n l forest Hn Hrest IHl]; intros Hl Hnd; [constructor|].
  pose proof Hn as (ch & Hch & ->).
  rewrite fromTree_cons, traverse_node_Node.
  inversion Hnd as [|? ? Hnotin Hnd']; subst.
  destruct (Hl y (or_introl eq_refl)) as [Hy Hyp].
  assert (Hunder : forall z, In z (y :: fromTree ch) ->
                             In z arr /\ (z = y \/ hangs z (Some (id_of y)))).
  { intros z [<-|Hz]; [split; [exact Hy|now left]|].
    destruct (toTree_members fuel _ _ Hch z Hz) as [Hin Hh].
    split; [exact Hin|now right]. }
  apply List.NoDup_app.
  - constructor; [|exact (IH _ _ Hch)].
    intros Hself. destruct (toTree_members fuel _ _ Hch y Hself) as [_ Hh].
    pose proof (hangs_deeper y y Hy Hy Hh). lia.
  - apply IHl; [intros z Hz; apply Hl; now right|exact Hnd'].
  - intros z Hz Hz'.
    destruct (Hunder z Hz) as [Hin Hzy].
    destruct (level_members fuel p (toTree_members fuel) l forest
                (fun y Hy => Hl y (or_intror Hy)) Hrest z Hz')
      as (_ & y' & Hy' & Hzy').
    destruct (Hl y' (or_intror Hy')) as [Hy'in Hy'p].
    assert (Hsib : parentId_of y = parentId_of y') by congruence.
    assert (Hne : y <> y') by (intros ->; exact (Hnotin Hy')).
    destruct Hzy as [->|Hzy], Hzy' as [->|Hzy'].
    + now apply Hne.
    + exact (not_under_sibling y y' Hy Hy'in Hsib Hzy').
    + exact (not_under_sibling y' y Hy'in Hy (eq_sym Hsib) Hzy).
    + apply Hne. exact (one_branch z y y' Hy Hy'in Hsib Hzy Hzy').
Qed.

Lemma closed_hangs :
  (forall y k, In y arr -> parentId_of y = Some k ->
               exists x, In x arr /\ id_of x = k) ->
  forall z, In z arr -> hangs z None.
Proof.
  intros Hclosed.
  assert (H : forall n z, (depth z < n)%nat -> In z arr -> hangs z None).
  { induction n as [|n IH]; intros z Hn Hz; [lia|].
    destruct (parentId_of z) as [k|] eqn:Hp; [|now apply hangs_here].
    destruct (Hclosed z k Hz Hp) as (x & Hx & <-).
    apply (hangs_up _ _ _ z x None Hx Hp). apply IH; [|exact Hx].
    specialize (Hdepth x z Hx Hz Hp). lia. }
  intros z. apply (H (S (depth z))). lia.
Qed.

End TreeFacts.

(** X25.  For a list whose identifiers are all different and whose parent links
    go down a ranking (so they have no cycle), [toTree] returns: with enough
    fuel, and then with any more, the same forest.  Flattening that forest
    with [fromTree] gives every item that hangs under a root, once, and
    nothing else; when every [parentId] is the [id] of an item of the list,
    that is a rearrangement of the whole list. *)
Theorem fromTree_flattens_toTree {T : Type} (id_of : T -> Z)
        (parentId_of : T -> option Z) (arr : list T) (depth : T -> nat) :
  List.NoDup (map id_of arr) ->
  (forall x y, In x arr -> In y arr -> parentId_of y = Some (id_of x) ->
               (depth x < depth y)%nat) ->
  exists fuel0 forest,
    (forall fuel, (fuel0 <= fuel)%nat ->
                  toTree id_of parentId_of fuel arr None = Some forest)
    /\ List.NoDup (fromTree forest)
    /\ (forall z, In z (fromTree forest)
                  <-> In z arr /\ hangs_under id_of parentId_of arr z None)
    /\ ((forall y k, In y arr -> parentId_of y = Some k ->
                     exists x, In x arr /\ id_of x = k) ->
        Permutation (fromTree forest) arr).
Proof.
  intros Hids Hdepth.
  destruct (toTree_enough id_of parentId_of arr depth Hdepth
              (list_max (map depth arr)) (S (list_max (map depth arr))))
    with (p := @None Z) as [forest Hforest].
  { intros y Hy.
    pose proof (proj1 (list_max_le (map depth arr) (list_max (map depth arr)))
                      (le_n _)) as Hall.
    rewrite List.Forall_forall in Hall. apply Hall. now apply in_map. }
  { intros y _ _. lia. }
  exists (S (S (list_max (map depth arr)))), forest.
  assert (Hnd : List.NoDup (fromTree forest))
    by exact (toTree_NoDup id_of parentId_of arr depth Hids Hdepth _ _ _ Hforest).
  assert (Hmem : forall z, In z (fromTree forest)
                           <-> In z arr /\ hangs_under id_of parentId_of arr z None).
  { intros z. split.
    - exact (toTree_members id_of parentId_of arr _ _ _ Hforest z).
    - intros [Hz Hh].
      exact (toTree_holds id_of parentId_of arr _ _ _ z Hforest Hz Hh). }
  split; [|split; [exact Hnd|split; [exact Hmem|]]].
  - intros fuel Hle. induction Hle as [|fuel _ IH]; [exact Hforest|].
    now apply toTree_more_fuel.
  - intros Hclosed. apply Permutation.NoDup_Permutation.
    + exact Hnd.
    + exact (NoDup_map_inv _ _ Hids).
    + intros z. rewrite Hmem. split; [tauto|]. intros Hz. split; [exact Hz|].
      exact (closed_hangs id_of parentId_of arr depth Hdepth Hclosed z Hz).
Qed.

(** The departments: 1 and 5 are roots, 2 and 3 are under 1, 4 is under
    2. *)
Lemma fromTree_flattens_toTree_witness :
  toTree fst snd 4 departments None
  = Some [Node (1, None) [Node (2, Some 1) [Node (4, Some 2) []];
                          Node (3, Some 1) []];
          Node (5, None) []]
  /\ exists fuel0 forest,
       (forall fuel, (fuel0 <= fuel)%nat ->
                     toTree fst snd fuel departments None = Some forest)
       /\ Permutation (fromTree forest) departments.
Proof.
  split; [reflexivity|].
  assert (Hids : List.NoDup (map fst departments)).
  { cbn. repeat constructor; cbn; intuition lia. }
  assert (Hdepth : forall x y : Z * option Z,
             In x departments -> In y departments ->
             snd y = Some (fst x) ->
             (department_depth x < department_depth y)%nat).
  { intros x y Hx Hy E. cbn in Hx, Hy.
    destruct Hx as [<-|[<-|[<-|[<-|[<-|[]]]]]],
             Hy as [<-|[<-|[<-|[<-|[<-|[]]]]]];
      cbn in E; try discriminate E; vm_compute; lia. }
  assert (Hclosed : forall (y : Z * option Z) (k : Z),
             In y departments -> snd y = Some k ->
             exists x, In x departments /\ fst x = k).
  { intros y k Hy E. cbn in Hy.
    destruct Hy as [<-|[<-|[<-|[<-|[<-|[]]]]]];
      cbn in E; try discriminate E; injection E as <-;
      first [ exists (1, @None Z); split; [cbn; tauto|reflexivity]
            | exists (2, Some 1); split; [cbn; tauto|reflexivity] ]. }
  destruct (fromTree_flattens_toTree fst snd departments department_depth
              Hids Hdepth) as (fuel0 & forest & Hfuel & _ & _ & Hperm).
  exists fuel0, forest. split; [exact Hfuel|exact (Hperm Hclosed)].
Defined.

(** ** [formatUtils.date] *)

Lemma all_chars_app (ok : ascii -> bool) (a b : string) :
  all_chars ok (a ++ b) = all_chars ok a && all_chars ok b.
Proof.
  induction a as [|c a IH]; [reflexivity|].
  rewrite append_String. cbn [all_chars]. rewrite IH. apply andb_assoc.
Qed.

Lemma pretty_N_char_number (k : N) : number_char (pretty_N_char k) = true.
Proof.
  destruct k as [|p]; [reflexivity|].
  do 4 (try destruct p as [p|p|]); reflexivity.
Qed.

Lemma pretty_N_go_number (x : N) :
  forall s, all_chars number_char s = true ->
            all_chars number_char (pretty_N_go x s) = true.
Proof.
  induction x as [x IH] using (well_founded_induction N.lt_wf_0). intros s Hs.
  destruct (N.eq_dec x 0%N) as [->|Hne]; [now rewrite pretty_N_go_0|].
  rewrite pretty_N_go_step by lia. apply IH.
  - apply N.div_lt; lia.
  - cbn [all_chars]. now rewrite pretty_N_char_number, Hs.
Qed.

Lemma pretty_Z_number (z : Z) : all_chars number_char (pretty z) = true.
Proof.
  assert (Hpos : forall p : positive,
             all_chars number_char (pretty p) = true).
  { intros p. unfold pretty, pretty_positive, pretty, pretty_N.
    destruct (decide (N.pos p = 0%N)) as [E|_]; [discriminate E|].
    now apply pretty_N_go_number. }
  destruct z as [|p|p]; [reflexivity|apply Hpos|].
  unfold pretty, pretty_Z. rewrite all_chars_app. now rewrite Hpos.
Qed.

Lemma number_chars_pattern_free (s : string) :
  all_chars number_char s = true -> pattern_free s = true.
Proof.
  intros H. unfold pattern_free. cbn [forallb].
  assert (Hno : forall x, number_char x = false -> occurs x s = false).
  { intros x Hx. induction s as [|c r IH]; [reflexivity|].
    cbn [all_chars] in H. apply andb_true_iff in H as [Hc Hr].
    cbn [occurs]. rewrite (IH Hr), orb_false_r.
    destruct (Ascii.eqb_spec c x) as [->|]; [congruence|reflexivity]. }
  rewrite !Hno by reflexivity. reflexivity.
Qed.

Lemma padStart2_number (s : string) :
  all_chars number_char s = true -> all_chars number_char (padStart2 s) = true.
Proof.
  destruct s as [|c [|c' r]]; [reflexivity| |trivial].
  intros H. unfold padStart2. rewrite all_chars_app. now rewrite H.
Qed.

Lemma pattern_value_free (d : option DateFields) (p : Pattern) :
  pattern_free (pattern_value d p) = true.
Proof.
  apply number_chars_pattern_free.
  assert (H : forall v, all_chars number_char (getter_text d v) = true).
  { intros v. destruct d as [fields|]; [apply pretty_Z_number|reflexivity]. }
  destruct p; cbn [pattern_value]; try apply padStart2_number; apply H.
Qed.

Lemma replace_first_unfold (pat rep s : string) :
  replace_first pat rep s
  = if startsWith s pat then rep ++ drop_chars (String.length pat) s
    else match s with
         | EmptyString => EmptyString
         | String c r => String c (replace_first pat rep r)
         end.
Proof. destruct s; reflexivity. Qed.

Lemma startsWith_app (p t : string) : startsWith (p ++ t) p = true.
Proof.
  induction p as [|c p IH]; [now destruct t|].
  rewrite append_String. cbn [startsWith]. now rewrite Ascii.eqb_refl.
Qed.

Lemma replace_first_skip (x : ascii) (pat' rep s t : string) :
  occurs x s = false ->
  replace_first (String x pat') rep (s ++ t)
  = s ++ replace_first (String x pat') rep t.
Proof.
  induction s as [|c s IH]; intros H; [now rewrite !append_empty_l|].
  cbn [occurs] in H. apply orb_false_iff in H as [Hc Hs].
  rewrite !append_String, replace_first_unfold. cbn [startsWith].
  rewrite Ascii.eqb_sym, Hc. cbn [andb]. now rewrite IH.
Qed.

Lemma replace_first_here (pat rep t : string) :
  replace_first pat rep (pat ++ t) = rep ++ t.
Proof.
  rewrite replace_first_unfold, startsWith_app. now rewrite drop_chars_app.
Qed.

Lemma pattern_text_letter (p : Pattern) :
  exists pat', pattern_text p = String (pattern_letter p) pat'.
Proof. destruct p; eexists; reflexivity. Qed.

Lemma Pattern_eqb_eq (p q : Pattern) : Pattern_eqb p q = true <-> p = q.
Proof. destruct p, q; cbn; split; congruence. Qed.

Lemma other_pattern_text (p q : Pattern) :
  Pattern_eqb p q = false -> occurs (pattern_letter p) (pattern_text q) = false.
Proof. destruct p, q; cbn; congruence. Qed.

Lemma pattern_free_letter (s : string) (p : Pattern) :
  pattern_free s = true -> occurs (pattern_letter p) s = false.
Proof.
  unfold pattern_free. cbn [forallb]. intros H.
  repeat (apply andb_true_iff in H as [?%negb_true_iff H]).
  now destruct p.
Qed.

Lemma fill_render (p : Pattern) (v : string) (l : list Piece) :
  literals_pattern_free l ->
  replace_first (pattern_text p) v (render l) = render (fill p v l).
Proof.
  destruct (pattern_text_letter p) as [pat' Hpat].
  induction 1 as [|piece l Hpiece _ IH]; cbn [render fill].
  - rewrite Hpat. reflexivity.
  - destruct piece as [s|q].
    + rewrite Hpat, replace_first_skip by now apply pattern_free_letter.
      rewrite <- Hpat, IH. reflexivity.
    + destruct (Pattern_eqb p q) eqn:E.
      * apply Pattern_eqb_eq in E as <-. cbn [render].
        apply replace_first_here.
      * rewrite Hpat, replace_first_skip by now apply other_pattern_text.
        rewrite <- Hpat, IH. reflexivity.
Qed.

Lemma fill_keeps_free (p : Pattern) (v : string) (l : list Piece) :
  pattern_free v = true ->
  literals_pattern_free l -> literals_pattern_free (fill p v l).
Proof.
  intros Hv. induction 1 as [|piece l Hpiece Hl IH]; cbn [fill]; [constructor|].
  destruct piece as [s|q].
  - constructor; assumption.
  - destruct (Pattern_eqb p q); constructor; assumption.
Qed.

Lemma fill_piece_absent (p : Pattern) (v : string) (l : list Piece) :
  ~ In p (holes l) -> map (fill_piece p v) l = l.
Proof.
  induction l as [|[s|q] l IH]; cbn; intros H; [reflexivity| |].
  - now rewrite IH.
  - destruct (Pattern_eqb p q) eqn:E.
    + apply Pattern_eqb_eq in E as <-. exfalso. apply H. now left.
    + rewrite IH; [reflexivity|]. intros Hp. apply H. now right.
Qed.

Lemma fill_once (p : Pattern) (v : string) (l : list Piece) :
  List.NoDup (holes l) -> fill p v l = map (fill_piece p v) l.
Proof.
  induction l as [|[s|q] l IH]; cbn; intros H; [reflexivity| |].
  - now rewrite IH.
  - inversion H as [|? ? Hnotin Hnd]; subst.
    destruct (Pattern_eqb p q) eqn:E.
    + apply Pattern_eqb_eq in E as <-. now rewrite fill_piece_absent.
    + now rewrite IH.
Qed.

Lemma holes_fill_piece (p : Pattern) (v : string) (l : list Piece) :
  (forall q, In q (holes (map (fill_piece p v) l)) -> In q (holes l))
  /\ (List.NoDup (holes l) -> List.NoDup (holes (map (fill_piece p v) l))).
Proof.
  induction l as [|[s|q] l [IHin IHnd]]; cbn; [split; [tauto|trivial]|easy|].
  destruct (Pattern_eqb p q); cbn; split.
  - intros q' Hq'. right. now apply IHin.
  - intros H. inversion H; subst. now apply IHnd.
  - intros q' [->|Hq']; [now left|right; now apply IHin].
  - intros H. inversion H as [|? ? Hnotin Hnd]; subst.
    constructor; [|now apply IHnd]. intros Hq. apply Hnotin. now apply IHin.
Qed.

(** X26.  For a format made of literal text without the letters Y, M, D, H,
    m, s and of the patterns [YYYY], [MM], [DD], [HH], [mm], [ss] in any
    order, [formatUtils.date] fills the first hole of each pattern with the
    year, and with the month from 1, the day, the hours, the minutes and the
    seconds padded to two digits; a second hole of the same pattern stays as
    it is written.  When no pattern is written twice, every hole is
    filled.  An invalid date fills the holes with [NaN]. *)
Theorem date_fills_the_first_hole_of_each_pattern (d : option DateFields)
        (l : list Piece) :
  literals_pattern_free l ->
  formatUtils_date d (render l) = render (fill_first_holes d l)
  /\ (List.NoDup (holes l) ->
      formatUtils_date d (render l) = render (fill_every_hole d l)).
Proof.
  intros Hl.
  assert (Hfirst : formatUtils_date d (render l) = render (fill_first_holes d l)).
  { unfold formatUtils_date, fill_first_holes. cbn [fold_left].
    change (getter_text d getFullYear) with (pattern_value d P_YYYY).
    change (padStart2 (getter_text d (fun fields => getMonth fields + 1)))
      with (pattern_value d P_MM).
    change (padStart2 (getter_text d getDate)) with (pattern_value d P_DD).
    change (padStart2 (getter_text d getHours)) with (pattern_value d P_HH).
    change (padStart2 (getter_text d getMinutes)) with (pattern_value d P_mm).
    change (padStart2 (getter_text d getSeconds)) with (pattern_value d P_ss).
    change "YYYY" with (pattern_text P_YYYY).
    change "MM" with (pattern_text P_MM). change "DD" with (pattern_text P_DD).
    change "HH" with (pattern_text P_HH). change "mm" with (pattern_text P_mm).
    change "ss" with (pattern_text P_ss).
    rewrite !fill_render;
      repeat (apply fill_keeps_free; [apply pattern_value_free|]);
      try exact Hl.
    reflexivity. }
  split; [exact Hfirst|]. intros Hnd. rewrite Hfirst. f_equal.
  unfold fill_first_holes. cbn [fold_left].
  rewrite (fill_once P_YYYY) by exact Hnd.
  pose proof (proj2 (holes_fill_piece P_YYYY (pattern_value d P_YYYY) l) Hnd) as H1.
  rewrite (fill_once P_MM) by exact H1.
  pose proof (proj2 (holes_fill_piece P_MM (pattern_value d P_MM) _) H1) as H2.
  rewrite (fill_once P_DD) by exact H2.
  pose proof (proj2 (holes_fill_piece P_DD (pattern_value d P_DD) _) H2) as H3.
  rewrite (fill_once P_HH) by exact H3.
  pose proof (proj2 (holes_fill_piece P_HH (pattern_value d P_HH) _) H3) as H4.
  rewrite (fill_once P_mm) by exact H4.
  pose proof (proj2 (holes_fill_piece P_mm (pattern_value d P_mm) _) H4) as H5.
  rewrite (fill_once P_ss) by exact H5.
  rewrite !map_map. unfold fill_every_hole. apply map_ext.
  intros [s|[]]; reflexivity.
Qed.

(** [DATE_FORMATS.DISPLAY_DATETIME] on the morning of 5 March 2024. *)
Lemma date_fills_the_first_hole_of_each_pattern_witness :
  literals_pattern_free DISPLAY_DATETIME
  /\ formatUtils_date (Some a_morning) "YYYY年MM月DD日 HH:mm:ss"
     = "2024年03月05日 09:07:00".
Proof.
  assert (H : literals_pattern_free DISPLAY_DATETIME)
    by (repeat constructor).
  split; [exact H|].
  destruct (date_fills_the_first_hole_of_each_pattern (Some a_morning)
              DISPLAY_DATETIME H) as [Hfirst _].
  exact Hfirst.
Defined.

(** ** The delay of a call and a transport call that fails *)

(** C6, counterexample.  The descriptor [instant] has a timeout override, 0.
    The claim takes the override, when present, as the configured timeout;
    the code hands [finalConfig.timeout || this.timeout] to
    [AbortSignal.timeout], so the one [fetch] of the call carries the client
    default, 10000 ms, and not the override. *)
Lemma C6_zero_override_is_not_used :
  let out := request timing_out default_client instant ready in
  timeout instant = Some 0
  /\ map (fun call => fo_signal call.2) (fetch_calls (events_since ready out.2))
     = [Some 10000]
  /\ map (fun call => fo_signal call.2) (fetch_calls (events_since ready out.2))
     <> [timeout instant].
Proof.
  vm_compute. split; [reflexivity|]. split; [reflexivity|]. discriminate.
Qed.

(** C6, amended.  Through a client with the default interceptors, the delay
    handed to [AbortSignal.timeout] is the timeout override of the
    descriptor when one is present and not 0, and the client default
    otherwise.  When that delay is one [AbortSignal.timeout] accepts and the
    transport call is rejected with a failure other than [undefined] and
    [null], as it is when the signal fires before a response has arrived:
    the call has made exactly one [fetch], carrying that delay as signal; no
    response interceptor has run; the caller is rejected with the normalized
    error whose [details] is the failure of the transport call, whose [code]
    is the failure's or [UNKNOWN_ERROR] and whose [message] is the failure's
    or the generic text; the error interceptor has been called once, with
    that error; and besides what [fetch] did itself, the only effect is one
    notice, the message of that error: storage and location are
    untouched. *)
Theorem C6_delay_and_rejected_transport (P : Platform) (base : string) (t : Z)
        (config : RequestConfig) (s : Sys) (e : value) (w' : World) :
  let c := new_HttpClient base t in
  let delay := timeout_of c config in
  let target := buildURL c (url config) (params config) in
  let opts := fetchOptions_of (authorized (world s) config) delay in
  delay_ok delay ->
  fetch P target opts (world s) = (Throw e, w') ->
  is_nullish e = false ->
  let out := request P c config s in
  let evs := events_since s out.2 in
  (timeout config = None \/ timeout config = Some 0 -> delay = t)
  /\ (forall t', timeout config = Some t' -> t' <> 0 -> delay = t')
  /\ fetch_calls evs = [(target, opts)]
  /\ fo_signal opts = Some delay
  /\ response_inputs evs = []
  /\ exists code msg,
       get_prop e "code" = Some code
       /\ get_prop e "message" = Some msg
       /\ let apiError :=
            VObj [("code", js_or code (VStr "UNKNOWN_ERROR"));
                  ("message", js_or msg (VStr ERROR_MESSAGES.UNKNOWN_ERROR));
                  ("details", e)] in
          out.1 = Throw apiError
          /\ map ecall_error (error_calls evs) = [apiError]
          /\ notices (world out.2)
             = (notices w'
                  ++ [js_or msg (VStr ERROR_MESSAGES.UNKNOWN_ERROR)])%list
          /\ localStorage (world out.2) = localStorage w'
          /\ navigations (world out.2) = navigations w'
          /\ pathname (world out.2) = pathname w'.
Proof.
  intros c delay target opts Hok Hfetch Hnn out evs.
  destruct (request_timeout_choice c config) as (Hover & Hdefault & _).
  split; [exact Hdefault|]. split; [exact Hover|].
  assert (Hsig : AbortSignal_timeout (timeout_of (new_HttpClient base t) config)
                 = Ok delay) by exact (AbortSignal_timeout_ok delay Hok).
  pose proof (fresh_request_try P base t config s delay Hsig) as Htry.
  cbv zeta in Htry. fold c target opts in Htry. rewrite Hfetch in Htry.
  destruct (apiError_of_defined e Hnn) as (code & msg & Hc & Hm & Hapi).
  set (apiError := VObj [("code", js_or code (VStr "UNKNOWN_ERROR"));
                         ("message",
                          js_or msg (VStr ERROR_MESSAGES.UNKNOWN_ERROR));
                         ("details", e)]) in *.
  assert (Hout : out
                 = (Throw apiError,
                    {| world :=
                         message_error
                           (js_or msg (VStr ERROR_MESSAGES.UNKNOWN_ERROR)) w';
                       trace :=
                         (trace s
                            ++ [EvRequestInterceptor 0 config
                                  (Ok (authorized (world s) config));
                                EvFetch target opts;
                                EvErrorInterceptor 0 apiError
                                  (Throw apiError)])%list |})).
  { subst out. unfold request, try_catch. rewrite Htry.
    unfold request_catch. unfold bind at 1. rewrite Hapi.
    cbn [of_outcome]. unfold ret at 1.
    unfold applyErrorInterceptors. subst c.
    cbn [new_HttpClient errorInterceptors addRequestInterceptor
         addResponseInterceptor addErrorInterceptor app
         applyErrorInterceptors_from].
    unfold bind, try_catch, observed, ret, throw, defaultErrorInterceptor.
    subst apiError.
    cbn [get_prop assoc String.eqb Ascii.eqb Bool.eqb from_option status_is
         fst snd world trace].
    unfold id. rewrite <- app_assoc. cbn [app].
    assert (Htwice : js_or (js_or msg (VStr ERROR_MESSAGES.UNKNOWN_ERROR))
                           (VStr ERROR_MESSAGES.UNKNOWN_ERROR)
                     = js_or msg (VStr ERROR_MESSAGES.UNKNOWN_ERROR)).
    { unfold js_or. destruct (truthy msg) eqn:Hmsg; [now rewrite Hmsg|reflexivity]. }
    now rewrite Htwice. }
  assert (Hevs : evs = [EvRequestInterceptor 0 config
                          (Ok (authorized (world s) config));
                        EvFetch target opts;
                        EvErrorInterceptor 0 apiError (Throw apiError)]).
  { subst evs. rewrite Hout. unfold events_since. cbn [snd trace].
    apply drop_app_length. }
  rewrite Hevs. split; [reflexivity|].
  split; [apply (request_timeout_choice c (authorized (world s) config))|].
  split; [reflexivity|].
  exists code, msg. split; [exact Hc|]. split; [exact Hm|]. cbv zeta.
  fold apiError. rewrite Hout. cbn [fst snd world]. now repeat split.
Qed.

(** C6, an instance: no response within the 3 seconds of [brisk].  The
    caller is rejected with code 23, the code of the [TimeoutError], and the
    message of that error is shown. *)
Lemma C6_delay_and_rejected_transport_witness :
  delay_ok 3000
  /\ (request timing_out default_client brisk ready).1
     = Throw (VObj [("code", VNum 23); ("message", VStr "signal timed out");
                    ("details", TimeoutError)])
  /\ notices (world (request timing_out default_client brisk ready).2)
     = [VStr "signal timed out"]
  /\ map (fun call => fo_signal call.2)
         (fetch_calls (events_since ready
                         (request timing_out default_client brisk ready).2))
     = [Some 3000].
Proof.
  assert (Hok : delay_ok 3000) by (unfold delay_ok; lia).
  split; [exact Hok|].
  destruct (C6_delay_and_rejected_transport timing_out "/api" 10000 brisk ready
              TimeoutError (world ready) Hok eq_refl eq_refl)
    as (_ & _ & Hfetch & Hsignal & _ & code & msg & Hc & Hm & Hout & _ & Hn & _).
  injection Hc as <-. injection Hm as <-.
  split; [exact Hout|]. split; [exact Hn|].
  unfold default_client. rewrite Hfetch. cbn [map snd]. now rewrite Hsignal.
Defined.
